(** * ICN database normalisation: a model of [Database/normalize_data.py]

    The development follows [DataNormalizer.process_csv]: one pass over the
    rows of a [csv.DictReader], threading the five entity collections and the
    two carry-forward locals.  Python exceptions are explicit, so that the
    statements about a pass that completes are about a pass that really does
    complete. *)

From Stdlib Require Import Ascii String ZArith QArith_base Qreduction.
From stdpp Require Import base option list gmap strings.

Local Open Scope string_scope.
Local Open Scope nat_scope.

(** ** Python values used by the script

    A [str] is a sequence of code points, and is modelled by its UTF-8
    encoding, a [string] of the Standard Library.  [strip], [upper] and the
    digit class of [strptime] follow the Unicode database of CPython 3.11
    (Unicode 14.0): the white space of [str.isspace], the full upper-case
    mapping of [str.upper] and the decimal digits of category Nd.  A
    [string] that is not the encoding of a [str] does not come from the
    reader; on it the functions act on the ASCII bytes alone. *)

Module Py.

(** The exceptions the loop body can meet.  [None.strip()] raises
    [AttributeError]; [strptime] and [float] raise [ValueError]. *)
Inductive exn := AttributeError | ValueError | TypeError.

Inductive res (A : Type) : Type :=
| Ok (a : A)
| Raise (e : exn).
Arguments Ok {A} a.
Arguments Raise {A} e.

Definition bind {A B} (m : res A) (k : A → res B) : res B :=
  match m with
  | Ok a => k a
  | Raise e => Raise e
  end.

(** [try: body except handled: handler] *)
Definition try_except {A} (body : res A) (handled : exn → bool) (handler : res A) : res A :=
  match body with
  | Ok a => Ok a
  | Raise e => if handled e then handler else Raise e
  end.

Definition is_ok {A} (m : res A) : bool :=
  match m with Ok _ => true | Raise _ => false end.

(** *** Characters

    A code point is encoded by one byte below 0x80, or by a lead byte
    (0xC0 and up) followed by one, two or three continuation bytes (0x80 to
    0xBF). *)
Definition is_cont (c : ascii) : bool :=
  (128 <=? nat_of_ascii c) && (nat_of_ascii c <=? 191).

(** The characters of [s], each by its encoding, or [None] when [s] is not
    the encoding of a [str]. *)
Fixpoint chars (s : string) : option (list string) :=
  match s with
  | EmptyString => Some []
  | String a r =>
      if nat_of_ascii a <? 128 then (String a EmptyString ::.) <$> chars r
      else if nat_of_ascii a <? 192 then None
      else if nat_of_ascii a <? 224 then
        match r with
        | String b r2 =>
            if is_cont b then (String a (String b EmptyString) ::.) <$> chars r2 else None
        | _ => None
        end
      else if nat_of_ascii a <? 240 then
        match r with
        | String b (String c r3) =>
            if is_cont b && is_cont c
            then (String a (String b (String c EmptyString)) ::.) <$> chars r3 else None
        | _ => None
        end
      else
        match r with
        | String b (String c (String d r4)) =>
            if is_cont b && is_cont c && is_cont d
            then (String a (String b (String c (String d EmptyString))) ::.) <$> chars r4
            else None
        | _ => None
        end
  end.

(** The string made of the given characters. *)
Fixpoint cat (cs : list string) : string :=
  match cs with
  | [] => EmptyString
  | c :: cs' => c +:+ cat cs'
  end.

(** The string with the given bytes. *)
Fixpoint utf8 (bytes : list nat) : string :=
  match bytes with
  | [] => EmptyString
  | n :: bytes' => String (ascii_of_nat n) (utf8 bytes')
  end.

(** *** [str.strip()] *)

(** The ASCII characters [str.isspace] holds for: TAB, LF, VT, FF, CR, FS,
    GS, RS, US and space. *)
Definition is_space (c : ascii) : bool :=
  let n := nat_of_ascii c in
  ((9 <=? n) && (n <=? 13)) || ((28 <=? n) && (n <=? 32)).

(** The others: U+0085, U+00A0, U+1680, U+2000 to U+200A, U+2028, U+2029,
    U+202F, U+205F and U+3000. *)
Definition space_table : list string :=
  [ utf8 [194; 133]; utf8 [194; 160]; utf8 [225; 154; 128];
    utf8 [226; 128; 128]; utf8 [226; 128; 129]; utf8 [226; 128; 130];
    utf8 [226; 128; 131]; utf8 [226; 128; 132]; utf8 [226; 128; 133];
    utf8 [226; 128; 134]; utf8 [226; 128; 135]; utf8 [226; 128; 136];
    utf8 [226; 128; 137]; utf8 [226; 128; 138];
    utf8 [226; 128; 168]; utf8 [226; 128; 169]; utf8 [226; 128; 175];
    utf8 [226; 129; 159]; utf8 [227; 128; 128] ].

Definition is_space_char (c : string) : bool :=
  match c with
  | String a EmptyString => is_space a
  | _ => existsb (String.eqb c) space_table
  end.

Fixpoint drop_while {A} (p : A → bool) (l : list A) : list A :=
  match l with
  | x :: l' => if p x then drop_while p l' else l
  | [] => []
  end.

Fixpoint lstrip (s : string) : string :=
  match s with
  | String c s' => if is_space c then lstrip s' else s
  | EmptyString => EmptyString
  end.

Definition rstrip (s : string) : string := String.rev (lstrip (String.rev s)).

Definition strip (s : string) : string :=
  match chars s with
  | Some cs =>
      cat (rev (drop_while is_space_char (rev (drop_while is_space_char cs))))
  | None => rstrip (lstrip s)
  end.

(** *** [str.upper()] *)

(** The letters a to z. *)
Definition upper_char (c : ascii) : ascii :=
  let n := nat_of_ascii c in
  if (97 <=? n) && (n <=? 122) then ascii_of_nat (n - 32) else c.

Fixpoint ascii_upper (s : string) : string :=
  match s with
  | String c s' => String (upper_char c) (ascii_upper s')
  | EmptyString => EmptyString
  end.

(** The characters outside ASCII that [str.upper()] changes, each with what
    it becomes: one, two or three characters. *)
Definition upper_table : list (string * string) :=
  [
  ("µ", "Μ");
  ("ß", "SS");
  ("à", "À");
  ("á", "Á");
  ("â", "Â");
  ("ã", "Ã");
  ("ä", "Ä");
  ("å", "Å");
  ("æ", "Æ");
  ("ç", "Ç");
  ("è", "È");
  ("é", "É");
  ("ê", "Ê");
  ("ë", "Ë");
  ("ì", "Ì");
  ("í", "Í");
  ("î", "Î");
  ("ï", "Ï");
  ("ð", "Ð");
  ("ñ", "Ñ");
  ("ò", "Ò");
  ("ó", "Ó");
  ("ô", "Ô");
  ("õ", "Õ");
  ("ö", "Ö");
  ("ø", "Ø");
  ("ù", "Ù");
  ("ú", "Ú");
  ("û", "Û");
  ("ü", "Ü");
  ("ý", "Ý");
  ("þ", "Þ");
  ("ÿ", "Ÿ");
  ("ā", "Ā");
  ("ă", "Ă");
  ("ą", "Ą");
  ("ć", "Ć");
  ("ĉ", "Ĉ");
  ("ċ", "Ċ");
  ("č", "Č");
  ("ď", "Ď");
  ("đ", "Đ");
  ("ē", "Ē");
  ("ĕ", "Ĕ");
  ("ė", "Ė");
  ("ę", "Ę");
  ("ě", "Ě");
  ("ĝ", "Ĝ");
  ("ğ", "Ğ");
  ("ġ", "Ġ");
  ("ģ", "Ģ");
  ("ĥ", "Ĥ");
  ("ħ", "Ħ");
  ("ĩ", "Ĩ");
  ("ī", "Ī");
  ("ĭ", "Ĭ");
  ("į", "Į");
  ("ı", "I");
  ("ĳ", "Ĳ");
  ("ĵ", "Ĵ");
  ("ķ", "Ķ");
  ("ĺ", "Ĺ");
  ("ļ", "Ļ");
  ("ľ", "Ľ");
  ("ŀ", "Ŀ");
  ("ł", "Ł");
  ("ń", "Ń");
  ("ņ", "Ņ");
  ("ň", "Ň");
  ("ŉ", "ʼN");
  ("ŋ", "Ŋ");
  ("ō", "Ō");
  ("ŏ", "Ŏ");
  ("ő", "Ő");
  ("œ", "Œ");
  ("ŕ", "Ŕ");
  ("ŗ", "Ŗ");
  ("ř", "Ř");
  ("ś", "Ś");
  ("ŝ", "Ŝ");
  ("ş", "Ş");
  ("š", "Š");
  ("ţ", "Ţ");
  ("ť", "Ť");
  ("ŧ", "Ŧ");
  ("ũ", "Ũ");
  ("ū", "Ū");
  ("ŭ", "Ŭ");
  ("ů", "Ů");
  ("ű", "Ű");
  ("ų", "Ų");
  ("ŵ", "Ŵ");
  ("ŷ", "Ŷ");
  ("ź", "Ź");
  ("ż", "Ż");
  ("ž", "Ž");
  ("ſ", "S");
  ("ƀ", "Ƀ");
  ("ƃ", "Ƃ");
  ("ƅ", "Ƅ");
  ("ƈ", "Ƈ");
  ("ƌ", "Ƌ");
  ("ƒ", "Ƒ");
  ("ƕ", "Ƕ");
  ("ƙ", "Ƙ");
  ("ƚ", "Ƚ");
  ("ƞ", "Ƞ");
  ("ơ", "Ơ");
  ("ƣ", "Ƣ");
  ("ƥ", "Ƥ");
  ("ƨ", "Ƨ");
  ("ƭ", "Ƭ");
  ("ư", "Ư");
  ("ƴ", "Ƴ");
  ("ƶ", "Ƶ");
  ("ƹ", "Ƹ");
  ("ƽ", "Ƽ");
  ("ƿ", "Ƿ");
  ("ǅ", "Ǆ");
  ("ǆ", "Ǆ");
  ("ǈ", "Ǉ");
  ("ǉ", "Ǉ");
  ("ǋ", "Ǌ");
  ("ǌ", "Ǌ");
  ("ǎ", "Ǎ");
  ("ǐ", "Ǐ");
  ("ǒ", "Ǒ");
  ("ǔ", "Ǔ");
  ("ǖ", "Ǖ");
  ("ǘ", "Ǘ");
  ("ǚ", "Ǚ");
  ("ǜ", "Ǜ");
  ("ǝ", "Ǝ");
  ("ǟ", "Ǟ");
  ("ǡ", "Ǡ");
  ("ǣ", "Ǣ");
  ("ǥ", "Ǥ");
  ("ǧ", "Ǧ");
  ("ǩ", "Ǩ");
  ("ǫ", "Ǫ");
  ("ǭ", "Ǭ");
  ("ǯ", "Ǯ");
  ("ǰ", "J̌");
  ("ǲ", "Ǳ");
  ("ǳ", "Ǳ");
  ("ǵ", "Ǵ");
  ("ǹ", "Ǹ");
  ("ǻ", "Ǻ");
  ("ǽ", "Ǽ");
  ("ǿ", "Ǿ");
  ("ȁ", "Ȁ");
  ("ȃ", "Ȃ");
  ("ȅ", "Ȅ");
  ("ȇ", "Ȇ");
  ("ȉ", "Ȉ");
  ("ȋ", "Ȋ");
  ("ȍ", "Ȍ");
  ("ȏ", "Ȏ");
  ("ȑ", "Ȑ");
  ("ȓ", "Ȓ");
  ("ȕ", "Ȕ");
  ("ȗ", "Ȗ");
  ("ș", "Ș");
  ("ț", "Ț");
  ("ȝ", "Ȝ");
  ("ȟ", "Ȟ");
  ("ȣ", "Ȣ");
  ("ȥ", "Ȥ");
  ("ȧ", "Ȧ");
  ("ȩ", "Ȩ");
  ("ȫ", "Ȫ");
  ("ȭ", "Ȭ");
  ("ȯ", "Ȯ");
  ("ȱ", "Ȱ");
  ("ȳ", "Ȳ");
  ("ȼ", "Ȼ");
  ("ȿ", "Ȿ");
  ("ɀ", "Ɀ");
  ("ɂ", "Ɂ");
  ("ɇ", "Ɇ");
  ("ɉ", "Ɉ");
  ("ɋ", "Ɋ");
  ("ɍ", "Ɍ");
  ("ɏ", "Ɏ");
  ("ɐ", "Ɐ");
  ("ɑ", "Ɑ");
  ("ɒ", "Ɒ");
  ("ɓ", "Ɓ");
  ("ɔ", "Ɔ");
  ("ɖ", "Ɖ");
  ("ɗ", "Ɗ");
  ("ə", "Ə");
  ("ɛ", "Ɛ");
  ("ɜ", "Ɜ");
  ("ɠ", "Ɠ");
  ("ɡ", "Ɡ");
  ("ɣ", "Ɣ");
  ("ɥ", "Ɥ");
  ("ɦ", "Ɦ");
  ("ɨ", "Ɨ");
  ("ɩ", "Ɩ");
  ("ɪ", "Ɪ");
  ("ɫ", "Ɫ");
  ("ɬ", "Ɬ");
  ("ɯ", "Ɯ");
  ("ɱ", "Ɱ");
  ("ɲ", "Ɲ");
  ("ɵ", "Ɵ");
  ("ɽ", "Ɽ");
  ("ʀ", "Ʀ");
  ("ʂ", "Ʂ");
  ("ʃ", "Ʃ");
  ("ʇ", "Ʇ");
  ("ʈ", "Ʈ");
  ("ʉ", "Ʉ");
  ("ʊ", "Ʊ");
  ("ʋ", "Ʋ");
  ("ʌ", "Ʌ");
  ("ʒ", "Ʒ");
  ("ʝ", "Ʝ");
  ("ʞ", "Ʞ");
  ("ͅ", "Ι");
  ("ͱ", "Ͱ");
  ("ͳ", "Ͳ");
  ("ͷ", "Ͷ");
  ("ͻ", "Ͻ");
  ("ͼ", "Ͼ");
  ("ͽ", "Ͽ");
  ("ΐ", "Ϊ́");
  ("ά", "Ά");
  ("έ", "Έ");
  ("ή", "Ή");
  ("ί", "Ί");
  ("ΰ", "Ϋ́");
  ("α", "Α");
  ("β", "Β");
  ("γ", "Γ");
  ("δ", "Δ");
  ("ε", "Ε");
  ("ζ", "Ζ");
  ("η", "Η");
  ("θ", "Θ");
  ("ι", "Ι");
  ("κ", "Κ");
  ("λ", "Λ");
  ("μ", "Μ");
  ("ν", "Ν");
  ("ξ", "Ξ");
  ("ο", "Ο");
  ("π", "Π");
  ("ρ", "Ρ");
  ("ς", "Σ");
  ("σ", "Σ");
  ("τ", "Τ");
  ("υ", "Υ");
  ("φ", "Φ");
  ("χ", "Χ");
  ("ψ", "Ψ");
  ("ω", "Ω");
  ("ϊ", "Ϊ");
  ("ϋ", "Ϋ");
  ("ό", "Ό");
  ("ύ", "Ύ");
  ("ώ", "Ώ");
  ("ϐ", "Β");
  ("ϑ", "Θ");
  ("ϕ", "Φ");
  ("ϖ", "Π");
  ("ϗ", "Ϗ");
  ("ϙ", "Ϙ");
  ("ϛ", "Ϛ");
  ("ϝ", "Ϝ");
  ("ϟ", "Ϟ");
  ("ϡ", "Ϡ");
  ("ϣ", "Ϣ");
  ("ϥ", "Ϥ");
  ("ϧ", "Ϧ");
  ("ϩ", "Ϩ");
  ("ϫ", "Ϫ");
  ("ϭ", "Ϭ");
  ("ϯ", "Ϯ");
  ("ϰ", "Κ");
  ("ϱ", "Ρ");
  ("ϲ", "Ϲ");
  ("ϳ", "Ϳ");
  ("ϵ", "Ε");
  ("ϸ", "Ϸ");
  ("ϻ", "Ϻ");
  ("а", "А");
  ("б", "Б");
  ("в", "В");
  ("г", "Г");
  ("д", "Д");
  ("е", "Е");
  ("ж", "Ж");
  ("з", "З");
  ("и", "И");
  ("й", "Й");
  ("к", "К");
  ("л", "Л");
  ("м", "М");
  ("н", "Н");
  ("о", "О");
  ("п", "П");
  ("р", "Р");
  ("с", "С");
  ("т", "Т");
  ("у", "У");
  ("ф", "Ф");
  ("х", "Х");
  ("ц", "Ц");
  ("ч", "Ч");
  ("ш", "Ш");
  ("щ", "Щ");
  ("ъ", "Ъ");
  ("ы", "Ы");
  ("ь", "Ь");
  ("э", "Э");
  ("ю", "Ю");
  ("я", "Я");
  ("ѐ", "Ѐ");
  ("ё", "Ё");
  ("ђ", "Ђ");
  ("ѓ", "Ѓ");
  ("є", "Є");
  ("ѕ", "Ѕ");
  ("і", "І");
  ("ї", "Ї");
  ("ј", "Ј");
  ("љ", "Љ");
  ("њ", "Њ");
  ("ћ", "Ћ");
  ("ќ", "Ќ");
  ("ѝ", "Ѝ");
  ("ў", "Ў");
  ("џ", "Џ");
  ("ѡ", "Ѡ");
  ("ѣ", "Ѣ");
  ("ѥ", "Ѥ");
  ("ѧ", "Ѧ");
  ("ѩ", "Ѩ");
  ("ѫ", "Ѫ");
  ("ѭ", "Ѭ");
  ("ѯ", "Ѯ");
  ("ѱ", "Ѱ");
  ("ѳ", "Ѳ");
  ("ѵ", "Ѵ");
  ("ѷ", "Ѷ");
  ("ѹ", "Ѹ");
  ("ѻ", "Ѻ");
  ("ѽ", "Ѽ");
  ("ѿ", "Ѿ");
  ("ҁ", "Ҁ");
  ("ҋ", "Ҋ");
  ("ҍ", "Ҍ");
  ("ҏ", "Ҏ");
  ("ґ", "Ґ");
  ("ғ", "Ғ");
  ("ҕ", "Ҕ");
  ("җ", "Җ");
  ("ҙ", "Ҙ");
  ("қ", "Қ");
  ("ҝ", "Ҝ");
  ("ҟ", "Ҟ");
  ("ҡ", "Ҡ");
  ("ң", "Ң");
  ("ҥ", "Ҥ");
  ("ҧ", "Ҧ");
  ("ҩ", "Ҩ");
  ("ҫ", "Ҫ");
  ("ҭ", "Ҭ");
  ("ү", "Ү");
  ("ұ", "Ұ");
  ("ҳ", "Ҳ");
  ("ҵ", "Ҵ");
  ("ҷ", "Ҷ");
  ("ҹ", "Ҹ");
  ("һ", "Һ");
  ("ҽ", "Ҽ");
  ("ҿ", "Ҿ");
  ("ӂ", "Ӂ");
  ("ӄ", "Ӄ");
  ("ӆ", "Ӆ");
  ("ӈ", "Ӈ");
  ("ӊ", "Ӊ");
  ("ӌ", "Ӌ");
  ("ӎ", "Ӎ");
  ("ӏ", "Ӏ");
  ("ӑ", "Ӑ");
  ("ӓ", "Ӓ");
  ("ӕ", "Ӕ");
  ("ӗ", "Ӗ");
  ("ә", "Ә");
  ("ӛ", "Ӛ");
  ("ӝ", "Ӝ");
  ("ӟ", "Ӟ");
  ("ӡ", "Ӡ");
  ("ӣ", "Ӣ");
  ("ӥ", "Ӥ");
  ("ӧ", "Ӧ");
  ("ө", "Ө");
  ("ӫ", "Ӫ");
  ("ӭ", "Ӭ");
  ("ӯ", "Ӯ");
  ("ӱ", "Ӱ");
  ("ӳ", "Ӳ");
  ("ӵ", "Ӵ");
  ("ӷ", "Ӷ");
  ("ӹ", "Ӹ");
  ("ӻ", "Ӻ");
  ("ӽ", "Ӽ");
  ("ӿ", "Ӿ");
  ("ԁ", "Ԁ");
  ("ԃ", "Ԃ");
  ("ԅ", "Ԅ");
  ("ԇ", "Ԇ");
  ("ԉ", "Ԉ");
  ("ԋ", "Ԋ");
  ("ԍ", "Ԍ");
  ("ԏ", "Ԏ");
  ("ԑ", "Ԑ");
  ("ԓ", "Ԓ");
  ("ԕ", "Ԕ");
  ("ԗ", "Ԗ");
  ("ԙ", "Ԙ");
  ("ԛ", "Ԛ");
  ("ԝ", "Ԝ");
  ("ԟ", "Ԟ");
  ("ԡ", "Ԡ");
  ("ԣ", "Ԣ");
  ("ԥ", "Ԥ");
  ("ԧ", "Ԧ");
  ("ԩ", "Ԩ");
  ("ԫ", "Ԫ");
  ("ԭ", "Ԭ");
  ("ԯ", "Ԯ");
  ("ա", "Ա");
  ("բ", "Բ");
  ("գ", "Գ");
  ("դ", "Դ");
  ("ե", "Ե");
  ("զ", "Զ");
  ("է", "Է");
  ("ը", "Ը");
  ("թ", "Թ");
  ("ժ", "Ժ");
  ("ի", "Ի");
  ("լ", "Լ");
  ("խ", "Խ");
  ("ծ", "Ծ");
  ("կ", "Կ");
  ("հ", "Հ");
  ("ձ", "Ձ");
  ("ղ", "Ղ");
  ("ճ", "Ճ");
  ("մ", "Մ");
  ("յ", "Յ");
  ("ն", "Ն");
  ("շ", "Շ");
  ("ո", "Ո");
  ("չ", "Չ");
  ("պ", "Պ");
  ("ջ", "Ջ");
  ("ռ", "Ռ");
  ("ս", "Ս");
  ("վ", "Վ");
  ("տ", "Տ");
  ("ր", "Ր");
  ("ց", "Ց");
  ("ւ", "Ւ");
  ("փ", "Փ");
  ("ք", "Ք");
  ("օ", "Օ");
  ("ֆ", "Ֆ");
  ("և", "ԵՒ");
  ("ა", "Ა");
  ("ბ", "Ბ");
  ("გ", "Გ");
  ("დ", "Დ");
  ("ე", "Ე");
  ("ვ", "Ვ");
  ("ზ", "Ზ");
  ("თ", "Თ");
  ("ი", "Ი");
  ("კ", "Კ");
  ("ლ", "Ლ");
  ("მ", "Მ");
  ("ნ", "Ნ");
  ("ო", "Ო");
  ("პ", "Პ");
  ("ჟ", "Ჟ");
  ("რ", "Რ");
  ("ს", "Ს");
  ("ტ", "Ტ");
  ("უ", "Უ");
  ("ფ", "Ფ");
  ("ქ", "Ქ");
  ("ღ", "Ღ");
  ("ყ", "Ყ");
  ("შ", "Შ");
  ("ჩ", "Ჩ");
  ("ც", "Ც");
  ("ძ", "Ძ");
  ("წ", "Წ");
  ("ჭ", "Ჭ");
  ("ხ", "Ხ");
  ("ჯ", "Ჯ");
  ("ჰ", "Ჰ");
  ("ჱ", "Ჱ");
  ("ჲ", "Ჲ");
  ("ჳ", "Ჳ");
  ("ჴ", "Ჴ");
  ("ჵ", "Ჵ");
  ("ჶ", "Ჶ");
  ("ჷ", "Ჷ");
  ("ჸ", "Ჸ");
  ("ჹ", "Ჹ");
  ("ჺ", "Ჺ");
  ("ჽ", "Ჽ");
  ("ჾ", "Ჾ");
  ("ჿ", "Ჿ");
  ("ᏸ", "Ᏸ");
  ("ᏹ", "Ᏹ");
  ("ᏺ", "Ᏺ");
  ("ᏻ", "Ᏻ");
  ("ᏼ", "Ᏼ");
  ("ᏽ", "Ᏽ");
  ("ᲀ", "В");
  ("ᲁ", "Д");
  ("ᲂ", "О");
  ("ᲃ", "С");
  ("ᲄ", "Т");
  ("ᲅ", "Т");
  ("ᲆ", "Ъ");
  ("ᲇ", "Ѣ");
  ("ᲈ", "Ꙋ");
  ("ᵹ", "Ᵹ");
  ("ᵽ", "Ᵽ");
  ("ᶎ", "Ᶎ");
  ("ḁ", "Ḁ");
  ("ḃ", "Ḃ");
  ("ḅ", "Ḅ");
  ("ḇ", "Ḇ");
  ("ḉ", "Ḉ");
  ("ḋ", "Ḋ");
  ("ḍ", "Ḍ");
  ("ḏ", "Ḏ");
  ("ḑ", "Ḑ");
  ("ḓ", "Ḓ");
  ("ḕ", "Ḕ");
  ("ḗ", "Ḗ");
  ("ḙ", "Ḙ");
  ("ḛ", "Ḛ");
  ("ḝ", "Ḝ");
  ("ḟ", "Ḟ");
  ("ḡ", "Ḡ");
  ("ḣ", "Ḣ");
  ("ḥ", "Ḥ");
  ("ḧ", "Ḧ");
  ("ḩ", "Ḩ");
  ("ḫ", "Ḫ");
  ("ḭ", "Ḭ");
  ("ḯ", "Ḯ");
  ("ḱ", "Ḱ");
  ("ḳ", "Ḳ");
  ("ḵ", "Ḵ");
  ("ḷ", "Ḷ");
  ("ḹ", "Ḹ");
  ("ḻ", "Ḻ");
  ("ḽ", "Ḽ");
  ("ḿ", "Ḿ");
  ("ṁ", "Ṁ");
  ("ṃ", "Ṃ");
  ("ṅ", "Ṅ");
  ("ṇ", "Ṇ");
  ("ṉ", "Ṉ");
  ("ṋ", "Ṋ");
  ("ṍ", "Ṍ");
  ("ṏ", "Ṏ");
  ("ṑ", "Ṑ");
  ("ṓ", "Ṓ");
  ("ṕ", "Ṕ");
  ("ṗ", "Ṗ");
  ("ṙ", "Ṙ");
  ("ṛ", "Ṛ");
  ("ṝ", "Ṝ");
  ("ṟ", "Ṟ");
  ("ṡ", "Ṡ");
  ("ṣ", "Ṣ");
  ("ṥ", "Ṥ");
  ("ṧ", "Ṧ");
  ("ṩ", "Ṩ");
  ("ṫ", "Ṫ");
  ("ṭ", "Ṭ");
  ("ṯ", "Ṯ");
  ("ṱ", "Ṱ");
  ("ṳ", "Ṳ");
  ("ṵ", "Ṵ");
  ("ṷ", "Ṷ");
  ("ṹ", "Ṹ");
  ("ṻ", "Ṻ");
  ("ṽ", "Ṽ");
  ("ṿ", "Ṿ");
  ("ẁ", "Ẁ");
  ("ẃ", "Ẃ");
  ("ẅ", "Ẅ");
  ("ẇ", "Ẇ");
  ("ẉ", "Ẉ");
  ("ẋ", "Ẋ");
  ("ẍ", "Ẍ");
  ("ẏ", "Ẏ");
  ("ẑ", "Ẑ");
  ("ẓ", "Ẓ");
  ("ẕ", "Ẕ");
  ("ẖ", "H̱");
  ("ẗ", "T̈");
  ("ẘ", "W̊");
  ("ẙ", "Y̊");
  ("ẚ", "Aʾ");
  ("ẛ", "Ṡ");
  ("ạ", "Ạ");
  ("ả", "Ả");
  ("ấ", "Ấ");
  ("ầ", "Ầ");
  ("ẩ", "Ẩ");
  ("ẫ", "Ẫ");
  ("ậ", "Ậ");
  ("ắ", "Ắ");
  ("ằ", "Ằ");
  ("ẳ", "Ẳ");
  ("ẵ", "Ẵ");
  ("ặ", "Ặ");
  ("ẹ", "Ẹ");
  ("ẻ", "Ẻ");
  ("ẽ", "Ẽ");
  ("ế", "Ế");
  ("ề", "Ề");
  ("ể", "Ể");
  ("ễ", "Ễ");
  ("ệ", "Ệ");
  ("ỉ", "Ỉ");
  ("ị", "Ị");
  ("ọ", "Ọ");
  ("ỏ", "Ỏ");
  ("ố", "Ố");
  ("ồ", "Ồ");
  ("ổ", "Ổ");
  ("ỗ", "Ỗ");
  ("ộ", "Ộ");
  ("ớ", "Ớ");
  ("ờ", "Ờ");
  ("ở", "Ở");
  ("ỡ", "Ỡ");
  ("ợ", "Ợ");
  ("ụ", "Ụ");
  ("ủ", "Ủ");
  ("ứ", "Ứ");
  ("ừ", "Ừ");
  ("ử", "Ử");
  ("ữ", "Ữ");
  ("ự", "Ự");
  ("ỳ", "Ỳ");
  ("ỵ", "Ỵ");
  ("ỷ", "Ỷ");
  ("ỹ", "Ỹ");
  ("ỻ", "Ỻ");
  ("ỽ", "Ỽ");
  ("ỿ", "Ỿ");
  ("ἀ", "Ἀ");
  ("ἁ", "Ἁ");
  ("ἂ", "Ἂ");
  ("ἃ", "Ἃ");
  ("ἄ", "Ἄ");
  ("ἅ", "Ἅ");
  ("ἆ", "Ἆ");
  ("ἇ", "Ἇ");
  ("ἐ", "Ἐ");
  ("ἑ", "Ἑ");
  ("ἒ", "Ἒ");
  ("ἓ", "Ἓ");
  ("ἔ", "Ἔ");
  ("ἕ", "Ἕ");
  ("ἠ", "Ἠ");
  ("ἡ", "Ἡ");
  ("ἢ", "Ἢ");
  ("ἣ", "Ἣ");
  ("ἤ", "Ἤ");
  ("ἥ", "Ἥ");
  ("ἦ", "Ἦ");
  ("ἧ", "Ἧ");
  ("ἰ", "Ἰ");
  ("ἱ", "Ἱ");
  ("ἲ", "Ἲ");
  ("ἳ", "Ἳ");
  ("ἴ", "Ἴ");
  ("ἵ", "Ἵ");
  ("ἶ", "Ἶ");
  ("ἷ", "Ἷ");
  ("ὀ", "Ὀ");
  ("ὁ", "Ὁ");
  ("ὂ", "Ὂ");
  ("ὃ", "Ὃ");
  ("ὄ", "Ὄ");
  ("ὅ", "Ὅ");
  ("ὐ", "Υ̓");
  ("ὑ", "Ὑ");
  ("ὒ", "Υ̓̀");
  ("ὓ", "Ὓ");
  ("ὔ", "Υ̓́");
  ("ὕ", "Ὕ");
  ("ὖ", "Υ̓͂");
  ("ὗ", "Ὗ");
  ("ὠ", "Ὠ");
  ("ὡ", "Ὡ");
  ("ὢ", "Ὢ");
  ("ὣ", "Ὣ");
  ("ὤ", "Ὤ");
  ("ὥ", "Ὥ");
  ("ὦ", "Ὦ");
  ("ὧ", "Ὧ");
  ("ὰ", "Ὰ");
  ("ά", "Ά");
  ("ὲ", "Ὲ");
  ("έ", "Έ");
  ("ὴ", "Ὴ");
  ("ή", "Ή");
  ("ὶ", "Ὶ");
  ("ί", "Ί");
  ("ὸ", "Ὸ");
  ("ό", "Ό");
  ("ὺ", "Ὺ");
  ("ύ", "Ύ");
  ("ὼ", "Ὼ");
  ("ώ", "Ώ");
  ("ᾀ", "ἈΙ");
  ("ᾁ", "ἉΙ");
  ("ᾂ", "ἊΙ");
  ("ᾃ", "ἋΙ");
  ("ᾄ", "ἌΙ");
  ("ᾅ", "ἍΙ");
  ("ᾆ", "ἎΙ");
  ("ᾇ", "ἏΙ");
  ("ᾈ", "ἈΙ");
  ("ᾉ", "ἉΙ");
  ("ᾊ", "ἊΙ");
  ("ᾋ", "ἋΙ");
  ("ᾌ", "ἌΙ");
  ("ᾍ", "ἍΙ");
  ("ᾎ", "ἎΙ");
  ("ᾏ", "ἏΙ");
  ("ᾐ", "ἨΙ");
  ("ᾑ", "ἩΙ");
  ("ᾒ", "ἪΙ");
  ("ᾓ", "ἫΙ");
  ("ᾔ", "ἬΙ");
  ("ᾕ", "ἭΙ");
  ("ᾖ", "ἮΙ");
  ("ᾗ", "ἯΙ");
  ("ᾘ", "ἨΙ");
  ("ᾙ", "ἩΙ");
  ("ᾚ", "ἪΙ");
  ("ᾛ", "ἫΙ");
  ("ᾜ", "ἬΙ");
  ("ᾝ", "ἭΙ");
  ("ᾞ", "ἮΙ");
  ("ᾟ", "ἯΙ");
  ("ᾠ", "ὨΙ");
  ("ᾡ", "ὩΙ");
  ("ᾢ", "ὪΙ");
  ("ᾣ", "ὫΙ");
  ("ᾤ", "ὬΙ");
  ("ᾥ", "ὭΙ");
  ("ᾦ", "ὮΙ");
  ("ᾧ", "ὯΙ");
  ("ᾨ", "ὨΙ");
  ("ᾩ", "ὩΙ");
  ("ᾪ", "ὪΙ");
  ("ᾫ", "ὫΙ");
  ("ᾬ", "ὬΙ");
  ("ᾭ", "ὭΙ");
  ("ᾮ", "ὮΙ");
  ("ᾯ", "ὯΙ");
  ("ᾰ", "Ᾰ");
  ("ᾱ", "Ᾱ");
  ("ᾲ", "ᾺΙ");
  ("ᾳ", "ΑΙ");
  ("ᾴ", "ΆΙ");
  ("ᾶ", "Α͂");
  ("ᾷ", "Α͂Ι");
  ("ᾼ", "ΑΙ");
  ("ι", "Ι");
  ("ῂ", "ῊΙ");
  ("ῃ", "ΗΙ");
  ("ῄ", "ΉΙ");
  ("ῆ", "Η͂");
  ("ῇ", "Η͂Ι");
  ("ῌ", "ΗΙ");
  ("ῐ", "Ῐ");
  ("ῑ", "Ῑ");
  ("ῒ", "Ϊ̀");
  ("ΐ", "Ϊ́");
  ("ῖ", "Ι͂");
  ("ῗ", "Ϊ͂");
  ("ῠ", "Ῠ");
  ("ῡ", "Ῡ");
  ("ῢ", "Ϋ̀");
  ("ΰ", "Ϋ́");
  ("ῤ", "Ρ̓");
  ("ῥ", "Ῥ");
  ("ῦ", "Υ͂");
  ("ῧ", "Ϋ͂");
  ("ῲ", "ῺΙ");
  ("ῳ", "ΩΙ");
  ("ῴ", "ΏΙ");
  ("ῶ", "Ω͂");
  ("ῷ", "Ω͂Ι");
  ("ῼ", "ΩΙ");
  ("ⅎ", "Ⅎ");
  ("ⅰ", "Ⅰ");
  ("ⅱ", "Ⅱ");
  ("ⅲ", "Ⅲ");
  ("ⅳ", "Ⅳ");
  ("ⅴ", "Ⅴ");
  ("ⅵ", "Ⅵ");
  ("ⅶ", "Ⅶ");
  ("ⅷ", "Ⅷ");
  ("ⅸ", "Ⅸ");
  ("ⅹ", "Ⅹ");
  ("ⅺ", "Ⅺ");
  ("ⅻ", "Ⅻ");
  ("ⅼ", "Ⅼ");
  ("ⅽ", "Ⅽ");
  ("ⅾ", "Ⅾ");
  ("ⅿ", "Ⅿ");
  ("ↄ", "Ↄ");
  ("ⓐ", "Ⓐ");
  ("ⓑ", "Ⓑ");
  ("ⓒ", "Ⓒ");
  ("ⓓ", "Ⓓ");
  ("ⓔ", "Ⓔ");
  ("ⓕ", "Ⓕ");
  ("ⓖ", "Ⓖ");
  ("ⓗ", "Ⓗ");
  ("ⓘ", "Ⓘ");
  ("ⓙ", "Ⓙ");
  ("ⓚ", "Ⓚ");
  ("ⓛ", "Ⓛ");
  ("ⓜ", "Ⓜ");
  ("ⓝ", "Ⓝ");
  ("ⓞ", "Ⓞ");
  ("ⓟ", "Ⓟ");
  ("ⓠ", "Ⓠ");
  ("ⓡ", "Ⓡ");
  ("ⓢ", "Ⓢ");
  ("ⓣ", "Ⓣ");
  ("ⓤ", "Ⓤ");
  ("ⓥ", "Ⓥ");
  ("ⓦ", "Ⓦ");
  ("ⓧ", "Ⓧ");
  ("ⓨ", "Ⓨ");
  ("ⓩ", "Ⓩ");
  ("ⰰ", "Ⰰ");
  ("ⰱ", "Ⰱ");
  ("ⰲ", "Ⰲ");
  ("ⰳ", "Ⰳ");
  ("ⰴ", "Ⰴ");
  ("ⰵ", "Ⰵ");
  ("ⰶ", "Ⰶ");
  ("ⰷ", "Ⰷ");
  ("ⰸ", "Ⰸ");
  ("ⰹ", "Ⰹ");
  ("ⰺ", "Ⰺ");
  ("ⰻ", "Ⰻ");
  ("ⰼ", "Ⰼ");
  ("ⰽ", "Ⰽ");
  ("ⰾ", "Ⰾ");
  ("ⰿ", "Ⰿ");
  ("ⱀ", "Ⱀ");
  ("ⱁ", "Ⱁ");
  ("ⱂ", "Ⱂ");
  ("ⱃ", "Ⱃ");
  ("ⱄ", "Ⱄ");
  ("ⱅ", "Ⱅ");
  ("ⱆ", "Ⱆ");
  ("ⱇ", "Ⱇ");
  ("ⱈ", "Ⱈ");
  ("ⱉ", "Ⱉ");
  ("ⱊ", "Ⱊ");
  ("ⱋ", "Ⱋ");
  ("ⱌ", "Ⱌ");
  ("ⱍ", "Ⱍ");
  ("ⱎ", "Ⱎ");
  ("ⱏ", "Ⱏ");
  ("ⱐ", "Ⱐ");
  ("ⱑ", "Ⱑ");
  ("ⱒ", "Ⱒ");
  ("ⱓ", "Ⱓ");
  ("ⱔ", "Ⱔ");
  ("ⱕ", "Ⱕ");
  ("ⱖ", "Ⱖ");
  ("ⱗ", "Ⱗ");
  ("ⱘ", "Ⱘ");
  ("ⱙ", "Ⱙ");
  ("ⱚ", "Ⱚ");
  ("ⱛ", "Ⱛ");
  ("ⱜ", "Ⱜ");
  ("ⱝ", "Ⱝ");
  ("ⱞ", "Ⱞ");
  ("ⱟ", "Ⱟ");
  ("ⱡ", "Ⱡ");
  ("ⱥ", "Ⱥ");
  ("ⱦ", "Ⱦ");
  ("ⱨ", "Ⱨ");
  ("ⱪ", "Ⱪ");
  ("ⱬ", "Ⱬ");
  ("ⱳ", "Ⱳ");
  ("ⱶ", "Ⱶ");
  ("ⲁ", "Ⲁ");
  ("ⲃ", "Ⲃ");
  ("ⲅ", "Ⲅ");
  ("ⲇ", "Ⲇ");
  ("ⲉ", "Ⲉ");
  ("ⲋ", "Ⲋ");
  ("ⲍ", "Ⲍ");
  ("ⲏ", "Ⲏ");
  ("ⲑ", "Ⲑ");
  ("ⲓ", "Ⲓ");
  ("ⲕ", "Ⲕ");
  ("ⲗ", "Ⲗ");
  ("ⲙ", "Ⲙ");
  ("ⲛ", "Ⲛ");
  ("ⲝ", "Ⲝ");
  ("ⲟ", "Ⲟ");
  ("ⲡ", "Ⲡ");
  ("ⲣ", "Ⲣ");
  ("ⲥ", "Ⲥ");
  ("ⲧ", "Ⲧ");
  ("ⲩ", "Ⲩ");
  ("ⲫ", "Ⲫ");
  ("ⲭ", "Ⲭ");
  ("ⲯ", "Ⲯ");
  ("ⲱ", "Ⲱ");
  ("ⲳ", "Ⲳ");
  ("ⲵ", "Ⲵ");
  ("ⲷ", "Ⲷ");
  ("ⲹ", "Ⲹ");
  ("ⲻ", "Ⲻ");
  ("ⲽ", "Ⲽ");
  ("ⲿ", "Ⲿ");
  ("ⳁ", "Ⳁ");
  ("ⳃ", "Ⳃ");
  ("ⳅ", "Ⳅ");
  ("ⳇ", "Ⳇ");
  ("ⳉ", "Ⳉ");
  ("ⳋ", "Ⳋ");
  ("ⳍ", "Ⳍ");
  ("ⳏ", "Ⳏ");
  ("ⳑ", "Ⳑ");
  ("ⳓ", "Ⳓ");
  ("ⳕ", "Ⳕ");
  ("ⳗ", "Ⳗ");
  ("ⳙ", "Ⳙ");
  ("ⳛ", "Ⳛ");
  ("ⳝ", "Ⳝ");
  ("ⳟ", "Ⳟ");
  ("ⳡ", "Ⳡ");
  ("ⳣ", "Ⳣ");
  ("ⳬ", "Ⳬ");
  ("ⳮ", "Ⳮ");
  ("ⳳ", "Ⳳ");
  ("ⴀ", "Ⴀ");
  ("ⴁ", "Ⴁ");
  ("ⴂ", "Ⴂ");
  ("ⴃ", "Ⴃ");
  ("ⴄ", "Ⴄ");
  ("ⴅ", "Ⴅ");
  ("ⴆ", "Ⴆ");
  ("ⴇ", "Ⴇ");
  ("ⴈ", "Ⴈ");
  ("ⴉ", "Ⴉ");
  ("ⴊ", "Ⴊ");
  ("ⴋ", "Ⴋ");
  ("ⴌ", "Ⴌ");
  ("ⴍ", "Ⴍ");
  ("ⴎ", "Ⴎ");
  ("ⴏ", "Ⴏ");
  ("ⴐ", "Ⴐ");
  ("ⴑ", "Ⴑ");
  ("ⴒ", "Ⴒ");
  ("ⴓ", "Ⴓ");
  ("ⴔ", "Ⴔ");
  ("ⴕ", "Ⴕ");
  ("ⴖ", "Ⴖ");
  ("ⴗ", "Ⴗ");
  ("ⴘ", "Ⴘ");
  ("ⴙ", "Ⴙ");
  ("ⴚ", "Ⴚ");
  ("ⴛ", "Ⴛ");
  ("ⴜ", "Ⴜ");
  ("ⴝ", "Ⴝ");
  ("ⴞ", "Ⴞ");
  ("ⴟ", "Ⴟ");
  ("ⴠ", "Ⴠ");
  ("ⴡ", "Ⴡ");
  ("ⴢ", "Ⴢ");
  ("ⴣ", "Ⴣ");
  ("ⴤ", "Ⴤ");
  ("ⴥ", "Ⴥ");
  ("ⴧ", "Ⴧ");
  ("ⴭ", "Ⴭ");
  ("ꙁ", "Ꙁ");
  ("ꙃ", "Ꙃ");
  ("ꙅ", "Ꙅ");
  ("ꙇ", "Ꙇ");
  ("ꙉ", "Ꙉ");
  ("ꙋ", "Ꙋ");
  ("ꙍ", "Ꙍ");
  ("ꙏ", "Ꙏ");
  ("ꙑ", "Ꙑ");
  ("ꙓ", "Ꙓ");
  ("ꙕ", "Ꙕ");
  ("ꙗ", "Ꙗ");
  ("ꙙ", "Ꙙ");
  ("ꙛ", "Ꙛ");
  ("ꙝ", "Ꙝ");
  ("ꙟ", "Ꙟ");
  ("ꙡ", "Ꙡ");
  ("ꙣ", "Ꙣ");
  ("ꙥ", "Ꙥ");
  ("ꙧ", "Ꙧ");
  ("ꙩ", "Ꙩ");
  ("ꙫ", "Ꙫ");
  ("ꙭ", "Ꙭ");
  ("ꚁ", "Ꚁ");
  ("ꚃ", "Ꚃ");
  ("ꚅ", "Ꚅ");
  ("ꚇ", "Ꚇ");
  ("ꚉ", "Ꚉ");
  ("ꚋ", "Ꚋ");
  ("ꚍ", "Ꚍ");
  ("ꚏ", "Ꚏ");
  ("ꚑ", "Ꚑ");
  ("ꚓ", "Ꚓ");
  ("ꚕ", "Ꚕ");
  ("ꚗ", "Ꚗ");
  ("ꚙ", "Ꚙ");
  ("ꚛ", "Ꚛ");
  ("ꜣ", "Ꜣ");
  ("ꜥ", "Ꜥ");
  ("ꜧ", "Ꜧ");
  ("ꜩ", "Ꜩ");
  ("ꜫ", "Ꜫ");
  ("ꜭ", "Ꜭ");
  ("ꜯ", "Ꜯ");
  ("ꜳ", "Ꜳ");
  ("ꜵ", "Ꜵ");
  ("ꜷ", "Ꜷ");
  ("ꜹ", "Ꜹ");
  ("ꜻ", "Ꜻ");
  ("ꜽ", "Ꜽ");
  ("ꜿ", "Ꜿ");
  ("ꝁ", "Ꝁ");
  ("ꝃ", "Ꝃ");
  ("ꝅ", "Ꝅ");
  ("ꝇ", "Ꝇ");
  ("ꝉ", "Ꝉ");
  ("ꝋ", "Ꝋ");
  ("ꝍ", "Ꝍ");
  ("ꝏ", "Ꝏ");
  ("ꝑ", "Ꝑ");
  ("ꝓ", "Ꝓ");
  ("ꝕ", "Ꝕ");
  ("ꝗ", "Ꝗ");
  ("ꝙ", "Ꝙ");
  ("ꝛ", "Ꝛ");
  ("ꝝ", "Ꝝ");
  ("ꝟ", "Ꝟ");
  ("ꝡ", "Ꝡ");
  ("ꝣ", "Ꝣ");
  ("ꝥ", "Ꝥ");
  ("ꝧ", "Ꝧ");
  ("ꝩ", "Ꝩ");
  ("ꝫ", "Ꝫ");
  ("ꝭ", "Ꝭ");
  ("ꝯ", "Ꝯ");
  ("ꝺ", "Ꝺ");
  ("ꝼ", "Ꝼ");
  ("ꝿ", "Ꝿ");
  ("ꞁ", "Ꞁ");
  ("ꞃ", "Ꞃ");
  ("ꞅ", "Ꞅ");
  ("ꞇ", "Ꞇ");
  ("ꞌ", "Ꞌ");
  ("ꞑ", "Ꞑ");
  ("ꞓ", "Ꞓ");
  ("ꞔ", "Ꞔ");
  ("ꞗ", "Ꞗ");
  ("ꞙ", "Ꞙ");
  ("ꞛ", "Ꞛ");
  ("ꞝ", "Ꞝ");
  ("ꞟ", "Ꞟ");
  ("ꞡ", "Ꞡ");
  ("ꞣ", "Ꞣ");
  ("ꞥ", "Ꞥ");
  ("ꞧ", "Ꞧ");
  ("ꞩ", "Ꞩ");
  ("ꞵ", "Ꞵ");
  ("ꞷ", "Ꞷ");
  ("ꞹ", "Ꞹ");
  ("ꞻ", "Ꞻ");
  ("ꞽ", "Ꞽ");
  ("ꞿ", "Ꞿ");
  ("ꟁ", "Ꟁ");
  ("ꟃ", "Ꟃ");
  ("ꟈ", "Ꟈ");
  ("ꟊ", "Ꟊ");
  ("ꟑ", "Ꟑ");
  ("ꟗ", "Ꟗ");
  ("ꟙ", "Ꟙ");
  ("ꟶ", "Ꟶ");
  ("ꭓ", "Ꭓ");
  ("ꭰ", "Ꭰ");
  ("ꭱ", "Ꭱ");
  ("ꭲ", "Ꭲ");
  ("ꭳ", "Ꭳ");
  ("ꭴ", "Ꭴ");
  ("ꭵ", "Ꭵ");
  ("ꭶ", "Ꭶ");
  ("ꭷ", "Ꭷ");
  ("ꭸ", "Ꭸ");
  ("ꭹ", "Ꭹ");
  ("ꭺ", "Ꭺ");
  ("ꭻ", "Ꭻ");
  ("ꭼ", "Ꭼ");
  ("ꭽ", "Ꭽ");
  ("ꭾ", "Ꭾ");
  ("ꭿ", "Ꭿ");
  ("ꮀ", "Ꮀ");
  ("ꮁ", "Ꮁ");
  ("ꮂ", "Ꮂ");
  ("ꮃ", "Ꮃ");
  ("ꮄ", "Ꮄ");
  ("ꮅ", "Ꮅ");
  ("ꮆ", "Ꮆ");
  ("ꮇ", "Ꮇ");
  ("ꮈ", "Ꮈ");
  ("ꮉ", "Ꮉ");
  ("ꮊ", "Ꮊ");
  ("ꮋ", "Ꮋ");
  ("ꮌ", "Ꮌ");
  ("ꮍ", "Ꮍ");
  ("ꮎ", "Ꮎ");
  ("ꮏ", "Ꮏ");
  ("ꮐ", "Ꮐ");
  ("ꮑ", "Ꮑ");
  ("ꮒ", "Ꮒ");
  ("ꮓ", "Ꮓ");
  ("ꮔ", "Ꮔ");
  ("ꮕ", "Ꮕ");
  ("ꮖ", "Ꮖ");
  ("ꮗ", "Ꮗ");
  ("ꮘ", "Ꮘ");
  ("ꮙ", "Ꮙ");
  ("ꮚ", "Ꮚ");
  ("ꮛ", "Ꮛ");
  ("ꮜ", "Ꮜ");
  ("ꮝ", "Ꮝ");
  ("ꮞ", "Ꮞ");
  ("ꮟ", "Ꮟ");
  ("ꮠ", "Ꮠ");
  ("ꮡ", "Ꮡ");
  ("ꮢ", "Ꮢ");
  ("ꮣ", "Ꮣ");
  ("ꮤ", "Ꮤ");
  ("ꮥ", "Ꮥ");
  ("ꮦ", "Ꮦ");
  ("ꮧ", "Ꮧ");
  ("ꮨ", "Ꮨ");
  ("ꮩ", "Ꮩ");
  ("ꮪ", "Ꮪ");
  ("ꮫ", "Ꮫ");
  ("ꮬ", "Ꮬ");
  ("ꮭ", "Ꮭ");
  ("ꮮ", "Ꮮ");
  ("ꮯ", "Ꮯ");
  ("ꮰ", "Ꮰ");
  ("ꮱ", "Ꮱ");
  ("ꮲ", "Ꮲ");
  ("ꮳ", "Ꮳ");
  ("ꮴ", "Ꮴ");
  ("ꮵ", "Ꮵ");
  ("ꮶ", "Ꮶ");
  ("ꮷ", "Ꮷ");
  ("ꮸ", "Ꮸ");
  ("ꮹ", "Ꮹ");
  ("ꮺ", "Ꮺ");
  ("ꮻ", "Ꮻ");
  ("ꮼ", "Ꮼ");
  ("ꮽ", "Ꮽ");
  ("ꮾ", "Ꮾ");
  ("ꮿ", "Ꮿ");
  ("ﬀ", "FF");
  ("ﬁ", "FI");
  ("ﬂ", "FL");
  ("ﬃ", "FFI");
  ("ﬄ", "FFL");
  ("ﬅ", "ST");
  ("ﬆ", "ST");
  ("ﬓ", "ՄՆ");
  ("ﬔ", "ՄԵ");
  ("ﬕ", "ՄԻ");
  ("ﬖ", "ՎՆ");
  ("ﬗ", "ՄԽ");
  ("ａ", "Ａ");
  ("ｂ", "Ｂ");
  ("ｃ", "Ｃ");
  ("ｄ", "Ｄ");
  ("ｅ", "Ｅ");
  ("ｆ", "Ｆ");
  ("ｇ", "Ｇ");
  ("ｈ", "Ｈ");
  ("ｉ", "Ｉ");
  ("ｊ", "Ｊ");
  ("ｋ", "Ｋ");
  ("ｌ", "Ｌ");
  ("ｍ", "Ｍ");
  ("ｎ", "Ｎ");
  ("ｏ", "Ｏ");
  ("ｐ", "Ｐ");
  ("ｑ", "Ｑ");
  ("ｒ", "Ｒ");
  ("ｓ", "Ｓ");
  ("ｔ", "Ｔ");
  ("ｕ", "Ｕ");
  ("ｖ", "Ｖ");
  ("ｗ", "Ｗ");
  ("ｘ", "Ｘ");
  ("ｙ", "Ｙ");
  ("ｚ", "Ｚ");
  ("𐐨", "𐐀");
  ("𐐩", "𐐁");
  ("𐐪", "𐐂");
  ("𐐫", "𐐃");
  ("𐐬", "𐐄");
  ("𐐭", "𐐅");
  ("𐐮", "𐐆");
  ("𐐯", "𐐇");
  ("𐐰", "𐐈");
  ("𐐱", "𐐉");
  ("𐐲", "𐐊");
  ("𐐳", "𐐋");
  ("𐐴", "𐐌");
  ("𐐵", "𐐍");
  ("𐐶", "𐐎");
  ("𐐷", "𐐏");
  ("𐐸", "𐐐");
  ("𐐹", "𐐑");
  ("𐐺", "𐐒");
  ("𐐻", "𐐓");
  ("𐐼", "𐐔");
  ("𐐽", "𐐕");
  ("𐐾", "𐐖");
  ("𐐿", "𐐗");
  ("𐑀", "𐐘");
  ("𐑁", "𐐙");
  ("𐑂", "𐐚");
  ("𐑃", "𐐛");
  ("𐑄", "𐐜");
  ("𐑅", "𐐝");
  ("𐑆", "𐐞");
  ("𐑇", "𐐟");
  ("𐑈", "𐐠");
  ("𐑉", "𐐡");
  ("𐑊", "𐐢");
  ("𐑋", "𐐣");
  ("𐑌", "𐐤");
  ("𐑍", "𐐥");
  ("𐑎", "𐐦");
  ("𐑏", "𐐧");
  ("𐓘", "𐒰");
  ("𐓙", "𐒱");
  ("𐓚", "𐒲");
  ("𐓛", "𐒳");
  ("𐓜", "𐒴");
  ("𐓝", "𐒵");
  ("𐓞", "𐒶");
  ("𐓟", "𐒷");
  ("𐓠", "𐒸");
  ("𐓡", "𐒹");
  ("𐓢", "𐒺");
  ("𐓣", "𐒻");
  ("𐓤", "𐒼");
  ("𐓥", "𐒽");
  ("𐓦", "𐒾");
  ("𐓧", "𐒿");
  ("𐓨", "𐓀");
  ("𐓩", "𐓁");
  ("𐓪", "𐓂");
  ("𐓫", "𐓃");
  ("𐓬", "𐓄");
  ("𐓭", "𐓅");
  ("𐓮", "𐓆");
  ("𐓯", "𐓇");
  ("𐓰", "𐓈");
  ("𐓱", "𐓉");
  ("𐓲", "𐓊");
  ("𐓳", "𐓋");
  ("𐓴", "𐓌");
  ("𐓵", "𐓍");
  ("𐓶", "𐓎");
  ("𐓷", "𐓏");
  ("𐓸", "𐓐");
  ("𐓹", "𐓑");
  ("𐓺", "𐓒");
  ("𐓻", "𐓓");
  ("𐖗", "𐕰");
  ("𐖘", "𐕱");
  ("𐖙", "𐕲");
  ("𐖚", "𐕳");
  ("𐖛", "𐕴");
  ("𐖜", "𐕵");
  ("𐖝", "𐕶");
  ("𐖞", "𐕷");
  ("𐖟", "𐕸");
  ("𐖠", "𐕹");
  ("𐖡", "𐕺");
  ("𐖣", "𐕼");
  ("𐖤", "𐕽");
  ("𐖥", "𐕾");
  ("𐖦", "𐕿");
  ("𐖧", "𐖀");
  ("𐖨", "𐖁");
  ("𐖩", "𐖂");
  ("𐖪", "𐖃");
  ("𐖫", "𐖄");
  ("𐖬", "𐖅");
  ("𐖭", "𐖆");
  ("𐖮", "𐖇");
  ("𐖯", "𐖈");
  ("𐖰", "𐖉");
  ("𐖱", "𐖊");
  ("𐖳", "𐖌");
  ("𐖴", "𐖍");
  ("𐖵", "𐖎");
  ("𐖶", "𐖏");
  ("𐖷", "𐖐");
  ("𐖸", "𐖑");
  ("𐖹", "𐖒");
  ("𐖻", "𐖔");
  ("𐖼", "𐖕");
  ("𐳀", "𐲀");
  ("𐳁", "𐲁");
  ("𐳂", "𐲂");
  ("𐳃", "𐲃");
  ("𐳄", "𐲄");
  ("𐳅", "𐲅");
  ("𐳆", "𐲆");
  ("𐳇", "𐲇");
  ("𐳈", "𐲈");
  ("𐳉", "𐲉");
  ("𐳊", "𐲊");
  ("𐳋", "𐲋");
  ("𐳌", "𐲌");
  ("𐳍", "𐲍");
  ("𐳎", "𐲎");
  ("𐳏", "𐲏");
  ("𐳐", "𐲐");
  ("𐳑", "𐲑");
  ("𐳒", "𐲒");
  ("𐳓", "𐲓");
  ("𐳔", "𐲔");
  ("𐳕", "𐲕");
  ("𐳖", "𐲖");
  ("𐳗", "𐲗");
  ("𐳘", "𐲘");
  ("𐳙", "𐲙");
  ("𐳚", "𐲚");
  ("𐳛", "𐲛");
  ("𐳜", "𐲜");
  ("𐳝", "𐲝");
  ("𐳞", "𐲞");
  ("𐳟", "𐲟");
  ("𐳠", "𐲠");
  ("𐳡", "𐲡");
  ("𐳢", "𐲢");
  ("𐳣", "𐲣");
  ("𐳤", "𐲤");
  ("𐳥", "𐲥");
  ("𐳦", "𐲦");
  ("𐳧", "𐲧");
  ("𐳨", "𐲨");
  ("𐳩", "𐲩");
  ("𐳪", "𐲪");
  ("𐳫", "𐲫");
  ("𐳬", "𐲬");
  ("𐳭", "𐲭");
  ("𐳮", "𐲮");
  ("𐳯", "𐲯");
  ("𐳰", "𐲰");
  ("𐳱", "𐲱");
  ("𐳲", "𐲲");
  ("𑣀", "𑢠");
  ("𑣁", "𑢡");
  ("𑣂", "𑢢");
  ("𑣃", "𑢣");
  ("𑣄", "𑢤");
  ("𑣅", "𑢥");
  ("𑣆", "𑢦");
  ("𑣇", "𑢧");
  ("𑣈", "𑢨");
  ("𑣉", "𑢩");
  ("𑣊", "𑢪");
  ("𑣋", "𑢫");
  ("𑣌", "𑢬");
  ("𑣍", "𑢭");
  ("𑣎", "𑢮");
  ("𑣏", "𑢯");
  ("𑣐", "𑢰");
  ("𑣑", "𑢱");
  ("𑣒", "𑢲");
  ("𑣓", "𑢳");
  ("𑣔", "𑢴");
  ("𑣕", "𑢵");
  ("𑣖", "𑢶");
  ("𑣗", "𑢷");
  ("𑣘", "𑢸");
  ("𑣙", "𑢹");
  ("𑣚", "𑢺");
  ("𑣛", "𑢻");
  ("𑣜", "𑢼");
  ("𑣝", "𑢽");
  ("𑣞", "𑢾");
  ("𑣟", "𑢿");
  ("𖹠", "𖹀");
  ("𖹡", "𖹁");
  ("𖹢", "𖹂");
  ("𖹣", "𖹃");
  ("𖹤", "𖹄");
  ("𖹥", "𖹅");
  ("𖹦", "𖹆");
  ("𖹧", "𖹇");
  ("𖹨", "𖹈");
  ("𖹩", "𖹉");
  ("𖹪", "𖹊");
  ("𖹫", "𖹋");
  ("𖹬", "𖹌");
  ("𖹭", "𖹍");
  ("𖹮", "𖹎");
  ("𖹯", "𖹏");
  ("𖹰", "𖹐");
  ("𖹱", "𖹑");
  ("𖹲", "𖹒");
  ("𖹳", "𖹓");
  ("𖹴", "𖹔");
  ("𖹵", "𖹕");
  ("𖹶", "𖹖");
  ("𖹷", "𖹗");
  ("𖹸", "𖹘");
  ("𖹹", "𖹙");
  ("𖹺", "𖹚");
  ("𖹻", "𖹛");
  ("𖹼", "𖹜");
  ("𖹽", "𖹝");
  ("𖹾", "𖹞");
  ("𖹿", "𖹟");
  ("𞤢", "𞤀");
  ("𞤣", "𞤁");
  ("𞤤", "𞤂");
  ("𞤥", "𞤃");
  ("𞤦", "𞤄");
  ("𞤧", "𞤅");
  ("𞤨", "𞤆");
  ("𞤩", "𞤇");
  ("𞤪", "𞤈");
  ("𞤫", "𞤉");
  ("𞤬", "𞤊");
  ("𞤭", "𞤋");
  ("𞤮", "𞤌");
  ("𞤯", "𞤍");
  ("𞤰", "𞤎");
  ("𞤱", "𞤏");
  ("𞤲", "𞤐");
  ("𞤳", "𞤑");
  ("𞤴", "𞤒");
  ("𞤵", "𞤓");
  ("𞤶", "𞤔");
  ("𞤷", "𞤕");
  ("𞤸", "𞤖");
  ("𞤹", "𞤗");
  ("𞤺", "𞤘");
  ("𞤻", "𞤙");
  ("𞤼", "𞤚");
  ("𞤽", "𞤛");
  ("𞤾", "𞤜");
  ("𞤿", "𞤝");
  ("𞥀", "𞤞");
  ("𞥁", "𞤟");
  ("𞥂", "𞤠");
  ("𞥃", "𞤡")
  ].

(** [assoc k t]: the value of the first pair of [t] with key [k]. *)
Fixpoint assoc (k : string) (t : list (string * string)) : option string :=
  match t with
  | [] => None
  | (k', v) :: t' => if String.eqb k k' then Some v else assoc k t'
  end.

Definition upper_chunk (c : string) : string :=
  match c with
  | String a EmptyString => String (upper_char a) EmptyString
  | _ => default c (assoc c upper_table)
  end.

Definition upper (s : string) : string :=
  match chars s with
  | Some cs => cat (upper_chunk <$> cs)
  | None => ascii_upper s
  end.

(** Truth value of a string: [bool(s)]. *)
Definition nonempty (s : string) : bool :=
  match s with EmptyString => false | String _ _ => true end.

(** A value that is a [str] or [None]; [None] here is Python's [None]. *)
Definition truthy (v : option string) : bool :=
  match v with Some s => nonempty s | None => false end.

(** [a or b] *)
Definition or_ (a b : option string) : option string :=
  if truthy a then a else b.

(** [s or None] for a string [s] *)
Definition or_none (s : string) : option string :=
  if nonempty s then Some s else None.

(** [x if x else None] for a string-or-[None] *)
Definition if_else_none (v : option string) : option string :=
  if truthy v then v else None.

(** [v.strip()]: a method call on [None] raises [AttributeError]. *)
Definition str_strip (v : option string) : res string :=
  match v with
  | Some s => Ok (strip s)
  | None => Raise AttributeError
  end.


(** ['/' in s] *)
Fixpoint contains_char (c : ascii) (s : string) : bool :=
  match s with
  | String a s' => if decide (a = c) then true else contains_char c s'
  | EmptyString => false
  end.

End Py.
Import Py.

(** [x ← m; k] runs [m] and passes its value on, or re-raises. *)
#[global] Instance res_bind : MBind res := λ A B k m, Py.bind m k.
#[global] Instance res_ret : MRet res := @Py.Ok.
#[global] Instance res_fmap : FMap res := λ A B f m, Py.bind m (λ a, Ok (f a)).
#[global] Instance exn_eq_dec : EqDecision exn.
Proof. solve_decision. Defined.

(** The [float] built-in.  The script only converts strings to floats, tests
    floats for truth and stores them, so the development is parametric in the
    float type, in the conversion ([None] stands for [ValueError]) and in the
    truth test ([bool(x)], false exactly on zeros). *)
Class PyFloat := {
  float : Type;
  float_of_str : string → option float;
  float_truthy : float → bool
}.

(** ** [datetime.strptime(s, '%d/%m/%Y')] and [strftime('%Y-%m-%d')] *)

Module Datetime.

Record date := { year : nat; month : nat; day : nat }.

Definition in_range (lo hi : nat) (c : ascii) : bool :=
  (lo <=? nat_of_ascii c) && (nat_of_ascii c <=? hi).

(** The digits 0 to 9, and [[1-9]], [[0-1]], ... as predicates on one
    ASCII character *)
Definition is_digit : ascii → bool := in_range 48 57.
Definition digit_val (c : ascii) : nat := nat_of_ascii c - 48.

(** The decimal digits outside ASCII (category Nd) come in blocks of ten
    consecutive code points, which differ in the last byte of their
    encoding; each block is given by its zero. *)
Definition digit_zeros : list string :=
  [
    "٠"; "۰"; "߀"; "०"; "০"; "੦"; "૦"; "୦";
    "௦"; "౦"; "೦"; "൦"; "෦"; "๐"; "໐"; "༠";
    "၀"; "႐"; "០"; "᠐"; "᥆"; "᧐"; "᪀"; "᪐";
    "᭐"; "᮰"; "᱀"; "᱐"; "꘠"; "꣐"; "꤀"; "꧐";
    "꧰"; "꩐"; "꯰"; "０"; "𐒠"; "𐴰"; "𑁦"; "𑃰";
    "𑄶"; "𑇐"; "𑋰"; "𑑐"; "𑓐"; "𑙐"; "𑛀"; "𑜰";
    "𑣠"; "𑥐"; "𑱐"; "𑵐"; "𑶠"; "𖩠"; "𖫀"; "𖭐";
    "𝟎"; "𝟘"; "𝟢"; "𝟬"; "𝟶"; "𞅀"; "𞋰"; "𞥐";
    "🯰"
  ].

(** [s] starts with a digit of the block whose zero is [zero]: its value
    and the rest of [s]. *)
Fixpoint block_digit (zero s : string) : option (nat * string) :=
  match zero, s with
  | String l EmptyString, String b r =>
      if (nat_of_ascii l <=? nat_of_ascii b) && (nat_of_ascii b <=? nat_of_ascii l + 9)
      then Some (nat_of_ascii b - nat_of_ascii l, r) else None
  | String a zero', String b s' => if decide (a = b) then block_digit zero' s' else None
  | _, _ => None
  end.

(** [\d]: one decimal digit, with the number it stands for. *)
Definition digit (s : string) : list (nat * string) :=
  match s with
  | String a r =>
      if is_digit a then [(digit_val a, r)]
      else match head (omap (λ zero, block_digit zero s) digit_zeros) with
           | Some m => [m]
           | None => []
           end
  | EmptyString => []
  end.

(** One alternative of a directive's regular expression: two characters,
    or one.  The result lists the ways the alternative matches a prefix of
    [s], each with the number read and the rest of the string. *)
Definition two (p q : ascii → bool) (s : string) : list (nat * string) :=
  match s with
  | String a (String b r) =>
      if p a && q b then [(10 * digit_val a + digit_val b, r)] else []
  | _ => []
  end.

Definition one (p : ascii → bool) (s : string) : list (nat * string) :=
  match s with
  | String a r => if p a then [(digit_val a, r)] else []
  | _ => []
  end.

(** A character of the class [p] and then [\d] *)
Definition one_digit (p : ascii → bool) (s : string) : list (nat * string) :=
  '(a, r) ← one p s;
  '(b, r') ← digit r;
  [(10 * a + b, r')].

(** [\d\d] *)
Definition two_digits (s : string) : list (nat * string) :=
  '(a, r) ← digit s;
  '(b, r') ← digit r;
  [(10 * a + b, r')].

(** [%d]: [3[0-1]|[1-2]\d|0[1-9]|[1-9]| [1-9]] *)
Definition re_d (s : string) : list (nat * string) :=
  two (in_range 51 51) (in_range 48 49) s
  ++ one_digit (in_range 49 50) s
  ++ two (in_range 48 48) (in_range 49 57) s
  ++ one (in_range 49 57) s
  ++ match s with
     | String a r => if decide (a = " "%char) then one (in_range 49 57) r else []
     | _ => []
     end.

(** [%m]: [1[0-2]|0[1-9]|[1-9]] *)
Definition re_m (s : string) : list (nat * string) :=
  two (in_range 49 49) (in_range 48 50) s
  ++ two (in_range 48 48) (in_range 49 57) s
  ++ one (in_range 49 57) s.

(** [%Y]: [\d\d\d\d] *)
Definition re_Y (s : string) : list (nat * string) :=
  '(hi, r) ← two_digits s;
  '(lo, r') ← two_digits r;
  [(100 * hi + lo, r')].

(** A literal character of the format. *)
Definition lit (c : ascii) (s : string) : list string :=
  match s with
  | String a r => if decide (a = c) then [r] else []
  | _ => []
  end.

(** The matches of the whole format, in the order a backtracking matcher
    finds them. *)
Definition re_format (s : string) : list (nat * nat * nat * string) :=
  '(d, r1) ← re_d s;
  r2 ← lit "/" r1;
  '(m, r3) ← re_m r2;
  r4 ← lit "/" r3;
  '(y, r5) ← re_Y r4;
  [(d, m, y, r5)].

Definition is_leap (y : nat) : bool :=
  (y mod 4 =? 0) && (negb (y mod 100 =? 0) || (y mod 400 =? 0)).

Definition days_in_month (y m : nat) : nat :=
  match m with
  | 2 => if is_leap y then 29 else 28
  | 4 | 6 | 9 | 11 => 30
  | _ => 31
  end.

(** The range check of the [date] constructor. *)
Definition valid (y m d : nat) : bool :=
  (1 <=? y) && (y <=? 9999) && (1 <=? m) && (m <=? 12)
  && (1 <=? d) && (d <=? days_in_month y m).

(** [strptime]: no match, unconverted data after the match and a day out
    of range for the month are each a [ValueError]. *)
Definition strptime (s : string) : res date :=
  match re_format s with
  | [] => Raise ValueError
  | (d, m, y, rest) :: _ =>
      if nonempty rest then Raise ValueError
      else if valid y m d then Ok {| year := y; month := m; day := d |}
      else Raise ValueError
  end.

Definition digit_char (n : nat) : ascii := ascii_of_nat (48 + n mod 10).

Definition pad2 (n : nat) : string :=
  String (digit_char (n / 10)) (String (digit_char n) EmptyString).

(** The four digits [%Y] reads in [strptime]. *)
Definition pad4 (n : nat) : string := pad2 (n / 100) +:+ pad2 (n mod 100).

(** [%Y] in [strftime] is left to the C library.  From 1000 on the year has
    its four digits; below 1000 glibc, the library of CPython on Linux,
    writes the year without padding: year 999 is written [999]. *)
Definition year_str (n : nat) : string :=
  if n <? 10 then String (digit_char n) EmptyString
  else if n <? 100 then pad2 n
  else if n <? 1000 then String (digit_char (n / 100)) (pad2 (n mod 100))
  else pad4 n.

(** [strftime('%Y-%m-%d')] *)
Definition strftime (t : date) : string :=
  year_str (year t) +:+ "-" +:+ pad2 (month t) +:+ "-" +:+ pad2 (day t).

End Datetime.

(** ** The five collections *)

(** A row of [csv.DictReader]: a dict from column names to cells.  A column
    the header lacks is a missing key; a row shorter than the header has
    [None] cells. *)
Abbreviation Row := (gmap string (option string)).

(** [row.get(k, default)] *)
Definition get (row : Row) (k : string) (default : option string) : option string :=
  match row !! k with
  | Some v => v
  | None => default
  end.

(** The column names of the export.  The first header name may carry a byte
    order mark (U+FEFF, bytes EF BB BF in UTF-8). *)
Module Col.
Definition bom : string :=
  String (ascii_of_nat 239) (String (ascii_of_nat 187) (String (ascii_of_nat 191) EmptyString)).
Definition organisation_id := "Organisation: Organisation ID".
Definition organisation_name := "Organisation: Organisation Name".
Definition billing_street := "Organisation: Billing Street".
Definition billing_city := "Organisation: Billing City".
Definition billing_state := "Organisation: Billing State/Province".
Definition billing_zip := "Organisation: Billing Zip/Postal Code".
Definition formatted_address := "Formatted_Address".
Definition latitude := "Latitude".
Definition longitude := "Longitude".
Definition item_id := "Item ID".
Definition item_name := "Item Name".
Definition detailed_item_id := "Detailed Item ID  ↓".
Definition detailed_item_id_bom := bom +:+ detailed_item_id.
Definition detailed_item_name := "Detailed Item Name".
Definition sector_mapping_id := "Sector Mapping ID".
Definition sector_name := "Sector Name".
Definition organisation_capability := "Organisation Capability".
Definition capability_type := "Capability Type".
Definition validation_date := "Validation Date".
End Col.

Module DetailedItem.
Record t := { detailedItemName : string; itemId : option string }.
End DetailedItem.

Module Organisation.
Record t `{PyFloat} := {
  organisationId : string;
  organisationName : option string;
  billingStreet : option string;
  billingCity : option string;
  billingStateProvince : option string;
  billingZipPostalCode : option string;
  formattedAddress : option string;
  latitude : option float;
  longitude : option float
}.
End Organisation.

Module Capability.
Record t := {
  organisationCapability : string;
  organisationId : string;
  itemId : option string;
  detailedItemId : option string;
  capabilityType : option string;
  validationDate : option string;
  sectorMappingId : option string
}.
End Capability.

(** The sentinel of a subtotal row in the grouped detailed-item column. *)
Definition Subtotal : string := "Subtotal".

Section Normalizer.
Context `{PyFloat}.

(** The fields of a [DataNormalizer] and the two locals of [process_csv]
    that live across iterations. *)
Record State := {
  items : gmap string string;
  detailed_items : gmap string DetailedItem.t;
  sectors : gmap string string;
  organisations : gmap string Organisation.t;
  capabilities : list Capability.t;
  current_detailed_item_id : option string;
  current_sector_mapping_id : option string
}.

(** [__init__], and the locals as [process_csv] sets them before the loop. *)
Definition init : State :=
  {| items := ∅; detailed_items := ∅; sectors := ∅; organisations := ∅;
     capabilities := []; current_detailed_item_id := None;
     current_sector_mapping_id := None |}.

(** [row.get(col, '').strip()] *)
Definition cell (row : Row) (col : string) : res string :=
  str_strip (get row col (Some "")).

(** [row.get(col, '').strip() or None] *)
Definition cell_or_none (row : Row) (col : string) : res (option string) :=
  s ← cell row col; mret (or_none s).

(** Line 35: [not row.get(ID) or row.get(ID).strip() == ''].  The right
    operand is evaluated only when the cell is a non-empty string. *)
Definition skip (row : Row) : bool :=
  match get row Col.organisation_id None with
  | Some s => negb (nonempty s) || bool_decide (strip s = "")
  | None => true
  end.

(** Lines 41-42 *)
Definition store_item (items : gmap string string) (item_id item_name : string)
  : gmap string string :=
  if nonempty item_id && nonempty item_name then <[item_id := item_name]> items
  else items.

(** Line 50: the cell opens a group. *)
Definition opens_group (detailed_item_id_raw : string) : bool :=
  nonempty detailed_item_id_raw && negb (bool_decide (detailed_item_id_raw = Subtotal)).

(** Lines 50-51 *)
Definition next_detailed_item_id (current : option string) (detailed_item_id_raw : string)
  : option string :=
  if opens_group detailed_item_id_raw then Some detailed_item_id_raw else current.

(** Lines 50-57 *)
Definition store_detailed_item (detailed_items : gmap string DetailedItem.t)
    (detailed_item_id_raw detailed_item_name item_id : string)
  : gmap string DetailedItem.t :=
  if opens_group detailed_item_id_raw && nonempty detailed_item_name
  then <[detailed_item_id_raw :=
           {| DetailedItem.detailedItemName := detailed_item_name;
              DetailedItem.itemId := or_none item_id |}]> detailed_items
  else detailed_items.

(** Lines 67-72: the value of [sector_mapping_id], which is also the new
    value of [current_sector_mapping_id]. *)
Definition next_sector_mapping_id (current : option string) (sector_mapping_id_raw : string)
  : option string :=
  if nonempty sector_mapping_id_raw then Some sector_mapping_id_raw else current.

(** Lines 75-76 *)
Definition store_sector (sectors : gmap string string)
    (sector_mapping_id : option string) (sector_name : string) : gmap string string :=
  match sector_mapping_id with
  | Some id => if nonempty id && nonempty sector_name then <[id := sector_name]> sectors
               else sectors
  | None => sectors
  end.

(** Lines 84-94, from the stripped cell on. *)
Definition parse_validation_date (date_str : string) : res (option string) :=
  if nonempty date_str then
    try_except
      (if contains_char "/" date_str
       then t ← Datetime.strptime date_str; mret (Some (Datetime.strftime t))
       else mret (Some date_str))
      (λ e, bool_decide (e = ValueError))
      (mret None)
  else mret None.

(** [float(s)]: [None] of the class is a [ValueError]. *)
Definition to_float (s : string) : res float :=
  match float_of_str s with
  | Some x => Ok x
  | None => Raise ValueError
  end.

(** Lines 97-107.  The two reads are inside the [try], but an
    [AttributeError] is not among the handled exceptions.  When the first
    conversion raises, the second assignment is never reached; when the
    second raises, [latitude] keeps what the first assigned. *)
Definition parse_coordinates (row : Row) : res (option float * option float) :=
  lat_str ← cell row Col.latitude;
  lon_str ← cell row Col.longitude;
  match (if nonempty lat_str then Some <$> to_float lat_str else Ok None) with
  | Raise e =>
      if bool_decide (e = ValueError) || bool_decide (e = TypeError)
      then mret (None, None) else Raise e
  | Ok latitude =>
      match (if nonempty lon_str then Some <$> to_float lon_str else Ok None) with
      | Raise e =>
          if bool_decide (e = ValueError) || bool_decide (e = TypeError)
          then mret (latitude, None) else Raise e
      | Ok longitude => mret (latitude, longitude)
      end
  end.

(** [if not existing[f]: existing[f] = row.get(col, '').strip() or None].
    The cell is read only when the stored value is falsy. *)
Definition fill (existing : option string) (row : Row) (col : string)
  : res (option string) :=
  if truthy existing then mret existing else cell_or_none row col.

(** Truth value of a float-or-[None]. *)
Definition float_or_none_truthy (v : option float) : bool :=
  match v with Some x => float_truthy x | None => false end.

(** [if not existing[f] and v: existing[f] = v] *)
Definition fill_float (existing v : option float) : option float :=
  if negb (float_or_none_truthy existing) && float_or_none_truthy v then v
  else existing.

(** Lines 112-122: the record of an organisation seen for the first time. *)
Definition new_organisation (organisation_id : string) (row : Row)
    (latitude longitude : option float) : res Organisation.t :=
  name ← cell_or_none row Col.organisation_name;
  street ← cell_or_none row Col.billing_street;
  city ← cell_or_none row Col.billing_city;
  state ← cell_or_none row Col.billing_state;
  zip ← cell_or_none row Col.billing_zip;
  address ← cell_or_none row Col.formatted_address;
  mret {| Organisation.organisationId := organisation_id;
          Organisation.organisationName := name;
          Organisation.billingStreet := street;
          Organisation.billingCity := city;
          Organisation.billingStateProvince := state;
          Organisation.billingZipPostalCode := zip;
          Organisation.formattedAddress := address;
          Organisation.latitude := latitude;
          Organisation.longitude := longitude |}.

(** Lines 126-144: the stored record after the row has filled what was
    missing. *)
Definition update_organisation (existing : Organisation.t) (row : Row)
    (latitude longitude : option float) : res Organisation.t :=
  name ← fill (Organisation.organisationName existing) row Col.organisation_name;
  street ← fill (Organisation.billingStreet existing) row Col.billing_street;
  city ← fill (Organisation.billingCity existing) row Col.billing_city;
  state ← fill (Organisation.billingStateProvince existing) row Col.billing_state;
  zip ← fill (Organisation.billingZipPostalCode existing) row Col.billing_zip;
  address ← fill (Organisation.formattedAddress existing) row Col.formatted_address;
  mret {| Organisation.organisationId := Organisation.organisationId existing;
          Organisation.organisationName := name;
          Organisation.billingStreet := street;
          Organisation.billingCity := city;
          Organisation.billingStateProvince := state;
          Organisation.billingZipPostalCode := zip;
          Organisation.formattedAddress := address;
          Organisation.latitude := fill_float (Organisation.latitude existing) latitude;
          Organisation.longitude := fill_float (Organisation.longitude existing) longitude |}.

(** Lines 110-144.  The stored dict is mutated in place, so the map holds
    the updated record under the same key. *)
Definition store_organisation (organisations : gmap string Organisation.t)
    (organisation_id : string) (row : Row) (latitude longitude : option float)
  : res (gmap string Organisation.t) :=
  match organisations !! organisation_id with
  | None =>
      organisation ← new_organisation organisation_id row latitude longitude;
      mret (<[organisation_id := organisation]> organisations)
  | Some existing =>
      organisation ← update_organisation existing row latitude longitude;
      mret (<[organisation_id := organisation]> organisations)
  end.

(** Lines 147-158 *)
Definition store_capability (capabilities : list Capability.t) (row : Row)
    (organisation_id item_id : string)
    (detailed_item_id validation_date sector_mapping_id : option string)
  : res (list Capability.t) :=
  organisation_capability ← cell row Col.organisation_capability;
  if nonempty organisation_capability then
    capability_type ← cell_or_none row Col.capability_type;
    mret (capabilities ++
          [ {| Capability.organisationCapability := organisation_capability;
               Capability.organisationId := organisation_id;
               Capability.itemId := or_none item_id;
               Capability.detailedItemId := if_else_none detailed_item_id;
               Capability.capabilityType := capability_type;
               Capability.validationDate := validation_date;
               Capability.sectorMappingId := if_else_none sector_mapping_id |} ])%list
  else mret capabilities.

(** The body of the loop of [process_csv], lines 34-158. *)
Definition process_row (st : State) (row : Row) : res State :=
  if skip row then mret st else
  item_id ← cell row Col.item_id;
  item_name ← cell row Col.item_name;
  let items := store_item (items st) item_id item_name in
  detailed_item_id_raw ←
    str_strip (or_ (get row Col.detailed_item_id_bom (Some ""))
                   (get row Col.detailed_item_id (Some "")));
  detailed_item_name ← cell row Col.detailed_item_name;
  let current_detailed_item_id :=
    next_detailed_item_id (current_detailed_item_id st) detailed_item_id_raw in
  let detailed_items :=
    store_detailed_item (detailed_items st) detailed_item_id_raw detailed_item_name item_id in
  let detailed_item_id := current_detailed_item_id in
  sector_mapping_id_raw ← cell row Col.sector_mapping_id;
  sector_name ← cell row Col.sector_name;
  let sector_mapping_id :=
    next_sector_mapping_id (current_sector_mapping_id st) sector_mapping_id_raw in
  let current_sector_mapping_id := sector_mapping_id in
  let sectors := store_sector (sectors st) sector_mapping_id sector_name in
  organisation_id_raw ← cell row Col.organisation_id;
  let organisation_id :=
    if nonempty organisation_id_raw then upper organisation_id_raw else "" in
  if nonempty organisation_id then
    date_str ← cell row Col.validation_date;
    validation_date ← parse_validation_date date_str;
    '(latitude, longitude) ← parse_coordinates row;
    organisations ← store_organisation (organisations st) organisation_id row latitude longitude;
    capabilities ← store_capability (capabilities st) row organisation_id item_id
                     detailed_item_id validation_date sector_mapping_id;
    mret {| items := items; detailed_items := detailed_items; sectors := sectors;
            organisations := organisations; capabilities := capabilities;
            current_detailed_item_id := current_detailed_item_id;
            current_sector_mapping_id := current_sector_mapping_id |}
  else
    mret {| items := items; detailed_items := detailed_items; sectors := sectors;
            organisations := organisations st; capabilities := capabilities st;
            current_detailed_item_id := current_detailed_item_id;
            current_sector_mapping_id := current_sector_mapping_id |}.

(** The loop over the rows the reader yields; an exception ends the pass. *)
Fixpoint process_rows (st : State) (rows : list Row) : res State :=
  match rows with
  | [] => mret st
  | row :: rows' => st' ← process_row st row; process_rows st' rows'
  end.

(** [process_csv] on a fresh [DataNormalizer]. *)
Definition process_csv (rows : list Row) : res State := process_rows init rows.

(** The rows come from a [csv.DictReader], an iterator over the open file:
    reading the next row can itself raise (a [_csv.Error] for a field larger
    than the field size limit, a [UnicodeDecodeError] for bytes that are not
    UTF-8).  A reader is given by the rows it yields and by the exception,
    if any, that it raises where a further row or the end was due; [E] is
    the type of these exceptions. *)
Record Reader (E : Type) := { yielded : list Row; failure : option E }.

(** How the [for] statement of line 33 ends. *)
Inductive outcome (E : Type) :=
| Completed (st : State)
| BodyRaised (e : exn)
| ReaderRaised (e : E).

(** The [for] statement of line 33: the body runs on each row as it is
    yielded, and an exception of the body or of the reader ends the loop. *)
Fixpoint for_rows {E} (st : State) (rows : list Row) (failure : option E) : outcome E :=
  match rows with
  | [] =>
      match failure with
      | None => Completed E st
      | Some e => ReaderRaised E e
      end
  | row :: rows' =>
      match process_row st row with
      | Ok st' => for_rows st' rows' failure
      | Raise e => BodyRaised E e
      end
  end.

Definition read_csv {E} (st : State) (reader : Reader E) : outcome E :=
  for_rows st (yielded E reader) (failure E reader).

End Normalizer.

Arguments State {_}.
Arguments init {_}.
Arguments yielded {E} _.
Arguments failure {E} _.
Arguments Completed {_ E} st.
Arguments BodyRaised {_ E} e.
Arguments ReaderRaised {_ E} e.

(** ** A float instance for plain decimal literals

    The examples need floats that compute.  This instance reads an optional
    sign, digits and an optional fraction, and keeps the exact value as a
    reduced rational; [bool(x)] is false on zero.  On such literals it agrees
    with [float] on success and on the truth value.  Other spellings [float]
    accepts (exponents, [inf], [nan], underscores) are outside it, and no
    example uses them. *)
Module DecimalFloat.

Fixpoint read_digits (s : string) (acc : Z) (n : nat) : Z * nat * string :=
  match s with
  | String c r =>
      if Datetime.is_digit c
      then read_digits r (10 * acc + Z.of_nat (Datetime.digit_val c))%Z (S n)
      else (acc, n, s)
  | EmptyString => (acc, n, s)
  end.

Definition read_sign (s : string) : bool * string :=
  match s with
  | String c r =>
      if decide (c = "-"%char) then (true, r)
      else if decide (c = "+"%char) then (false, r)
      else (false, s)
  | EmptyString => (false, s)
  end.

Definition of_str (s : string) : option Q :=
  let '(negative, s1) := read_sign s in
  let '(int_part, int_len, s2) := read_digits s1 0%Z 0 in
  let '(frac_part, frac_len, s3) :=
    match s2 with
    | String c r => if decide (c = "."%char) then read_digits r 0%Z 0 else (0%Z, 0, s2)
    | EmptyString => (0%Z, 0, s2)
    end in
  if (0 <? int_len + frac_len) && bool_decide (s3 = "") then
    let scale := (10 ^ Z.of_nat frac_len)%Z in
    let magnitude := (int_part * scale + frac_part)%Z in
    Some (Qred (Qmake (if negative then - magnitude else magnitude)%Z (Z.to_pos scale)))
  else None.

Definition truthy (x : Q) : bool := negb (Qnum x =? 0)%Z.

#[global] Instance instance : PyFloat :=
  {| float := Q; float_of_str := of_str; float_truthy := truthy |}.

End DecimalFloat.

(** ** What the loop body reads from a row

    The values of the locals of one iteration, as functions of the row.  A
    read that raises has no value; these functions give [""] or [None]
    there, and are only used on rows the body has processed. *)
Section Reads.
Context `{PyFloat}.

Definition field (row : Row) (col : string) : string :=
  match cell row col with Ok s => s | Raise _ => "" end.

(** [detailed_item_id_raw] *)
Definition detailed_raw (row : Row) : string :=
  match str_strip (or_ (get row Col.detailed_item_id_bom (Some ""))
                       (get row Col.detailed_item_id (Some ""))) with
  | Ok s => s
  | Raise _ => ""
  end.

(** [organisation_id] *)
Definition organisation_key (row : Row) : string :=
  upper (field row Col.organisation_id).

(** [(latitude, longitude)] *)
Definition coordinates (row : Row) : option float * option float :=
  match parse_coordinates row with Ok p => p | Raise _ => (None, None) end.

(** [validation_date] *)
Definition validation_date (row : Row) : option string :=
  match parse_validation_date (field row Col.validation_date) with
  | Ok v => v
  | Raise _ => None
  end.

(** The record line 112 builds from a row. *)
Definition contribution (row : Row) : Organisation.t :=
  {| Organisation.organisationId := organisation_key row;
     Organisation.organisationName := or_none (field row Col.organisation_name);
     Organisation.billingStreet := or_none (field row Col.billing_street);
     Organisation.billingCity := or_none (field row Col.billing_city);
     Organisation.billingStateProvince := or_none (field row Col.billing_state);
     Organisation.billingZipPostalCode := or_none (field row Col.billing_zip);
     Organisation.formattedAddress := or_none (field row Col.formatted_address);
     Organisation.latitude := (coordinates row).1;
     Organisation.longitude := (coordinates row).2 |}.

End Reads.

(** The fillable fields of an organisation, by kind. *)
Inductive text_field := Name | Street | City | StateProvince | ZipPostalCode | FormattedAddress.
Inductive coord_field := Latitude | Longitude.

Definition text_get `{PyFloat} (f : text_field) (o : Organisation.t) : option string :=
  match f with
  | Name => Organisation.organisationName o
  | Street => Organisation.billingStreet o
  | City => Organisation.billingCity o
  | StateProvince => Organisation.billingStateProvince o
  | ZipPostalCode => Organisation.billingZipPostalCode o
  | FormattedAddress => Organisation.formattedAddress o
  end.

Definition text_col (f : text_field) : string :=
  match f with
  | Name => Col.organisation_name
  | Street => Col.billing_street
  | City => Col.billing_city
  | StateProvince => Col.billing_state
  | ZipPostalCode => Col.billing_zip
  | FormattedAddress => Col.formatted_address
  end.

Definition coord_get `{PyFloat} (c : coord_field) (o : Organisation.t) : option float :=
  match c with
  | Latitude => Organisation.latitude o
  | Longitude => Organisation.longitude o
  end.

Definition coord_col (c : coord_field) : string :=
  match c with
  | Latitude => Col.latitude
  | Longitude => Col.longitude
  end.


(** Lines 126-144 as a function of the stored record and of what the row
    contributes. *)
Definition merge `{PyFloat} (existing c : Organisation.t) : Organisation.t :=
  {| Organisation.organisationId := Organisation.organisationId existing;
     Organisation.organisationName :=
       or_ (Organisation.organisationName existing) (Organisation.organisationName c);
     Organisation.billingStreet :=
       or_ (Organisation.billingStreet existing) (Organisation.billingStreet c);
     Organisation.billingCity :=
       or_ (Organisation.billingCity existing) (Organisation.billingCity c);
     Organisation.billingStateProvince :=
       or_ (Organisation.billingStateProvince existing) (Organisation.billingStateProvince c);
     Organisation.billingZipPostalCode :=
       or_ (Organisation.billingZipPostalCode existing) (Organisation.billingZipPostalCode c);
     Organisation.formattedAddress :=
       or_ (Organisation.formattedAddress existing) (Organisation.formattedAddress c);
     Organisation.latitude :=
       fill_float (Organisation.latitude existing) (Organisation.latitude c);
     Organisation.longitude :=
       fill_float (Organisation.longitude existing) (Organisation.longitude c) |}.

(** ** Rows used in the examples *)

Module Example.

(** The header of the export; the first name carries the byte order mark. *)
Definition header : list string :=
  [ Col.detailed_item_id_bom; Col.detailed_item_name; Col.item_id; Col.item_name;
    Col.sector_mapping_id; Col.sector_name; Col.organisation_id; Col.organisation_name;
    Col.organisation_capability; Col.capability_type; Col.validation_date;
    Col.billing_street; Col.billing_city; Col.billing_state; Col.billing_zip;
    Col.formatted_address; Col.latitude; Col.longitude ].

(** A full-width row of that header: every cell is a string, empty unless
    listed. *)
Definition row (cells : list (string * string)) : Row :=
  list_to_map (prod_map id Some <$> cells) ∪ list_to_map ((λ col, (col, Some "")) <$> header).

Definition acme_lat0 : Row :=
  row [(Col.organisation_id, "ACME"); (Col.latitude, "0")].
Definition acme_lat5 : Row :=
  row [(Col.organisation_id, "acme"); (Col.latitude, "5")].
Definition acme_plain : Row :=
  row [(Col.organisation_id, "ACME")].
Definition acme_named : Row :=
  row [(Col.organisation_id, "Acme"); (Col.organisation_name, "Acme Pty Ltd")].
Definition acme_street : Row :=
  row [(Col.organisation_id, "ACME"); (Col.billing_street, "1 Main St");
       (Col.latitude, "-37.81"); (Col.longitude, "144.96")].

Definition bad_latitude : Row :=
  row [(Col.organisation_id, "ACME"); (Col.latitude, "n/a"); (Col.longitude, "144.96")].

Definition widget : Row :=
  row [(Col.organisation_id, "ACME"); (Col.item_id, "I1"); (Col.item_name, "Widget");
       (Col.sector_mapping_id, "S1"); (Col.sector_name, "Mining")].
Definition gadget : Row :=
  row [(Col.organisation_id, "ACME"); (Col.item_id, "I1"); (Col.item_name, "Gadget");
       (Col.sector_mapping_id, "S1"); (Col.sector_name, "Defence")].

Definition group_a : Row :=
  row [(Col.organisation_id, "ACME"); (Col.detailed_item_id_bom, "A");
       (Col.detailed_item_name, "Foo"); (Col.item_id, "I1"); (Col.item_name, "Widget");
       (Col.sector_mapping_id, "A"); (Col.sector_name, "Mining");
       (Col.organisation_capability, "Supplier")].
Definition group_b : Row :=
  row [(Col.organisation_id, "ACME"); (Col.detailed_item_id_bom, "B");
       (Col.detailed_item_name, "Bar");
       (Col.sector_mapping_id, "B"); (Col.sector_name, "Defence");
       (Col.organisation_capability, "Supplier")].
Definition blank : Row :=
  row [(Col.organisation_id, "ACME"); (Col.organisation_capability, "Supplier")].
Definition group_a_again : Row :=
  row [(Col.organisation_id, "ACME"); (Col.detailed_item_id_bom, "A");
       (Col.detailed_item_name, "Foo renamed"); (Col.item_id, "I2")].

Definition subtotal : Row :=
  row [(Col.organisation_id, "ACME"); (Col.detailed_item_id_bom, "Subtotal");
       (Col.sector_mapping_id, "B"); (Col.organisation_capability, "Total")].
Definition sector_subtotal : Row :=
  row [(Col.organisation_id, "ACME"); (Col.sector_mapping_id, "Subtotal")].

Definition unnamed_item : Row :=
  row [(Col.organisation_id, "ACME"); (Col.item_id, "I9");
       (Col.organisation_capability, "Supplier")].
Definition unnamed_group : Row :=
  row [(Col.organisation_id, "ACME"); (Col.detailed_item_id_bom, "D9");
       (Col.organisation_capability, "Supplier")].
Definition unnamed_sector : Row :=
  row [(Col.organisation_id, "ACME"); (Col.sector_mapping_id, "S9");
       (Col.organisation_capability, "Supplier")].

End Example.

(** ** Definitions the statements use *)

(** The record lines 149-157 build for a row, given the two resolved
    identifiers. *)
Definition capability_of (row : Row) (detailed_item_id sector_mapping_id : option string)
  : Capability.t :=
  {| Capability.organisationCapability := field row Col.organisation_capability;
     Capability.organisationId := organisation_key row;
     Capability.itemId := or_none (field row Col.item_id);
     Capability.detailedItemId := if_else_none detailed_item_id;
     Capability.capabilityType := or_none (field row Col.capability_type);
     Capability.validationDate := validation_date row;
     Capability.sectorMappingId := if_else_none sector_mapping_id |}.

(** The name a row writes into [items] under key [k], if it writes one. *)
Definition item_write (k : string) (row : Row) : option string :=
  if skip row then None
  else if bool_decide (field row Col.item_id = k)
          && nonempty (field row Col.item_id) && nonempty (field row Col.item_name)
  then Some (field row Col.item_name)
  else None.

(** The writes into [sectors], in row order: each processed row with a
    non-blank sector name writes it under its resolved sector id. *)
Fixpoint sector_writes (current : option string) (rows : list Row) : list (string * string) :=
  match rows with
  | [] => []
  | row :: rows' =>
      if skip row then sector_writes current rows'
      else
        let id := next_sector_mapping_id current (field row Col.sector_mapping_id) in
        match id with
        | Some i =>
            if nonempty i && nonempty (field row Col.sector_name)
            then (i, field row Col.sector_name) :: sector_writes id rows'
            else sector_writes id rows'
        | None => sector_writes id rows'
        end
  end.

Definition write_to (k : string) (w : string * string) : option string :=
  if bool_decide (w.1 = k) then Some w.2 else None.

(** The group a processed row opens in the detailed-item column: its cell,
    when that is neither blank nor the sentinel. *)
Definition detailed_group (row : Row) : option string :=
  if skip row then None
  else if opens_group (detailed_raw row) then Some (detailed_raw row) else None.

(** The group a processed row opens in the sector column: its cell, when
    that is not blank. *)
Definition sector_group (row : Row) : option string :=
  if skip row then None
  else or_none (field row Col.sector_mapping_id).

(** The same with the sentinel excluded, as for the detailed-item column. *)
Definition sector_group_no_sentinel (row : Row) : option string :=
  if skip row then None
  else if opens_group (field row Col.sector_mapping_id)
  then Some (field row Col.sector_mapping_id) else None.

(** A processed row that carries an item id (opens a detailed-item group,
    carries a sector id) also carries the name that goes with it. *)
Definition item_named (row : Row) : bool :=
  skip row || negb (nonempty (field row Col.item_id)) || nonempty (field row Col.item_name).

Definition detailed_named (row : Row) : bool :=
  skip row || negb (opens_group (detailed_raw row))
  || nonempty (field row Col.detailed_item_name).

Definition sector_named (row : Row) : bool :=
  skip row || negb (nonempty (field row Col.sector_mapping_id))
  || nonempty (field row Col.sector_name).

(** Letter case, said without [upper]: a lower-case letter is one of a to
    z, and two characters are the same letter when they are equal or are the
    two cases of one of these letters. *)
Definition is_lower (c : ascii) : bool :=
  (97 <=? nat_of_ascii c) && (nat_of_ascii c <=? 122).



(** A string without a lower-case letter. *)
Fixpoint no_lower_case (s : string) : bool :=
  match s with
  | String c s' => negb (is_lower c) && no_lower_case s'
  | EmptyString => true
  end.

(** The encoding of one character. *)
Definition is_char (c : string) : bool :=
  match c with
  | String a EmptyString => nat_of_ascii a <? 128
  | String a (String b EmptyString) =>
      (192 <=? nat_of_ascii a) && (nat_of_ascii a <? 224) && is_cont b
  | String a (String b (String c EmptyString)) =>
      (224 <=? nat_of_ascii a) && (nat_of_ascii a <? 240) && is_cont b && is_cont c
  | String a (String b (String c (String d EmptyString))) =>
      (240 <=? nat_of_ascii a) && is_cont b && is_cont c && is_cont d
  | _ => false
  end.

(** Every byte is 0x80 or more. *)
Fixpoint high (s : string) : bool :=
  match s with
  | String a s' => (128 <=? nat_of_ascii a) && high s'
  | EmptyString => true
  end.

(** What the upper-case table is checked for: a value is not empty, has no
    lower-case letter, and is made of characters that [upper_chunk] leaves as
    they are. *)
Definition fixed (c : string) : bool := String.eqb (upper_chunk c) c.

Definition value_ok (v : string) : bool :=
  nonempty v && no_lower_case v
  && match chars v with Some vs => forallb fixed vs | None => false end.

(** Every text field of the record is absent or a non-empty string. *)
Definition text_nonempty `{PyFloat} (o : Organisation.t) : Prop :=
  ∀ f v, text_get f o = Some v → nonempty v = true.

(** What is populated in [o] is the same in [o']: the key, every text field
    that holds a value, and every coordinate that holds a value [bool] takes
    for true. *)
Definition populated_kept `{PyFloat} (o o' : Organisation.t) : Prop :=
  Organisation.organisationId o' = Organisation.organisationId o ∧
  (∀ f v, text_get f o = Some v → text_get f o' = Some v) ∧
  (∀ c x, coord_get c o = Some x → float_truthy x = true → coord_get c o' = Some x).

(** Every coordinate of the record is absent or a float [bool] takes for
    true. *)
Definition coord_truthy `{PyFloat} (o : Organisation.t) : Prop :=
  ∀ c x, coord_get c o = Some x → float_truthy x = true.

(** The row is processed and its normalized organisation id is [k]. *)
Definition contributes `{PyFloat} (k : string) (row : Row) : bool :=
  negb (skip row) && bool_decide (organisation_key row = k).

(** The row supplies the column: its cell is not blank. *)
Definition supplies (col : string) (row : Row) : bool := nonempty (field row col).

(** At most one of the rows supplies the column. *)
Definition single_source (col : string) (rows : list Row) : Prop :=
  length (filter (supplies col) rows) ≤ 1.

(** The first of two optional values that is present. *)
Definition first_of {A} (a b : option A) : option A :=
  match a with Some _ => a | None => b end.

(** The stored record of an organisation after one more of its rows. *)
Definition absorb `{PyFloat} (stored : option Organisation.t) (row : Row)
  : option Organisation.t :=
  Some match stored with
       | None => contribution row
       | Some existing => merge existing (contribution row)
       end.

(** ** Properties of a state that every iteration preserves *)

Section Invariants.
Context `{PyFloat}.


Definition capabilities_have_organisation (st : State) : Prop :=
  ∀ c, c ∈ capabilities st → is_Some (organisations st !! Capability.organisationId c).

Definition capabilities_have_item (st : State) : Prop :=
  ∀ c i, c ∈ capabilities st → Capability.itemId c = Some i → is_Some (items st !! i).

Definition capabilities_have_detailed_item (st : State) : Prop :=
  (∀ c d, c ∈ capabilities st → Capability.detailedItemId c = Some d →
          is_Some (detailed_items st !! d)) ∧
  (∀ d, current_detailed_item_id st = Some d → is_Some (detailed_items st !! d)).

Definition capabilities_have_sector (st : State) : Prop :=
  (∀ c s, c ∈ capabilities st → Capability.sectorMappingId c = Some s →
          is_Some (sectors st !! s)) ∧
  (∀ s, current_sector_mapping_id st = Some s → is_Some (sectors st !! s)).

Definition organisations_text_nonempty (st : State) : Prop :=
  ∀ k o, organisations st !! k = Some o → text_nonempty o.

End Invariants.

(** ** Further notions about rows and dates *)

(** No cell of the row is [None]: the row is not shorter than the header. *)
Definition full_width (row : Row) : Prop := ∀ col, row !! col ≠ Some None.

(** The columns every iteration reads on a processed row, whatever the
    state.  (The organisation's text columns and the capability type are read
    only when a field is still to fill or a label is present.) *)
Definition always_read : list string :=
  [ Col.item_id; Col.item_name; Col.detailed_item_name; Col.sector_mapping_id;
    Col.sector_name; Col.validation_date; Col.latitude; Col.longitude;
    Col.organisation_capability ].

(** A row of organisation ACME that stops before its item columns. *)
Definition short_row : Row :=
  <[Col.item_id := None]> (<[Col.item_name := None]>
    (Example.row [(Col.organisation_id, "ACME")])).

(** The row is processed and carries a capability label. *)
Definition labelled (row : Row) : bool :=
  negb (skip row) && nonempty (field row Col.organisation_capability).

(** The fields of a Capability that come from the row alone. *)
Definition own_fields (c : Capability.t)
  : string * string * option string * option string * option string :=
  (Capability.organisationCapability c, Capability.organisationId c, Capability.itemId c,
   Capability.capabilityType c, Capability.validationDate c).

Definition row_fields (row : Row)
  : string * string * option string * option string * option string :=
  (field row Col.organisation_capability, organisation_key row,
   or_none (field row Col.item_id), or_none (field row Col.capability_type),
   validation_date row).

(** Ten characters: four digits, a dash, two digits, a dash, two digits. *)
Definition iso_shape (v : string) : bool :=
  match v with
  | String y1 (String y2 (String y3 (String y4 (String h1
      (String m1 (String m2 (String h2 (String d1 (String d2 EmptyString))))))))) =>
      Datetime.is_digit y1 && Datetime.is_digit y2 && Datetime.is_digit y3
      && Datetime.is_digit y4 && bool_decide (h1 = "-"%char)
      && Datetime.is_digit m1 && Datetime.is_digit m2 && bool_decide (h2 = "-"%char)
      && Datetime.is_digit d1 && Datetime.is_digit d2
  | _ => false
  end.

(** A dash, two digits, a dash and two digits. *)
Definition month_day_shape (v : string) : bool :=
  match v with
  | String h1 (String m1 (String m2 (String h2 (String d1 (String d2 EmptyString))))) =>
      bool_decide (h1 = "-"%char) && Datetime.is_digit m1 && Datetime.is_digit m2
      && bool_decide (h2 = "-"%char) && Datetime.is_digit d1 && Datetime.is_digit d2
  | _ => false
  end.

(** At most [n] digits, then a dash, two digits, a dash and two digits. *)
Fixpoint year_then (n : nat) (v : string) : bool :=
  month_day_shape v
  || match n, v with
     | S n', String c r => Datetime.is_digit c && year_then n' r
     | _, _ => false
     end.

(** One to four digits of a year, a dash, two digits, a dash and two
    digits. *)
Definition date_shape (v : string) : bool :=
  match v with
  | String c r => Datetime.is_digit c && year_then 3 r
  | EmptyString => false
  end.

(** A day or month written without a leading zero. *)
Definition unpad (n : nat) : string :=
  if n <? 10 then String (Datetime.digit_char n) EmptyString else Datetime.pad2 n.

(** An option that is not the empty string. *)
Definition not_blank (v : option string) : Prop := v ≠ Some "".

Section MoreInvariants.
Context `{PyFloat}.

(** No collection holds a blank key or a blank name, and the sentinel is not
    a key of the detailed items. *)
Definition collections_nonblank (st : State) : Prop :=
  (∀ k n, items st !! k = Some n → k ≠ "" ∧ n ≠ "") ∧
  (∀ k d, detailed_items st !! k = Some d →
          k ≠ "" ∧ k ≠ Subtotal ∧ DetailedItem.detailedItemName d ≠ ""
          ∧ not_blank (DetailedItem.itemId d)) ∧
  (∀ k n, sectors st !! k = Some n → k ≠ "" ∧ n ≠ "") ∧
  (∀ k o, organisations st !! k = Some o → k ≠ "") ∧
  not_blank (current_detailed_item_id st) ∧
  current_detailed_item_id st ≠ Some Subtotal ∧
  not_blank (current_sector_mapping_id st).

(** A Capability has a label and an organisation, and none of its optional
    fields is the empty string. *)
Definition capabilities_nonblank (st : State) : Prop :=
  ∀ c, c ∈ capabilities st →
       Capability.organisationCapability c ≠ "" ∧ Capability.organisationId c ≠ "" ∧
       not_blank (Capability.itemId c) ∧ not_blank (Capability.detailedItemId c) ∧
       not_blank (Capability.capabilityType c) ∧ not_blank (Capability.sectorMappingId c) ∧
       not_blank (Capability.validationDate c).

End MoreInvariants.

(** * [Database/geocode_addresses.py] *)

Module Geocode.

Local Open Scope list_scope.

(** [s.rstrip(',')]: the trailing commas of [s] removed. *)
Fixpoint lstrip_char (c : ascii) (s : string) : string :=
  match s with
  | String a s' => if decide (a = c) then lstrip_char c s' else s
  | EmptyString => EmptyString
  end.

Definition rstrip_char (c : ascii) (s : string) : string :=
  String.rev (lstrip_char c (String.rev s)).

(** [sep.join(parts)] *)
Fixpoint join (sep : string) (parts : list string) : string :=
  match parts with
  | [] => ""
  | [p] => p
  | p :: rest => p +:+ sep +:+ join sep rest
  end.

(** [x and x.strip() and x != '#N/A'], lines 82-88 *)
Definition present (x : string) : bool :=
  nonempty x && nonempty (strip x) && negb (bool_decide (x = "#N/A")).

(** [AddressGeocoder.format_address], lines 78-91 *)
Definition format_address (street city state postcode : string) : string :=
  let parts := [] in
  let parts := if present street then parts ++ [rstrip_char "," (strip street)] else parts in
  let parts := if present city then parts ++ [strip city] else parts in
  let parts := if present state then parts ++ [strip state] else parts in
  let parts := if present postcode then parts ++ [strip postcode] else parts in
  join ", " parts.

(** The dict [geocode_address] returns.  A coordinate is whatever the
    backend's answer holds. *)
Record result (C : Type) := {
  formatted_address : string;
  latitude : option C;
  longitude : option C;
  geocoding_service : option string;
  status : string
}.
Arguments formatted_address {C} _.
Arguments latitude {C} _.
Arguments longitude {C} _.
Arguments geocoding_service {C} _.
Arguments status {C} _.

(** A cell handed to [csv.writer]: a string, [None], or a coordinate. *)
Inductive cell (C : Type) :=
| Str (s : string)
| PyNone
| Value (c : C).
Arguments Str {C} s.
Arguments PyNone {C}.
Arguments Value {C} c.

Definition batch_size : nat := 10.

(** [headers + [...]], lines 159-165 *)
Definition new_headers (headers : list string) : list string :=
  headers ++ ["Formatted_Address"; "Latitude"; "Longitude"; "Geocoding_Service";
              "Geocoding_Status"].

(** Lines 184-186: the row is long enough, its street cell is neither
    ['#N/A'] nor empty, and its first cell does not start with ['Subtotal']. *)
Definition has_address (row : list string) : bool :=
  (10 <? length row)
  && match row !! 10, row !! 0 with
     | Some street, Some first =>
         negb (bool_decide (street = "#N/A")) && negb (bool_decide (street = ""))
         && negb (String.prefix "Subtotal" first)
     | _, _ => false
     end.

(** [row[i] if len(row) > i else ''] *)
Definition component (row : list string) (i : nat) : string := default "" (row !! i).

(** [if max_rows and processed_count >= max_rows], line 180 *)
Definition limit_reached (max_rows : option Z) (processed_count : nat) : bool :=
  match max_rows with
  | Some n => negb (n =? 0)%Z && (n <=? Z.of_nat processed_count)%Z
  | None => false
  end.

Section Backends.

(** The two geocoding services are requests over the network: each takes the
    address and the state of the world and gives back coordinates or [None]
    (every exception is caught inside) and the world after the request. *)
Variables (W C : Type).
Variables (geocode_nominatim geocode_photon : string → W → option (C * C) * W).

(** [AddressGeocoder.geocode_address], lines 93-140.  A tuple of two
    coordinates is true whatever it holds. *)
Definition geocode_address (street city state postcode : string) (w : W) : result C * W :=
  let address := format_address street city state postcode in
  if negb (nonempty address) || bool_decide (strip address = "") then
    ({| formatted_address := ""; latitude := None; longitude := None;
        geocoding_service := None; status := "empty_address" |}, w)
  else
    let '(coords, w) := geocode_nominatim address w in
    match coords with
    | Some (lat, lon) =>
        ({| formatted_address := address; latitude := Some lat; longitude := Some lon;
            geocoding_service := Some "nominatim"; status := "success" |}, w)
    | None =>
        let '(coords, w) := geocode_photon address w in
        match coords with
        | Some (lat, lon) =>
            ({| formatted_address := address; latitude := Some lat; longitude := Some lon;
                geocoding_service := Some "photon"; status := "success" |}, w)
        | None =>
            ({| formatted_address := address; latitude := None; longitude := None;
                geocoding_service := None; status := "failed" |}, w)
        end
    end.

(** [None] is written for an absent value. *)
Definition coordinate_cell (v : option C) : cell C :=
  match v with Some c => Value c | None => PyNone end.

Definition service_cell (v : option string) : cell C :=
  match v with Some s => Str s | None => PyNone end.

(** Lines 201-207 *)
Definition geocoded_row (row : list string) (r : result C) : list (cell C) :=
  (Str <$> row) ++ [Str (formatted_address r); coordinate_cell (latitude r);
                    coordinate_cell (longitude r); service_cell (geocoding_service r);
                    Str (status r)].

(** Line 216 *)
Definition skipped_row (row : list string) : list (cell C) :=
  (Str <$> row) ++ [Str ""; Str ""; Str ""; Str ""; Str "skipped"].

(** The variables of the loop of [process_csv], with the batches handed to
    [writer.writerows] so far. *)
Record progress := {
  world : W;
  batch_results : list (list (cell C));
  processed_count : nat;
  success_count : nat;
  written : list (list (list (cell C)))
}.

(** One iteration after the [break] test, lines 183-226. *)
Definition step (row : list string) (p : progress) : progress :=
  let '(new_row, w, processed, success) :=
    if has_address row then
      let '(geocode_result, w) :=
        geocode_address (component row 10) (component row 11) (component row 12)
                        (component row 13) (world p) in
      (geocoded_row row geocode_result, w, S (processed_count p),
       if bool_decide (status geocode_result = "success")
       then S (success_count p) else success_count p)
    else (skipped_row row, world p, processed_count p, success_count p) in
  let batch := batch_results p ++ [new_row] in
  if batch_size <=? length batch then
    {| world := w; batch_results := []; processed_count := processed;
       success_count := success; written := written p ++ [batch] |}
  else
    {| world := w; batch_results := batch; processed_count := processed;
       success_count := success; written := written p |}.

(** The loop of lines 179-226; reaching the limit leaves it. *)
Fixpoint loop (max_rows : option Z) (rows : list (list string)) (p : progress) : progress :=
  match rows with
  | [] => p
  | row :: rest =>
      if limit_reached max_rows (processed_count p) then p
      else loop max_rows rest (step row p)
  end.

(** What a run leaves: the header line and the batches written to the output
    file, the two counters, and the world. *)
Record output := {
  header_row : list string;
  batches : list (list (list (cell C)));
  processed : nat;
  succeeded : nat;
  final_world : W
}.

(** [process_csv], lines 142-238, on the lines the reader yields.  An input
    without a header line makes [next(reader)] raise [StopIteration], which
    is [None] here.  Skipping [start_row] lines stops at the end of the
    input. *)
Definition process_csv (lines : list (list string)) (start_row : Z) (max_rows : option Z)
    (w : W) : option output :=
  match lines with
  | [] => None
  | headers :: rows =>
      let p := loop max_rows (drop (Z.to_nat start_row) rows)
                 {| world := w; batch_results := []; processed_count := 0;
                    success_count := 0; written := [] |} in
      Some {| header_row := new_headers headers;
              batches := match batch_results p with
                         | [] => written p
                         | _ :: _ => written p ++ [batch_results p]
                         end;
              processed := processed_count p;
              succeeded := success_count p;
              final_world := world p |}
  end.

End Backends.

Arguments geocode_address {W C} _ _ _ _ _ _ _.
Arguments coordinate_cell {C} _.
Arguments service_cell {C} _.
Arguments geocoded_row {C} _ _.
Arguments skipped_row {C} _.
Arguments step {W C} _ _ _ _.
Arguments loop {W C} _ _ _ _ _.
Arguments process_csv {W C} _ _ _ _ _ _.
Arguments world {W C} _.
Arguments batch_results {W C} _.
Arguments processed_count {W C} _.
Arguments success_count {W C} _.
Arguments written {W C} _.
Arguments header_row {W C} _.
Arguments batches {W C} _.
Arguments processed {W C} _.
Arguments succeeded {W C} _.
Arguments final_world {W C} _.

(** The output row is the input row followed by five more cells. *)
Definition extends {C} (row : list string) (new_row : list (cell C)) : Prop :=
  ∃ extra, new_row = (Str <$> row) ++ extra ∧ length extra = 5.

(** The last cell of the output row is the status [s]. *)
Definition has_status {C} (s : string) (new_row : list (cell C)) : bool :=
  match last new_row with
  | Some (Str s') => bool_decide (s' = s)
  | _ => false
  end.

(** The rows handed to the writer so far, batch after batch. *)
Definition rows_out {W C} (p : progress W C) : list (list (cell C)) :=
  concat (written p) ++ batch_results p.

(** The limit is [None] or zero, which the test of line 180 takes for no
    limit. *)
Definition unlimited (max_rows : option Z) : Prop :=
  max_rows = None ∨ max_rows = Some 0%Z.

(** Backends for the examples: the world is the list of requests made, and
    the address decides the answer. *)
Module Example.

Definition nominatim (address : string) (w : list string) : option (Z * Z) * list string :=
  (if String.prefix "1 Main St" address then Some (-37, 144)%Z else None,
   w ++ ["nominatim: " +:+ address]).

Definition photon (address : string) (w : list string) : option (Z * Z) * list string :=
  (if String.prefix "2 High St" address then Some (-38, 145)%Z else None,
   w ++ ["photon: " +:+ address]).

(** A line of the export with the given first cell and address columns
    (indices 10 to 13). *)
Definition line (first street city state postcode : string) : list string :=
  [first; ""; ""; ""; ""; ""; ""; ""; ""; ""; street; city; state; postcode].

Definition lines : list (list string) :=
  [ ["Detailed Item ID"; "Name"];
    line "D1" "1 Main St," "Melbourne" "VIC" "3000";
    line "" "2 High St" " Geelong " "VIC" "#N/A";
    line "Subtotal" "3 Low St" "Ballarat" "VIC" "3350";
    ["short"; "row"];
    line "D2" "9 Nowhere Rd" "" "" "";
    line "D3" "#N/A" "Bendigo" "VIC" "3550" ].

End Example.

End Geocode.


(** * The SQL export of [Database/normalize_data.py]

    [generate_sql_inserts] writes one statement per record.  The loops over
    the four dicts follow the insertion order of a Python dict, which the
    finite maps of the model do not keep; the Capabilities are a list, and
    their statements are modelled here, in the order they are written. *)

Module Sql.

(** [chr(39)] *)
Definition quote : ascii := "'"%char.

(** [chr(10)], the ['\n'] of the f-strings *)
Definition newline : string := String "010"%char EmptyString.

(** [s.replace(chr(39), chr(39)+chr(39))] *)
Fixpoint replace_quote (s : string) : string :=
  match s with
  | EmptyString => EmptyString
  | String c r =>
      if decide (c = quote) then String quote (String quote (replace_quote r))
      else String c (replace_quote r)
  end.

(** The values [format_value] is applied to: [None], a [str] or a [float]. *)
Inductive value `{PyFloat} :=
| PyNone
| Str (s : string)
| Num (f : float).

(** A field that holds a [str] or [None]. *)
Definition text `{PyFloat} (v : option string) : value :=
  match v with Some s => Str s | None => PyNone end.

Section Format.
Context `{PyFloat}.

(** [str(value)] of a float *)
Variable str_of_float : float → string.

(** [format_value], lines 202-208 *)
Definition format_value (v : value) : string :=
  match v with
  | PyNone => "NULL"
  | Str s =>
      if bool_decide (s = "") then "NULL"
      else String quote (replace_quote s +:+ String quote EmptyString)
  | Num f => str_of_float f
  end.

(** The list [values] of the Capabilities loop, lines 231-239 *)
Definition capability_values (cap : Capability.t) : list value :=
  [ Str (Capability.organisationCapability cap);
    Str (Capability.organisationId cap);
    text (Capability.itemId cap);
    text (Capability.detailedItemId cap);
    text (Capability.capabilityType cap);
    text (Capability.validationDate cap);
    text (Capability.sectorMappingId cap) ].

(** The statement of line 241 *)
Definition capability_insert (cap : Capability.t) : string :=
  "INSERT INTO Capabilities (organisationCapability, organisationId, itemId, detailedItemId, capabilityType, validationDate, sectorMappingId) VALUES ("
  +:+ Geocode.join ", " (format_value <$> capability_values cap) +:+ ");" +:+ newline.

(** What the loop of lines 230-241 writes for the Capabilities of a state. *)
Definition capabilities_inserts (st : State) : list string :=
  capability_insert <$> capabilities st.

End Format.

(** The fields of a Capability, in the order of the statement. *)
Definition capability_fields (cap : Capability.t) : list (option string) :=
  [ Some (Capability.organisationCapability cap);
    Some (Capability.organisationId cap);
    Capability.itemId cap;
    Capability.detailedItemId cap;
    Capability.capabilityType cap;
    Capability.validationDate cap;
    Capability.sectorMappingId cap ].

(** A field as the database sees it: the empty string is null. *)
Definition null_if_blank (v : option string) : option string :=
  match v with
  | Some EmptyString => None
  | _ => v
  end.

(** The first character of [t] is a quote. *)
Definition starts_with_quote (t : string) : bool :=
  match t with
  | String c _ => bool_decide (c = quote)
  | EmptyString => false
  end.

(** The Capabilities of the pass over [Example.group_a; Example.group_b]. *)
Module Example.

Definition supplier_a : Capability.t :=
  {| Capability.organisationCapability := "Supplier";
     Capability.organisationId := "ACME";
     Capability.itemId := Some "I1";
     Capability.detailedItemId := Some "A";
     Capability.capabilityType := None;
     Capability.validationDate := None;
     Capability.sectorMappingId := Some "A" |}.

Definition supplier_b : Capability.t :=
  {| Capability.organisationCapability := "Supplier";
     Capability.organisationId := "ACME";
     Capability.itemId := None;
     Capability.detailedItemId := Some "B";
     Capability.capabilityType := None;
     Capability.validationDate := None;
     Capability.sectorMappingId := Some "B" |}.

End Example.

End Sql.
(** ** Basic facts about the Python primitives *)

Local Open Scope list_scope.

Lemma nonempty_true (s : string) : nonempty s = true ↔ s ≠ "".
Proof. destruct s; simpl; split; congruence. Qed.

Lemma append_nil (t : string) : "" +:+ t = t.
Proof. reflexivity. Qed.

Lemma append_cons (a : ascii) (s t : string) : String a s +:+ t = String a (s +:+ t).
Proof. reflexivity. Qed.

Lemma append_nil_r (s : string) : s +:+ "" = s.
Proof. induction s as [| a s IH]; [done |]. by rewrite append_cons, IH. Qed.

Lemma string_app_assoc (s1 s2 s3 : string) : (s1 +:+ s2) +:+ s3 = s1 +:+ (s2 +:+ s3).
Proof.
  induction s1 as [| a s1 IH]; [done |]. rewrite !append_cons. by f_equal.
Qed.


(** *** Characters *)

Lemma is_cont_ge (b : ascii) : is_cont b = true → 128 ≤ nat_of_ascii b.
Proof. unfold is_cont. intros [?%Nat.leb_le _]%andb_true_iff. done. Qed.

Lemma chars_cons (c t : string) :
  is_char c = true → chars (c +:+ t) = (c ::.) <$> chars t.
Proof.
  destruct c as [| a [| b [| c [| d [| e r]]]]]; cbn [is_char]; try done;
    rewrite ?append_cons, ?append_nil; cbn [chars].
  - by intros ->.
  - rewrite !andb_true_iff, Nat.leb_le, Nat.ltb_lt. intros [[Ha1 Ha2] Hb].
    replace (nat_of_ascii a <? 128) with false by (symmetry; apply Nat.ltb_ge; lia).
    replace (nat_of_ascii a <? 192) with false by (symmetry; apply Nat.ltb_ge; lia).
    replace (nat_of_ascii a <? 224) with true by (symmetry; apply Nat.ltb_lt; lia).
    by rewrite Hb.
  - rewrite !andb_true_iff, Nat.leb_le, Nat.ltb_lt. intros [[[Ha1 Ha2] Hb] Hc].
    replace (nat_of_ascii a <? 128) with false by (symmetry; apply Nat.ltb_ge; lia).
    replace (nat_of_ascii a <? 192) with false by (symmetry; apply Nat.ltb_ge; lia).
    replace (nat_of_ascii a <? 224) with false by (symmetry; apply Nat.ltb_ge; lia).
    replace (nat_of_ascii a <? 240) with true by (symmetry; apply Nat.ltb_lt; lia).
    by rewrite Hb, Hc.
  - rewrite !andb_true_iff, Nat.leb_le. intros [[[Ha Hb] Hc] Hd].
    replace (nat_of_ascii a <? 128) with false by (symmetry; apply Nat.ltb_ge; lia).
    replace (nat_of_ascii a <? 192) with false by (symmetry; apply Nat.ltb_ge; lia).
    replace (nat_of_ascii a <? 224) with false by (symmetry; apply Nat.ltb_ge; lia).
    replace (nat_of_ascii a <? 240) with false by (symmetry; apply Nat.ltb_ge; lia).
    by rewrite Hb, Hc, Hd.
Qed.



Lemma chars_inv_le (n : nat) (s : string) (cs : list string) :
  String.length s ≤ n → chars s = Some cs →
  Forall (λ c, is_char c = true) cs ∧ cat cs = s.
Proof.
  revert s cs. induction n as [| n IH]; intros s cs Hn.
  { destruct s; [| simpl in Hn; lia]. intros [= <-]. by split. }
  destruct s as [| a r]; [intros [= <-]; by split |].
  simpl in Hn. cbn [chars].
  destruct (nat_of_ascii a <? 128) eqn:E1.
  { intros (cs' & Hr & ->)%fmap_Some. destruct (IH r cs') as [Hcs <-]; [lia | done |].
    split; [| done]. constructor; [exact E1 | done]. }
  destruct (nat_of_ascii a <? 192) eqn:E2; [done |].
  apply Nat.ltb_ge in E1, E2.
  destruct (nat_of_ascii a <? 224) eqn:E3.
  { destruct r as [| b r2]; [done |]. destruct (is_cont b) eqn:Hb; [| done].
    simpl in Hn.
    intros (cs' & Hr & ->)%fmap_Some. destruct (IH r2 cs') as [Hcs <-]; [lia | done |].
    split; [| done]. constructor; [| done]. cbn [is_char]. rewrite Hb, E3.
    by replace (192 <=? nat_of_ascii a) with true by (symmetry; by apply Nat.leb_le). }
  apply Nat.ltb_ge in E3.
  destruct (nat_of_ascii a <? 240) eqn:E4.
  { destruct r as [| b [| c r3]]; [done | done |].
    destruct (is_cont b) eqn:Hb; [| done]. destruct (is_cont c) eqn:Hc; [| done].
    simpl in Hn.
    intros (cs' & Hr & ->)%fmap_Some. destruct (IH r3 cs') as [Hcs <-]; [lia | done |].
    split; [| done]. constructor; [| done]. cbn [is_char]. rewrite Hb, Hc, E4.
    by replace (224 <=? nat_of_ascii a) with true by (symmetry; by apply Nat.leb_le). }
  apply Nat.ltb_ge in E4.
  destruct r as [| b [| c [| d r4]]]; [done | done | done |].
  destruct (is_cont b) eqn:Hb; [| done]. destruct (is_cont c) eqn:Hc; [| done].
  destruct (is_cont d) eqn:Hd; [| done].
  simpl in Hn.
  intros (cs' & Hr & ->)%fmap_Some. destruct (IH r4 cs') as [Hcs <-]; [lia | done |].
  split; [| done]. constructor; [| done]. cbn [is_char]. rewrite Hb, Hc, Hd.
  by replace (240 <=? nat_of_ascii a) with true by (symmetry; by apply Nat.leb_le).
Qed.

Lemma chars_inv (s : string) (cs : list string) :
  chars s = Some cs → Forall (λ c, is_char c = true) cs ∧ cat cs = s.
Proof. by apply (chars_inv_le (String.length s)). Qed.

(** *** The ASCII part *)

Lemma upper_char_idemp (c : ascii) : upper_char (upper_char c) = upper_char c.
Proof.
  unfold upper_char.
  destruct ((97 <=? nat_of_ascii c) && (nat_of_ascii c <=? 122)) eqn:E; [| by rewrite E].
  apply andb_true_iff in E as [E1%Nat.leb_le E2%Nat.leb_le].
  rewrite nat_ascii_embedding by lia.
  replace (97 <=? nat_of_ascii c - 32) with false; [done |].
  symmetry. apply Nat.leb_gt. lia.
Qed.


Lemma is_lower_upper_char (c : ascii) : is_lower (upper_char c) = false.
Proof.
  unfold upper_char, is_lower.
  destruct ((97 <=? nat_of_ascii c) && (nat_of_ascii c <=? 122)) eqn:E; [| exact E].
  apply andb_true_iff in E as [E1%Nat.leb_le E2%Nat.leb_le].
  rewrite nat_ascii_embedding by lia.
  apply andb_false_iff. left. apply Nat.leb_gt. lia.
Qed.



Lemma upper_char_ascii (a : ascii) :
  (nat_of_ascii a <? 128) = true → (nat_of_ascii (upper_char a) <? 128) = true.
Proof.
  intros Ha. unfold upper_char.
  destruct ((97 <=? nat_of_ascii a) && (nat_of_ascii a <=? 122)) eqn:E; [| done].
  apply andb_true_iff in E as [E1%Nat.leb_le E2%Nat.leb_le].
  rewrite nat_ascii_embedding by lia. apply Nat.ltb_lt. lia.
Qed.












(** *** The table *)

Lemma assoc_elem (k v : string) (t : list (string * string)) :
  assoc k t = Some v → (k, v) ∈ t.
Proof.
  induction t as [| [k' v'] t IH]; simpl; [done |].
  destruct (String.eqb k k') eqn:E.
  - apply String.eqb_eq in E as ->. intros [= ->]. left.
  - intros ?%IH. by right.
Qed.

Lemma upper_table_ok : forallb (λ kv, value_ok kv.2) upper_table = true.
Proof. vm_compute. reflexivity. Qed.

Lemma high_cons (a : ascii) (s : string) :
  128 ≤ nat_of_ascii a → high s = true → high (String a s) = true.
Proof.
  intros Ha Hs. change (high (String a s)) with ((128 <=? nat_of_ascii a) && high s).
  rewrite Hs, andb_true_r. by apply Nat.leb_le.
Qed.

Lemma is_char_cases (c : string) :
  is_char c = true →
  (∃ a, c = String a "" ∧ (nat_of_ascii a <? 128) = true) ∨
  (high c = true ∧ nonempty c = true ∧ upper_chunk c = default c (assoc c upper_table)).
Proof.
  destruct c as [| a [| b [| c [| d [| e r]]]]]; cbn [is_char]; try done.
  - intros Ha. left. by exists a.
  - rewrite !andb_true_iff, Nat.leb_le. intros [[Ha _] Hb%is_cont_ge]. right.
    split_and!; [| reflexivity | reflexivity].
    repeat (apply high_cons; [lia |]). reflexivity.
  - rewrite !andb_true_iff, Nat.leb_le. intros [[[Ha _] Hb%is_cont_ge] Hc%is_cont_ge]. right.
    split_and!; [| reflexivity | reflexivity].
    repeat (apply high_cons; [lia |]). reflexivity.
  - rewrite !andb_true_iff, Nat.leb_le.
    intros [[[Ha Hb%is_cont_ge] Hc%is_cont_ge] Hd%is_cont_ge]. right.
    split_and!; [| reflexivity | reflexivity].
    repeat (apply high_cons; [lia |]). reflexivity.
Qed.

Lemma high_no_lower_case (c : string) : high c = true → no_lower_case c = true.
Proof.
  induction c as [| a c IH]; [done |].
  change (high (String a c)) with ((128 <=? nat_of_ascii a) && high c).
  change (no_lower_case (String a c)) with (negb (is_lower a) && no_lower_case c).
  intros [Ha%Nat.leb_le Hc]%andb_true_iff. rewrite (IH Hc), andb_true_r.
  apply negb_true_iff. unfold is_lower. apply andb_false_iff. right. apply Nat.leb_gt. lia.
Qed.


(** What [upper_chunk] gives for a character: a non-empty string without a
    lower-case letter, made of characters that [upper_chunk] leaves as they
    are. *)
Lemma upper_chunk_ok (c : string) :
  is_char c = true →
  nonempty (upper_chunk c) = true ∧ no_lower_case (upper_chunk c) = true ∧
  ∃ vs, chars (upper_chunk c) = Some vs ∧ Forall (λ x, upper_chunk x = x) vs.
Proof.
  intros Hc. destruct (is_char_cases c Hc) as [(a & -> & Ha) | (Hhigh & Hne & Hup)].
  - simpl. rewrite is_lower_upper_char. split_and!; [done | done |].
    exists [String (upper_char a) ""]. split.
    + by rewrite (upper_char_ascii a Ha).
    + constructor; [| done]. simpl. by rewrite upper_char_idemp.
  - rewrite Hup. destruct (assoc c upper_table) as [v |] eqn:Hv; simpl.
    + apply assoc_elem in Hv.
      pose proof (proj1 (forallb_forall _ _) upper_table_ok (c, v)) as Hok.
      rewrite <- list_elem_of_In in Hok. specialize (Hok Hv). simpl in Hok.
      unfold value_ok in Hok. apply andb_true_iff in Hok as [[? ?]%andb_true_iff Hok].
      split_and!; [done | done |].
      destruct (chars v) as [vs |]; [| done]. exists vs. split; [done |].
      apply Forall_forall. intros x Hx.
      pose proof (proj1 (forallb_forall _ _) Hok x) as Hfix.
      rewrite <- list_elem_of_In in Hfix. by apply String.eqb_eq, Hfix.
    + split_and!; [done | by apply high_no_lower_case |].
      exists [c]. split.
      * rewrite <- (append_nil_r c) at 1. by rewrite (chars_cons _ _ Hc).
      * constructor; [| done]. exact Hup.
Qed.

(** *** [upper] *)

Lemma upper_chars (s : string) (cs : list string) :
  chars s = Some cs → upper s = cat (upper_chunk <$> cs).
Proof. unfold upper. by intros ->. Qed.

Lemma upper_not_chars (s : string) : chars s = None → upper s = ascii_upper s.
Proof. unfold upper. by intros ->. Qed.

Lemma nonempty_app (s t : string) : nonempty s = true → nonempty (s +:+ t) = true.
Proof. by destruct s. Qed.

Lemma nonempty_ascii_upper (s : string) : nonempty (ascii_upper s) = nonempty s.
Proof. by destruct s. Qed.

Lemma nonempty_upper (s : string) : nonempty (upper s) = nonempty s.
Proof.
  destruct (chars s) as [cs |] eqn:Hcs.
  - rewrite (upper_chars _ _ Hcs). destruct (chars_inv _ _ Hcs) as [Hchars <-].
    destruct Hchars as [| c cs Hc Hchars]; [done |]. rewrite fmap_cons. cbn [cat].
    destruct (upper_chunk_ok c Hc) as (Hne & _).
    rewrite (nonempty_app _ _ Hne). symmetry. apply nonempty_app.
    destruct (is_char_cases c Hc) as [(a & -> & _) | (_ & ? & _)]; done.
  - rewrite (upper_not_chars _ Hcs). apply nonempty_ascii_upper.
Qed.









Lemma or_none_Some (s v : string) : or_none s = Some v → s = v ∧ nonempty v = true.
Proof. unfold or_none. destruct (nonempty s) eqn:E; naive_solver. Qed.

Lemma or_none_nonempty (s : string) : nonempty s = true → or_none s = Some s.
Proof. unfold or_none. by intros ->. Qed.

Lemma bind_Ok {A B} (m : res A) (k : A → res B) (b : B) :
  (x ← m; k x) = Ok b → ∃ a, m = Ok a ∧ k a = Ok b.
Proof. destruct m; simpl; [eauto | done]. Qed.

(** ** One iteration, taken apart *)

Section Step.
Context `{PyFloat}.

Lemma cell_field (row : Row) (col s : string) : cell row col = Ok s → field row col = s.
Proof. unfold field. by intros ->. Qed.

Lemma cell_or_none_field (row : Row) (col : string) (v : option string) :
  cell_or_none row col = Ok v → v = or_none (field row col).
Proof.
  unfold cell_or_none. intros (s & Hs & [= <-])%bind_Ok. by rewrite (cell_field _ _ _ Hs).
Qed.

Lemma skip_false_cell (row : Row) :
  skip row = false →
  ∃ s, cell row Col.organisation_id = Ok s ∧ nonempty s = true.
Proof.
  unfold skip, cell, get. destruct (row !! Col.organisation_id) as [[s |] |]; try done.
  intros [_ Hs%bool_decide_eq_false]%orb_false_iff. simpl.
  eexists; split; [done |]. by apply nonempty_true.
Qed.

Lemma process_row_skip (st : State) (row : Row) : skip row = true → process_row st row = Ok st.
Proof. unfold process_row. by intros ->. Qed.

Lemma process_row_Ok (st st' : State) (row : Row) :
  process_row st row = Ok st' → skip row = false →
  items st' = store_item (items st) (field row Col.item_id) (field row Col.item_name) ∧
  current_detailed_item_id st' =
    next_detailed_item_id (current_detailed_item_id st) (detailed_raw row) ∧
  detailed_items st' =
    store_detailed_item (detailed_items st) (detailed_raw row)
      (field row Col.detailed_item_name) (field row Col.item_id) ∧
  current_sector_mapping_id st' =
    next_sector_mapping_id (current_sector_mapping_id st) (field row Col.sector_mapping_id) ∧
  sectors st' =
    store_sector (sectors st) (current_sector_mapping_id st') (field row Col.sector_name) ∧
  store_organisation (organisations st) (organisation_key row) row
    (coordinates row).1 (coordinates row).2 = Ok (organisations st') ∧
  store_capability (capabilities st) row (organisation_key row) (field row Col.item_id)
    (current_detailed_item_id st') (validation_date row) (current_sector_mapping_id st')
    = Ok (capabilities st').
Proof.
  intros Hrun Hskip. unfold process_row in Hrun. rewrite Hskip in Hrun.
  destruct (skip_false_cell row Hskip) as (org & Horg & Hne).
  apply bind_Ok in Hrun as (item_id & Hitem_id & Hrun).
  apply bind_Ok in Hrun as (item_name & Hitem_name & Hrun).
  apply bind_Ok in Hrun as (raw & Hraw & Hrun).
  apply bind_Ok in Hrun as (dname & Hdname & Hrun).
  apply bind_Ok in Hrun as (sraw & Hsraw & Hrun).
  apply bind_Ok in Hrun as (sname & Hsname & Hrun).
  apply bind_Ok in Hrun as (org' & Horg' & Hrun).
  rewrite Horg in Horg'. injection Horg' as <-.
  rewrite Hne, nonempty_upper, Hne in Hrun.
  apply bind_Ok in Hrun as (date_str & Hdate & Hrun).
  apply bind_Ok in Hrun as (vd & Hvd & Hrun).
  apply bind_Ok in Hrun as ([lat lon] & Hcoord & Hrun).
  apply bind_Ok in Hrun as (orgs & Horgs & Hrun).
  apply bind_Ok in Hrun as (caps & Hcaps & Hrun).
  injection Hrun as <-. simpl.
  unfold organisation_key, coordinates, validation_date, detailed_raw.
  rewrite (cell_field _ _ _ Hitem_id), (cell_field _ _ _ Hitem_name),
    (cell_field _ _ _ Hdname), (cell_field _ _ _ Hsraw), (cell_field _ _ _ Hsname),
    (cell_field _ _ _ Horg), (cell_field _ _ _ Hdate), Hraw, Hcoord, Hvd.
  done.
Qed.

Lemma process_rows_cons (st st' : State) (row : Row) (rows : list Row) :
  process_rows st (row :: rows) = Ok st' →
  ∃ st1, process_row st row = Ok st1 ∧ process_rows st1 rows = Ok st'.
Proof. simpl. apply bind_Ok. Qed.

Lemma process_rows_app (st st' : State) (rows1 rows2 : list Row) :
  process_rows st (rows1 ++ rows2) = Ok st' ↔
  ∃ st1, process_rows st rows1 = Ok st1 ∧ process_rows st1 rows2 = Ok st'.
Proof.
  revert st. induction rows1 as [| row rows1 IH]; intros st; simpl.
  - split; [eauto |]. by intros (st1 & [= <-] & ?).
  - destruct (process_row st row) as [st1 |]; simpl; [apply IH |].
    split; [done |]. by intros (? & ? & ?).
Qed.

(** Running the model on given rows: a pass that is seen to complete has
    a final state, and a state before its last row. *)
Lemma process_csv_is_ok (rows : list Row) :
  is_ok (process_csv rows) = true → ∃ st, process_csv rows = Ok st.
Proof. destruct (process_csv rows); [eauto | done]. Qed.

Lemma process_csv_snoc_is_ok (pre : list Row) (row : Row) :
  is_ok (process_csv (pre ++ [row])) = true →
  ∃ st st', process_csv pre = Ok st ∧ process_row st row = Ok st'.
Proof.
  intros (st' & Hrun)%process_csv_is_ok.
  apply process_rows_app in Hrun as (st & Hpre & Hrow).
  apply process_rows_cons in Hrow as (st1 & Hrow & [= <-]). eauto.
Qed.

Lemma process_csv_eval (rows : list Row) (P : State → Prop) :
  match process_csv rows with Ok st => P st | Raise _ => False end →
  ∃ st, process_csv rows = Ok st ∧ P st.
Proof. destruct (process_csv rows); [eauto | done]. Qed.

Lemma process_csv_snoc_eval (pre : list Row) (row : Row) (P : State → State → Prop) :
  match process_csv pre with
  | Ok st => match process_row st row with Ok st' => P st st' | Raise _ => False end
  | Raise _ => False
  end →
  ∃ st st', process_csv pre = Ok st ∧ process_row st row = Ok st' ∧ P st st'.
Proof.
  destruct (process_csv pre) as [st |]; [| done].
  destruct (process_row st row) as [st' |] eqn:E; [| done]. intros HP. by exists st, st'.
Qed.

End Step.

(** ** Validation dates *)

Lemma contains_char_app (c : ascii) (p r : string) : contains_char c (p +:+ String c r) = true.
Proof. induction p as [| a p IH]; simpl; case_decide; done. Qed.

Lemma two_suffix (p q : ascii → bool) (s r : string) (n : nat) :
  (n, r) ∈ Datetime.two p q s → ∃ pre, s = pre +:+ r.
Proof.
  unfold Datetime.two. destruct s as [| a [| b s]]; try by intros ?%elem_of_nil.
  destruct (p a && q b); [| by intros ?%elem_of_nil].
  intros [= -> ->]%list_elem_of_singleton. by exists (String a (String b "")).
Qed.

Lemma one_suffix (p : ascii → bool) (s r : string) (n : nat) :
  (n, r) ∈ Datetime.one p s → ∃ pre, s = pre +:+ r.
Proof.
  unfold Datetime.one. destruct s as [| a s]; try by intros ?%elem_of_nil.
  destruct (p a); [| by intros ?%elem_of_nil].
  intros [= -> ->]%list_elem_of_singleton. by exists (String a "").
Qed.

Lemma block_digit_suffix (zero s r : string) (n : nat) :
  Datetime.block_digit zero s = Some (n, r) → ∃ pre, s = pre +:+ r.
Proof.
  revert s. induction zero as [| a zero IH]; intros s; [by destruct s |].
  destruct s as [| b s]; [by destruct zero |].
  destruct zero as [| a' zero].
  - cbn [Datetime.block_digit].
    destruct ((nat_of_ascii a <=? nat_of_ascii b) && (nat_of_ascii b <=? nat_of_ascii a + 9));
      [| done].
    intros [= _ ->]. by exists (String b "").
  - change (Datetime.block_digit (String a (String a' zero)) (String b s))
      with (if decide (a = b) then Datetime.block_digit (String a' zero) s else None).
    case_decide; [| done]. intros [pre ->]%IH. by exists (String b pre).
Qed.

Lemma digit_suffix (s r : string) (n : nat) :
  (n, r) ∈ Datetime.digit s → ∃ pre, s = pre +:+ r.
Proof.
  unfold Datetime.digit. destruct s as [| a s]; [by intros ?%elem_of_nil |].
  destruct (Datetime.is_digit a).
  - intros [= -> ->]%list_elem_of_singleton. by exists (String a "").
  - destruct (head _) as [[n' r'] |] eqn:E; [| by intros ?%elem_of_nil].
    intros [= -> ->]%list_elem_of_singleton.
    apply head_Some_elem_of, list_elem_of_omap in E as (zero & _ & E).
    by eapply block_digit_suffix.
Qed.

Lemma one_digit_suffix (p : ascii → bool) (s r : string) (n : nat) :
  (n, r) ∈ Datetime.one_digit p s → ∃ pre, s = pre +:+ r.
Proof.
  unfold Datetime.one_digit.
  intros ([a r1] & Hin & [pre1 ->]%one_suffix)%list_elem_of_bind.
  apply list_elem_of_bind in Hin as ([b r2] & Hin & [pre2 ->]%digit_suffix).
  apply list_elem_of_singleton in Hin. injection Hin as -> ->.
  exists (pre1 +:+ pre2). by rewrite string_app_assoc.
Qed.

Lemma re_d_suffix (s r : string) (n : nat) : (n, r) ∈ Datetime.re_d s → ∃ pre, s = pre +:+ r.
Proof.
  unfold Datetime.re_d. rewrite !elem_of_app.
  intros [H | [H | [H | [H | H]]]]; eauto using two_suffix, one_suffix, one_digit_suffix.
  destruct s as [| a s]; [by apply elem_of_nil in H |].
  case_decide; [| by apply elem_of_nil in H].
  apply one_suffix in H as [pre ->]. by exists (String a pre).
Qed.

Lemma lit_inv (c : ascii) (s r : string) : r ∈ Datetime.lit c s → s = String c r.
Proof.
  unfold Datetime.lit. destruct s as [| a s]; [by intros ?%elem_of_nil |].
  case_decide; [| by intros ?%elem_of_nil]. intros ->%list_elem_of_singleton. by subst.
Qed.

(** A string [strptime] accepts has a slash in it. *)
Lemma strptime_Ok_slash (s : string) (t : Datetime.date) :
  Datetime.strptime s = Ok t → contains_char "/" s = true.
Proof.
  unfold Datetime.strptime. destruct (Datetime.re_format s) as [| [[[d m] y] rest] l] eqn:E; [done |].
  intros _. assert (Hin : (d, m, y, rest) ∈ Datetime.re_format s) by (rewrite E; left).
  unfold Datetime.re_format in Hin.
  apply list_elem_of_bind in Hin as ([d' r1] & Hin & Hd).
  apply list_elem_of_bind in Hin as (r2 & _ & Hlit).
  apply re_d_suffix in Hd as [pre ->]. apply lit_inv in Hlit as ->.
  apply contains_char_app.
Qed.

Lemma strptime_Raise (s : string) (e : exn) : Datetime.strptime s = Raise e → e = ValueError.
Proof.
  unfold Datetime.strptime. destruct (Datetime.re_format s) as [| [[[d m] y] rest] l]; [congruence |].
  repeat case_match; congruence.
Qed.

Lemma strptime_valid (s : string) (t : Datetime.date) :
  Datetime.strptime s = Ok t →
  Datetime.valid (Datetime.year t) (Datetime.month t) (Datetime.day t) = true.
Proof.
  unfold Datetime.strptime. destruct (Datetime.re_format s) as [| [[[d m] y] rest] l]; [done |].
  destruct (nonempty rest); [done |]. destruct (Datetime.valid y m d) eqn:E; [| done].
  by intros [= <-].
Qed.

Lemma digit_char_nat (n : nat) : nat_of_ascii (Datetime.digit_char n) = 48 + n mod 10.
Proof.
  unfold Datetime.digit_char. apply nat_ascii_embedding.
  pose proof (Nat.mod_upper_bound n 10). lia.
Qed.

Lemma is_digit_digit_char (n : nat) : Datetime.is_digit (Datetime.digit_char n) = true.
Proof.
  unfold Datetime.is_digit, Datetime.in_range. rewrite digit_char_nat.
  pose proof (Nat.mod_upper_bound n 10).
  apply andb_true_iff. split; apply Nat.leb_le; lia.
Qed.

Lemma digit_val_digit_char (n : nat) : Datetime.digit_val (Datetime.digit_char n) = n mod 10.
Proof. unfold Datetime.digit_val. rewrite digit_char_nat. lia. Qed.

Lemma digit_digit_char (n : nat) (r : string) :
  Datetime.digit (String (Datetime.digit_char n) r) = [(n mod 10, r)].
Proof.
  cbv beta iota delta [Datetime.digit].
  by rewrite is_digit_digit_char, digit_val_digit_char.
Qed.

Lemma two_pad2 (n : nat) (r : string) :
  n < 100 → Datetime.two_digits (Datetime.pad2 n +:+ r) = [(n, r)].
Proof.
  intros Hn.
  change (Datetime.pad2 n +:+ r)
    with (String (Datetime.digit_char (n / 10)) (String (Datetime.digit_char n) r)).
  unfold Datetime.two_digits.
  rewrite digit_digit_char, bind_singleton, digit_digit_char, bind_singleton.
  do 2 f_equal. rewrite (Nat.mod_small (n / 10)) by (apply Nat.Div0.div_lt_upper_bound; lia).
  pose proof (Nat.div_mod_eq n 10). lia.
Qed.

Lemma re_Y_pad4 (y : nat) : y < 100 * 100 → Datetime.re_Y (Datetime.pad4 y) = [(y, "")].
Proof.
  intros Hy. unfold Datetime.re_Y, Datetime.pad4.
  rewrite two_pad2 by (apply Nat.Div0.div_lt_upper_bound; lia).
  rewrite bind_singleton.
  replace (Datetime.pad2 (y mod 100)) with (Datetime.pad2 (y mod 100) +:+ "") by (by unfold Datetime.pad2).
  rewrite two_pad2 by (apply Nat.mod_upper_bound; lia).
  rewrite bind_singleton. do 2 f_equal. pose proof (Nat.div_mod_eq y 100). lia.
Qed.

Lemma bind_first {A B} (f : A → list B) (x : A) (l : list A) :
  Forall (λ a, f a = []) l → (x :: l) ≫= f = f x.
Proof.
  intros Hl. rewrite bind_cons.
  assert (l ≫= f = []) as ->; [| apply app_nil_r].
  induction Hl as [| a l Ha _ IH]; [done |]. by rewrite bind_cons, Ha, IH.
Qed.

Lemma re_d_pad2 (d : nat) (r : string) :
  1 ≤ d ≤ 31 →
  ∃ l, Datetime.re_d (Datetime.pad2 d +:+ String "/" r) = (d, String "/" r) :: l ∧
       Forall (λ p, Datetime.lit "/" p.2 = []) l.
Proof.
  intros Hd. assert (Hd' : d ∈ seq 1 31) by (apply elem_of_seq; lia). clear Hd.
  simpl in Hd'.
  repeat (apply elem_of_cons in Hd' as [-> | Hd']);
    [.. | apply elem_of_nil in Hd'; destruct Hd'];
    (eexists; split; [vm_compute; reflexivity | repeat constructor]).
Qed.

Lemma re_m_pad2 (m : nat) (r : string) :
  1 ≤ m ≤ 12 →
  ∃ l, Datetime.re_m (Datetime.pad2 m +:+ String "/" r) = (m, String "/" r) :: l ∧
       Forall (λ p, Datetime.lit "/" p.2 = []) l.
Proof.
  intros Hd. assert (Hd' : m ∈ seq 1 12) by (apply elem_of_seq; lia). clear Hd.
  simpl in Hd'.
  repeat (apply elem_of_cons in Hd' as [-> | Hd']);
    [.. | apply elem_of_nil in Hd'; destruct Hd'];
    (eexists; split; [vm_compute; reflexivity | repeat constructor]).
Qed.

Lemma max_year : 9999 = 99 * 100 + 99.
Proof. vm_compute; reflexivity. Qed.

Lemma valid_bounds (y m d : nat) :
  Datetime.valid y m d = true → y < 100 * 100 ∧ 1 ≤ m ≤ 12 ∧ 1 ≤ d ≤ 31.
Proof.
  unfold Datetime.valid. rewrite !andb_true_iff, !Nat.leb_le, max_year.
  intros [[[[[Hy1 Hy2] Hm1] Hm2] Hd1] Hd2]. split_and!; try lia.
  etrans; [exact Hd2 |]. unfold Datetime.days_in_month.
  repeat case_match; lia.
Qed.

Lemma re_format_padded (y m d : nat) :
  Datetime.valid y m d = true →
  Datetime.re_format (Datetime.pad2 d +:+ "/" +:+ Datetime.pad2 m +:+ "/" +:+ Datetime.pad4 y)
  = [(d, m, y, "")].
Proof.
  intros (Hy & Hm & Hd)%valid_bounds. unfold Datetime.re_format.
  change (Datetime.pad2 d +:+ "/" +:+ Datetime.pad2 m +:+ "/" +:+ Datetime.pad4 y)
    with (Datetime.pad2 d +:+ String "/" (Datetime.pad2 m +:+ String "/" (Datetime.pad4 y))).
  destruct (re_d_pad2 d (Datetime.pad2 m +:+ String "/" (Datetime.pad4 y)) Hd) as (l & -> & Hl).
  rewrite bind_first.
  2: { eapply Forall_impl; [exact Hl |]. intros [d' r'] Hr. simpl in *. by rewrite Hr. }
  change (Datetime.lit "/" (String "/" ?r)) with [r]. rewrite bind_singleton.
  destruct (re_m_pad2 m (Datetime.pad4 y) Hm) as (l' & -> & Hl').
  rewrite bind_first.
  2: { eapply Forall_impl; [exact Hl' |]. intros [m' r'] Hr. simpl in *. by rewrite Hr. }
  change (Datetime.lit "/" (String "/" ?r)) with [r]. rewrite bind_singleton.
  rewrite re_Y_pad4 by done. by rewrite bind_singleton.
Qed.

Lemma year_str_pad4 (y : nat) : 1000 ≤ y → Datetime.year_str y = Datetime.pad4 y.
Proof.
  intros Hy. unfold Datetime.year_str.
  destruct (y <? 10) eqn:E1; [apply Nat.ltb_lt in E1; lia |].
  destruct (y <? 100) eqn:E2; [apply Nat.ltb_lt in E2; lia |].
  destruct (y <? 1000) eqn:E3; [apply Nat.ltb_lt in E3; lia |].
  reflexivity.
Qed.

Lemma parse_validation_date_padded (y m d : nat) :
  Datetime.valid y m d = true →
  parse_validation_date (Datetime.pad2 d +:+ "/" +:+ Datetime.pad2 m +:+ "/" +:+ Datetime.pad4 y)
  = Ok (Some (Datetime.year_str y +:+ "-" +:+ Datetime.pad2 m +:+ "-" +:+ Datetime.pad2 d)).
Proof.
  intros Hvalid.
  assert (Hparse : Datetime.strptime
            (Datetime.pad2 d +:+ "/" +:+ Datetime.pad2 m +:+ "/" +:+ Datetime.pad4 y)
          = Ok {| Datetime.year := y; Datetime.month := m; Datetime.day := d |}).
  { unfold Datetime.strptime. rewrite re_format_padded by done.
    cbv beta iota delta [nonempty]. by rewrite Hvalid. }
  unfold parse_validation_date.
  rewrite (strptime_Ok_slash _ _ Hparse), Hparse.
  reflexivity.
Qed.

(** C3 (counterexample).  ["not-a-date"] does not parse under [%d/%m/%Y], and
    its validation date is the string itself, not null. *)
Lemma not_a_date_kept_verbatim :
  Datetime.strptime "not-a-date" = Raise ValueError ∧
  parse_validation_date "not-a-date" = Ok (Some "not-a-date").
Proof. split; reflexivity. Qed.

(** C3 (amended).  ["05/03/2024"] becomes ["2024-03-05"], and so does every
    valid calendar date of the years 1000 to 9999 written as two-digit day,
    two-digit month and four-digit year: it becomes the four digits of the
    year, the month and the day, joined by dashes.  Below the year 1000 the
    year is written as [%Y] of the C library writes it, by glibc without
    padding: ["01/01/0999"] becomes ["999-01-01"].  For every input string the
    normalization returns and never raises: a string [strptime] accepts under
    [%d/%m/%Y] becomes the rendering of a valid calendar date; a string with
    a slash that [strptime] rejects yields null; a string without a slash is
    kept as it is (null when empty).  A row whose validation-date cell is a
    string is normalized without an exception. *)
Theorem validation_date_normalization (s : string) :
  parse_validation_date "05/03/2024" = Ok (Some "2024-03-05") ∧
  (∀ y m d, Datetime.valid y m d = true → 1000 ≤ y →
        parse_validation_date
          (Datetime.pad2 d +:+ "/" +:+ Datetime.pad2 m +:+ "/" +:+ Datetime.pad4 y)
        = Ok (Some (Datetime.pad4 y +:+ "-" +:+ Datetime.pad2 m +:+ "-" +:+ Datetime.pad2 d))) ∧
  (∀ y m d, Datetime.valid y m d = true →
        parse_validation_date
          (Datetime.pad2 d +:+ "/" +:+ Datetime.pad2 m +:+ "/" +:+ Datetime.pad4 y)
        = Ok (Some (Datetime.year_str y +:+ "-" +:+ Datetime.pad2 m +:+ "-"
                    +:+ Datetime.pad2 d))) ∧
  parse_validation_date "01/01/0999" = Ok (Some "999-01-01") ∧
  (∃ v, parse_validation_date s = Ok v) ∧
  (∀ t, Datetime.strptime s = Ok t →
        parse_validation_date s = Ok (Some (Datetime.strftime t)) ∧
        Datetime.valid (Datetime.year t) (Datetime.month t) (Datetime.day t) = true) ∧
  (contains_char "/" s = true → (∀ t, Datetime.strptime s ≠ Ok t) →
        parse_validation_date s = Ok None) ∧
  (contains_char "/" s = false → parse_validation_date s = Ok (or_none s)) ∧
  (∀ row : Row, get row Col.validation_date (Some "") = Some s →
        ∃ v, (date_str ← cell row Col.validation_date; parse_validation_date date_str) = Ok v).
Proof.
  assert (Htotal : ∀ s', ∃ v, parse_validation_date s' = Ok v).
  { intros s'. unfold parse_validation_date. destruct (nonempty s'); [| by eexists].
    destruct (contains_char "/" s'); [| by eexists].
    destruct (Datetime.strptime s') as [t | e] eqn:E; simpl; [by eexists |].
    apply strptime_Raise in E as ->. by eexists. }
  split_and!.
  - reflexivity.
  - intros y m d Hvalid Hy.
    by rewrite (parse_validation_date_padded y m d Hvalid), (year_str_pad4 y Hy).
  - apply parse_validation_date_padded.
  - reflexivity.
  - apply Htotal.
  - intros t Ht. split; [| by eapply strptime_valid].
    pose proof (strptime_Ok_slash _ _ Ht) as Hslash.
    unfold parse_validation_date. rewrite Hslash, Ht.
    by destruct s.
  - intros Hslash Hno. unfold parse_validation_date. rewrite Hslash.
    destruct (nonempty s); [| done].
    destruct (Datetime.strptime s) as [t | e] eqn:E; [by destruct (Hno t) |].
    apply strptime_Raise in E as ->. done.
  - intros Hslash. unfold parse_validation_date, or_none. rewrite Hslash.
    by destruct (nonempty s).
  - intros row Hcell. unfold cell. rewrite Hcell. simpl. apply Htotal.
Qed.

Lemma validation_date_normalization_witness :
  parse_validation_date "31/02/2024" = Ok None ∧
  parse_validation_date "2024-03-05" = Ok (Some "2024-03-05") ∧
  parse_validation_date "29/02/2024" = Ok (Some "2024-02-29") ∧
  parse_validation_date "31/12/1999" = Ok (Some "1999-12-31").
Proof.
  split_and!.
  - destruct (validation_date_normalization "31/02/2024")
      as (_ & _ & _ & _ & _ & _ & Hbad & _).
    apply Hbad; [vm_compute; reflexivity | intros t; vm_compute; discriminate].
  - destruct (validation_date_normalization "2024-03-05")
      as (_ & _ & _ & _ & _ & _ & _ & Hkeep & _).
    apply Hkeep. vm_compute; reflexivity.
  - destruct (validation_date_normalization "29/02/2024") as (_ & _ & _ & _ & _ & Hgood & _).
    apply (Hgood {| Datetime.year := 2024; Datetime.month := 2; Datetime.day := 29 |}).
    vm_compute; reflexivity.
  - destruct (validation_date_normalization "") as (_ & Hiso & _).
    apply (Hiso 1999 12 31); [vm_compute; reflexivity | lia].
Defined.

(** ** Storing an organisation *)

Section StoreOrganisation.
Context `{PyFloat}.

Lemma fill_Ok (existing v : option string) (row : Row) (col : string) :
  fill existing row col = Ok v → v = or_ existing (or_none (field row col)).
Proof.
  unfold fill, or_. destruct (truthy existing); [by intros [= <-] |].
  apply cell_or_none_field.
Qed.

Lemma new_organisation_Ok (k : string) (row : Row) (lat lon : option float) (o : Organisation.t) :
  new_organisation k row lat lon = Ok o →
  Organisation.organisationId o = k ∧
  (∀ f, text_get f o = or_none (field row (text_col f))) ∧
  Organisation.latitude o = lat ∧ Organisation.longitude o = lon.
Proof.
  unfold new_organisation. intros Hnew.
  apply bind_Ok in Hnew as (name & ->%cell_or_none_field & Hnew).
  apply bind_Ok in Hnew as (street & ->%cell_or_none_field & Hnew).
  apply bind_Ok in Hnew as (city & ->%cell_or_none_field & Hnew).
  apply bind_Ok in Hnew as (state & ->%cell_or_none_field & Hnew).
  apply bind_Ok in Hnew as (zip & ->%cell_or_none_field & Hnew).
  apply bind_Ok in Hnew as (address & ->%cell_or_none_field & Hnew).
  injection Hnew as <-. split_and!; try done. by intros [].
Qed.

Lemma update_organisation_Ok (existing o : Organisation.t) (row : Row) (lat lon : option float) :
  update_organisation existing row lat lon = Ok o →
  Organisation.organisationId o = Organisation.organisationId existing ∧
  (∀ f, text_get f o = or_ (text_get f existing) (or_none (field row (text_col f)))) ∧
  Organisation.latitude o = fill_float (Organisation.latitude existing) lat ∧
  Organisation.longitude o = fill_float (Organisation.longitude existing) lon.
Proof.
  unfold update_organisation. intros Hupd.
  apply bind_Ok in Hupd as (name & ->%fill_Ok & Hupd).
  apply bind_Ok in Hupd as (street & ->%fill_Ok & Hupd).
  apply bind_Ok in Hupd as (city & ->%fill_Ok & Hupd).
  apply bind_Ok in Hupd as (state & ->%fill_Ok & Hupd).
  apply bind_Ok in Hupd as (zip & ->%fill_Ok & Hupd).
  apply bind_Ok in Hupd as (address & ->%fill_Ok & Hupd).
  injection Hupd as <-. split_and!; try done. by intros [].
Qed.

Lemma organisation_eq (o o' : Organisation.t) :
  Organisation.organisationId o = Organisation.organisationId o' →
  (∀ f, text_get f o = text_get f o') →
  (∀ c, coord_get c o = coord_get c o') →
  o = o'.
Proof.
  destruct o, o'. simpl. intros -> Ht Hc.
  pose proof (Ht Name). pose proof (Ht Street). pose proof (Ht City).
  pose proof (Ht StateProvince). pose proof (Ht ZipPostalCode).
  pose proof (Ht FormattedAddress). pose proof (Hc Latitude). pose proof (Hc Longitude).
  simpl in *. congruence.
Qed.

Lemma store_organisation_Ok (orgs orgs' : gmap string Organisation.t) (k : string)
    (row : Row) (lat lon : option float) :
  store_organisation orgs k row lat lon = Ok orgs' →
  ∃ o, orgs' = <[k := o]> orgs ∧
       match orgs !! k with
       | None => new_organisation k row lat lon = Ok o
       | Some existing => update_organisation existing row lat lon = Ok o
       end.
Proof.
  unfold store_organisation. destruct (orgs !! k) as [existing |].
  - intros (o & Ho & [= <-])%bind_Ok. eauto.
  - intros (o & Ho & [= <-])%bind_Ok. eauto.
Qed.

(** What one processed row does to the organisations. *)
Lemma process_row_organisations (st st' : State) (row : Row) :
  process_row st row = Ok st' → skip row = false →
  ∃ o, organisations st' = <[organisation_key row := o]> (organisations st) ∧
       o = match organisations st !! organisation_key row with
           | None => contribution row
           | Some existing => merge existing (contribution row)
           end.
Proof.
  intros Hrun Hskip.
  destruct (process_row_Ok _ _ _ Hrun Hskip) as (_ & _ & _ & _ & _ & Horg & _).
  apply store_organisation_Ok in Horg as (o & -> & Ho). exists o. split; [done |].
  destruct (organisations st !! organisation_key row) as [existing |].
  - apply update_organisation_Ok in Ho as (Hid & Ht & Hlat & Hlon).
    apply organisation_eq; [done | |].
    + intros f. rewrite Ht. by destruct f.
    + by intros [].
  - apply new_organisation_Ok in Ho as (Hid & Ht & Hlat & Hlon).
    apply organisation_eq; [done | |].
    + intros f. rewrite Ht. by destruct f.
    + by intros [].
Qed.

Lemma process_row_organisations_other (st st' : State) (row : Row) (k : string) :
  process_row st row = Ok st' → (skip row = false → organisation_key row ≠ k) →
  organisations st' !! k = organisations st !! k.
Proof.
  intros Hrun Hk. destruct (skip row) eqn:Hskip.
  - rewrite process_row_skip in Hrun by done. by injection Hrun as <-.
  - destruct (process_row_organisations _ _ _ Hrun Hskip) as (o & -> & _).
    apply lookup_insert_ne. by apply Hk.
Qed.

(** A row whose coordinate cells are strings is parsed without an
    exception. *)
Lemma parse_coordinates_total (row : Row) (lat_cell lon_cell : string) :
  get row Col.latitude (Some "") = Some lat_cell →
  get row Col.longitude (Some "") = Some lon_cell →
  ∃ p, parse_coordinates row = Ok p.
Proof.
  intros Hlat Hlon. unfold parse_coordinates, cell, to_float. rewrite Hlat, Hlon. simpl.
  destruct (nonempty (strip lat_cell)); [destruct (float_of_str (strip lat_cell)) |];
    simpl; eauto;
    (destruct (nonempty (strip lon_cell)); [destruct (float_of_str (strip lon_cell)) |]);
    simpl; eauto.
Qed.

End StoreOrganisation.

(** C10.  Parsing the latitude and longitude strings of a row raises no
    exception; when the latitude string is non-blank and [float] rejects it,
    both coordinates of the row are absent, whatever the longitude string is,
    and the row adds no coordinate to its organisation: a new record has
    neither, an existing record keeps the two it had. *)
Theorem coordinate_failures_coupled `{PyFloat} (row : Row) (lat_cell lon_cell : string) :
  get row Col.latitude (Some "") = Some lat_cell →
  get row Col.longitude (Some "") = Some lon_cell →
  (∃ p, parse_coordinates row = Ok p) ∧
  (nonempty (strip lat_cell) = true → float_of_str (strip lat_cell) = None →
   parse_coordinates row = Ok (None, None) ∧
   ∀ st st', process_row st row = Ok st' → skip row = false →
     ∃ o, organisations st' !! organisation_key row = Some o ∧
          match organisations st !! organisation_key row with
          | None => Organisation.latitude o = None ∧ Organisation.longitude o = None
          | Some existing =>
              Organisation.latitude o = Organisation.latitude existing ∧
              Organisation.longitude o = Organisation.longitude existing
          end).
Proof.
  intros Hlat Hlon. split; [by eapply parse_coordinates_total |].
  intros Hne Hbad.
  assert (Hparse : parse_coordinates row = Ok (None, None)).
  { unfold parse_coordinates, cell, to_float. rewrite Hlat, Hlon. simpl.
    by rewrite Hne, Hbad. }
  split; [done |]. intros st st' Hrun Hskip.
  destruct (process_row_organisations _ _ _ Hrun Hskip) as (o & -> & Ho).
  exists o. split; [apply lookup_insert_eq |].
  assert (Hc : coordinates row = (None, None)) by (unfold coordinates; by rewrite Hparse).
  destruct (organisations st !! organisation_key row) as [existing |]; subst o; simpl;
    rewrite Hc; simpl; [| done].
  unfold fill_float. simpl. by rewrite !andb_false_r.
Qed.

Lemma coordinate_failures_coupled_witness :
  parse_coordinates Example.bad_latitude = Ok (None, None) ∧
  ∃ st st' : State,
    process_csv [Example.acme_street] = Ok st ∧
    process_row st Example.bad_latitude = Ok st' ∧
    ∃ o o', organisations st !! "ACME" = Some o ∧ organisations st' !! "ACME" = Some o' ∧
            Organisation.longitude o' = Organisation.longitude o.
Proof.
  destruct (coordinate_failures_coupled Example.bad_latitude "n/a" "144.96") as [_ Hbad];
    [vm_compute; reflexivity | vm_compute; reflexivity |].
  destruct Hbad as [Hparse Hrow]; [vm_compute; reflexivity | vm_compute; reflexivity |].
  split; [exact Hparse |].
  destruct (process_csv_snoc_is_ok [Example.acme_street] Example.bad_latitude)
    as (st & st' & Hst & Hst'); [vm_compute; reflexivity |].
  exists st, st'. split; [done |]. split; [done |].
  destruct (Hrow st st' Hst') as (o' & Ho' & Hkeep); [vm_compute; reflexivity |].
  change (organisation_key Example.bad_latitude) with "ACME" in *.
  destruct (organisations st !! "ACME") as [o |] eqn:Ho.
  - exists o, o'. destruct Hkeep as [_ Hlon]. split; [reflexivity |]. split; [exact Ho' | exact Hlon].
  - exfalso.
    assert (Hsome : is_ok (st0 ← process_csv [Example.acme_street];
              if decide (is_Some (organisations st0 !! "ACME")) then Ok () else Raise ValueError)
            = true) by (vm_compute; reflexivity).
    rewrite Hst in Hsome. simpl in Hsome. rewrite Ho in Hsome. by case_decide as Hd; [destruct Hd |].
Defined.

(** ** Capabilities and the carry-forward slots *)

Section Capabilities.
Context `{PyFloat}.

Lemma process_row_capabilities (st st' : State) (row : Row) :
  process_row st row = Ok st' → skip row = false →
  capabilities st' =
    if nonempty (field row Col.organisation_capability)
    then capabilities st ++
         [capability_of row (current_detailed_item_id st') (current_sector_mapping_id st')]
    else capabilities st.
Proof.
  intros Hrun Hskip.
  destruct (process_row_Ok _ _ _ Hrun Hskip) as (_ & _ & _ & _ & _ & _ & Hcap).
  unfold store_capability in Hcap.
  apply bind_Ok in Hcap as (label & Hlabel & Hcap).
  rewrite (cell_field _ _ _ Hlabel). destruct (nonempty label); [| by injection Hcap].
  apply bind_Ok in Hcap as (ctype & ->%cell_or_none_field & Hcap).
  injection Hcap as <-. unfold capability_of. by rewrite (cell_field _ _ _ Hlabel).
Qed.

Lemma process_row_detailed_slot (st st' : State) (row : Row) :
  process_row st row = Ok st' →
  current_detailed_item_id st' =
    from_option Some (current_detailed_item_id st) (detailed_group row).
Proof.
  intros Hrun. unfold detailed_group. destruct (skip row) eqn:Hskip.
  - rewrite process_row_skip in Hrun by done. by injection Hrun as <-.
  - destruct (process_row_Ok _ _ _ Hrun Hskip) as (_ & -> & _).
    unfold next_detailed_item_id. by destruct (opens_group _).
Qed.

Lemma process_row_sector_slot (st st' : State) (row : Row) :
  process_row st row = Ok st' →
  current_sector_mapping_id st' =
    from_option Some (current_sector_mapping_id st) (sector_group row).
Proof.
  intros Hrun. unfold sector_group. destruct (skip row) eqn:Hskip.
  - rewrite process_row_skip in Hrun by done. by injection Hrun as <-.
  - destruct (process_row_Ok _ _ _ Hrun Hskip) as (_ & _ & _ & -> & _).
    unfold next_sector_mapping_id, or_none. by destruct (nonempty _).
Qed.

End Capabilities.

(** C4 (counterexample).  After a row that opens group A, a row whose
    detailed-item cell is the sentinel and that carries an organisation id, a
    capability label and a sector id appends a Capability and moves the
    sector slot from A to B. *)
Lemma subtotal_row_appends_capability :
  detailed_raw Example.subtotal = Subtotal ∧
  ∃ st st' : State,
    process_csv [Example.group_a] = Ok st ∧ process_row st Example.subtotal = Ok st' ∧
    length (capabilities st) = 1 ∧ length (capabilities st') = 2 ∧
    current_sector_mapping_id st = Some "A" ∧ current_sector_mapping_id st' = Some "B".
Proof.
  split; [vm_compute; reflexivity |].
  apply (process_csv_snoc_eval [Example.group_a] Example.subtotal
           (λ st st', _ ∧ _ ∧ _ ∧ _)).
  vm_compute. by split_and!.
Qed.

(** C4 (amended).  A row whose detailed-item cell equals the sentinel never
    resets or advances the detailed-item slot and registers no DetailedItem.
    When its organisation id is blank the row changes nothing at all.
    Otherwise its sector cell, when not blank, becomes the value of the sector
    slot, and a blank sector cell leaves that slot as it was; and the row
    appends exactly one Capability when its capability label is not blank,
    built from the row, the detailed-item slot as it was and the sector slot
    as it now is, and appends nothing when the label is blank. *)
Theorem subtotal_row_keeps_detailed_slot `{PyFloat} (st st' : State) (row : Row) :
  process_row st row = Ok st' → detailed_raw row = Subtotal →
  current_detailed_item_id st' = current_detailed_item_id st ∧
  detailed_items st' = detailed_items st ∧
  (skip row = true → st' = st) ∧
  (skip row = false →
     current_sector_mapping_id st' =
       (if nonempty (field row Col.sector_mapping_id)
        then Some (field row Col.sector_mapping_id)
        else current_sector_mapping_id st) ∧
     capabilities st' =
       (if nonempty (field row Col.organisation_capability)
        then capabilities st ++
             [capability_of row (current_detailed_item_id st) (current_sector_mapping_id st')]
        else capabilities st)).
Proof.
  intros Hrun Hraw. destruct (skip row) eqn:Hskip.
  - rewrite process_row_skip in Hrun by done. by injection Hrun as <-.
  - pose proof (process_row_capabilities _ _ _ Hrun Hskip) as Hcap.
    destruct (process_row_Ok _ _ _ Hrun Hskip) as (_ & Hslot & Hdet & Hsec & _).
    rewrite Hraw in Hslot, Hdet.
    assert (Hslot' : current_detailed_item_id st' = current_detailed_item_id st) by done.
    split_and!; try done. intros _. split; [exact Hsec |]. by rewrite <- Hslot'.
Qed.

Lemma subtotal_row_keeps_detailed_slot_witness :
  ∃ st st' : State,
    process_csv [Example.group_a] = Ok st ∧ process_row st Example.subtotal = Ok st' ∧
    current_detailed_item_id st' = current_detailed_item_id st ∧
    current_sector_mapping_id st' = Some "B" ∧
    length (capabilities st') = S (length (capabilities st)).
Proof.
  destruct (process_csv_snoc_is_ok [Example.group_a] Example.subtotal)
    as (st & st' & Hst & Hst'); [vm_compute; reflexivity |].
  exists st, st'. split; [done |]. split; [done |].
  destruct (subtotal_row_keeps_detailed_slot st st' Example.subtotal Hst')
    as (Hslot & _ & _ & Hrow); [vm_compute; reflexivity |].
  destruct Hrow as [Hsector Hcaps]; [vm_compute; reflexivity |].
  split; [exact Hslot |]. split.
  - rewrite Hsector. vm_compute; reflexivity.
  - rewrite Hcaps.
    replace (nonempty (field Example.subtotal Col.organisation_capability)) with true
      by (vm_compute; reflexivity).
    rewrite length_app. simpl. lia.
Defined.

(** ** The pass as a fold *)

Lemma last_omap_cons {A B} (f : A → option B) (x : A) (l : list A) :
  last (omap f (x :: l)) = match last (omap f l) with Some y => Some y | None => f x end.
Proof.
  change (omap f (x :: l)) with (match f x with Some y => y :: omap f l | None => omap f l end).
  destruct (f x) as [y |]; [| by destruct (last (omap f l))].
  rewrite last_cons. by destruct (last (omap f l)).
Qed.

Section Pass.
Context `{PyFloat}.

(** A property every iteration preserves holds at the end of the pass. *)
Lemma process_rows_invariant (I : State → Prop) (P : Row → Prop) :
  (∀ st row st', P row → I st → process_row st row = Ok st' → I st') →
  ∀ rows st st', Forall P rows → I st → process_rows st rows = Ok st' → I st'.
Proof.
  intros Hstep rows. induction rows as [| row rows IH]; intros st st' HP HI Hrun.
  - by injection Hrun as <-.
  - apply process_rows_cons in Hrun as (st1 & Hrow & Hrun).
    apply Forall_cons in HP as [HProw HP]. eauto.
Qed.

Lemma process_rows_detailed_slot (rows : list Row) (st st' : State) :
  process_rows st rows = Ok st' →
  current_detailed_item_id st' =
    from_option Some (current_detailed_item_id st) (last (omap detailed_group rows)).
Proof.
  revert st. induction rows as [| row rows IH]; intros st Hrun.
  - by injection Hrun as <-.
  - apply process_rows_cons in Hrun as (st1 & Hrow & Hrun).
    rewrite (IH _ Hrun), last_omap_cons, (process_row_detailed_slot _ _ _ Hrow).
    by destruct (last (omap detailed_group rows)).
Qed.

Lemma process_rows_sector_slot (rows : list Row) (st st' : State) :
  process_rows st rows = Ok st' →
  current_sector_mapping_id st' =
    from_option Some (current_sector_mapping_id st) (last (omap sector_group rows)).
Proof.
  revert st. induction rows as [| row rows IH]; intros st Hrun.
  - by injection Hrun as <-.
  - apply process_rows_cons in Hrun as (st1 & Hrow & Hrun).
    rewrite (IH _ Hrun), last_omap_cons, (process_row_sector_slot _ _ _ Hrow).
    by destruct (last (omap sector_group rows)).
Qed.

Lemma detailed_group_nonempty (row : Row) (x : string) :
  detailed_group row = Some x → nonempty x = true.
Proof.
  unfold detailed_group, opens_group. destruct (skip row); [done |].
  destruct (nonempty (detailed_raw row)) eqn:E; simpl; [| done].
  case_bool_decide; simpl; [done |]. by intros [= <-].
Qed.

Lemma sector_group_nonempty (row : Row) (x : string) :
  sector_group row = Some x → nonempty x = true.
Proof.
  unfold sector_group. destruct (skip row); [done |]. by intros [_ ?]%or_none_Some.
Qed.

Lemma last_omap_nonempty (g : Row → option string) (rows : list Row) :
  (∀ row x, g row = Some x → nonempty x = true) →
  if_else_none (last (omap g rows)) = last (omap g rows).
Proof.
  intros Hg. destruct (last (omap g rows)) as [x |] eqn:E; [| done].
  apply last_Some_elem_of, list_elem_of_omap in E as (row & _ & Hrow).
  unfold if_else_none. simpl. by rewrite (Hg _ _ Hrow).
Qed.

End Pass.

(** C6 (counterexample).  In the sector column the sentinel is an ordinary
    value: after a processed row whose sector cell is ["Subtotal"], a
    processed row with a blank sector cell resolves to ["Subtotal"], while no
    preceding row carries a non-blank, non-sentinel sector id. *)
Lemma sector_sentinel_carried_forward :
  field Example.blank Col.sector_mapping_id = "" ∧
  last (omap sector_group_no_sentinel [Example.sector_subtotal]) = None ∧
  ∃ st st' : State,
    process_csv [Example.sector_subtotal] = Ok st ∧ process_row st Example.blank = Ok st' ∧
    current_sector_mapping_id st' = Some "Subtotal" ∧
    Capability.sectorMappingId <$> capabilities st' = [Some "Subtotal"].
Proof.
  split; [vm_compute; reflexivity |]. split; [vm_compute; reflexivity |].
  apply (process_csv_snoc_eval [Example.sector_subtotal] Example.blank (λ st st', _ ∧ _)).
  vm_compute. by split_and!.
Qed.

(** C6 (amended).  For a processed row whose detailed-item cell is blank, the
    detailed-item id in effect is the cell of the nearest preceding processed
    row whose cell is neither blank nor the sentinel, and null when there is
    none; for a processed row whose sector cell is blank, the sector id in
    effect is the cell of the nearest preceding processed row whose cell is
    not blank (the sentinel is not special in that column), and null when
    there is none.  A Capability the row appends carries these values.  For
    the rows [A, blank, blank, B] the Capabilities carry A, A, A and B in
    both columns. *)
Theorem carry_forward_resolution `{PyFloat} (pre : list Row) (row : Row) (st st' : State) :
  process_csv pre = Ok st → process_row st row = Ok st' → skip row = false →
  (detailed_raw row = "" →
     current_detailed_item_id st' = last (omap detailed_group pre)) ∧
  (field row Col.sector_mapping_id = "" →
     current_sector_mapping_id st' = last (omap sector_group pre)) ∧
  (nonempty (field row Col.organisation_capability) = true →
     ∃ c, capabilities st' = capabilities st ++ [c] ∧
          (detailed_raw row = "" →
             Capability.detailedItemId c = last (omap detailed_group pre)) ∧
          (field row Col.sector_mapping_id = "" →
             Capability.sectorMappingId c = last (omap sector_group pre))) ∧
  (∃ st4 : State (H := DecimalFloat.instance),
     process_csv [Example.group_a; Example.blank; Example.blank; Example.group_b] = Ok st4 ∧
     Capability.detailedItemId <$> capabilities st4
       = [Some "A"; Some "A"; Some "A"; Some "B"] ∧
     Capability.sectorMappingId <$> capabilities st4
       = [Some "A"; Some "A"; Some "A"; Some "B"]).
Proof.
  intros Hpre Hrow Hskip.
  pose proof (process_rows_detailed_slot _ _ _ Hpre) as Hd.
  pose proof (process_rows_sector_slot _ _ _ Hpre) as Hs. simpl in Hd, Hs.
  destruct (process_row_Ok _ _ _ Hrow Hskip) as (_ & Hd' & _ & Hs' & _).
  assert (Hdet : detailed_raw row = "" →
                 current_detailed_item_id st' = last (omap detailed_group pre)).
  { intros Hblank. rewrite Hd', Hblank. unfold next_detailed_item_id. simpl.
    rewrite Hd. by destruct (last (omap detailed_group pre)). }
  assert (Hsec : field row Col.sector_mapping_id = "" →
                 current_sector_mapping_id st' = last (omap sector_group pre)).
  { intros Hblank. rewrite Hs', Hblank. unfold next_sector_mapping_id. simpl.
    rewrite Hs. by destruct (last (omap sector_group pre)). }
  split_and!; try done;
    [| apply (process_csv_eval _ (λ st4, _ ∧ _)); vm_compute; by split_and!].
  intros Hlabel. pose proof (process_row_capabilities _ _ _ Hrow Hskip) as Hcap.
  rewrite Hlabel in Hcap. eexists. split; [exact Hcap |]. simpl. split.
  - intros Hblank. rewrite (Hdet Hblank).
    apply last_omap_nonempty, detailed_group_nonempty.
  - intros Hblank. rewrite (Hsec Hblank).
    apply last_omap_nonempty, sector_group_nonempty.
Qed.

Lemma carry_forward_resolution_witness :
  ∃ st st' : State,
    process_csv [Example.group_a; Example.blank] = Ok st ∧
    process_row st Example.blank = Ok st' ∧
    current_detailed_item_id st' = Some "A" ∧ current_sector_mapping_id st' = Some "A".
Proof.
  destruct (process_csv_snoc_is_ok [Example.group_a; Example.blank] Example.blank)
    as (st & st' & Hst & Hst'); [vm_compute; reflexivity |].
  exists st, st'. split; [done |]. split; [done |].
  destruct (carry_forward_resolution _ _ st st' Hst Hst') as (Hd & Hs & _);
    [vm_compute; reflexivity |].
  split.
  - rewrite Hd by (vm_compute; reflexivity). vm_compute; reflexivity.
  - rewrite Hs by (vm_compute; reflexivity). vm_compute; reflexivity.
Defined.

(** C8 (counterexample).  Group A is registered as ("Foo", I1), group B
    interrupts it, and A reappears on a row with the name "Foo renamed" and
    item I2: the slot moves back to A, and the entry of A is replaced. *)
Lemma reopened_group_overwrites_entry :
  ∃ st st' : State,
    process_csv [Example.group_a; Example.group_b] = Ok st ∧
    process_row st Example.group_a_again = Ok st' ∧
    current_detailed_item_id st = Some "B" ∧
    detailed_items st !! "A" =
      Some {| DetailedItem.detailedItemName := "Foo"; DetailedItem.itemId := Some "I1" |} ∧
    current_detailed_item_id st' = Some "A" ∧
    detailed_items st' !! "A" =
      Some {| DetailedItem.detailedItemName := "Foo renamed";
              DetailedItem.itemId := Some "I2" |}.
Proof.
  apply (process_csv_snoc_eval [Example.group_a; Example.group_b] Example.group_a_again
           (λ st st', _ ∧ _ ∧ _ ∧ _)).
  vm_compute. by split_and!.
Qed.

(** C8 (amended).  A processed row whose detailed-item cell is a non-blank,
    non-sentinel identifier moves the carry-forward slot to that identifier,
    whether or not the identifier was seen before, and a following row with a
    blank cell keeps it.  The registration is a no-op when the row's
    detailed-item name is blank; with a non-blank name the entry of the
    identifier becomes the row's name and item id, replacing what was
    registered. *)
Theorem reopened_group_registration `{PyFloat} (st st' : State) (row : Row) (id : string) :
  process_row st row = Ok st' → skip row = false →
  detailed_raw row = id → opens_group id = true →
  current_detailed_item_id st' = Some id ∧
  (∀ row2 st2, process_row st' row2 = Ok st2 → detailed_raw row2 = "" →
     current_detailed_item_id st2 = Some id) ∧
  detailed_items st' !! id =
    (if nonempty (field row Col.detailed_item_name)
     then Some {| DetailedItem.detailedItemName := field row Col.detailed_item_name;
                  DetailedItem.itemId := or_none (field row Col.item_id) |}
     else detailed_items st !! id) ∧
  (∀ id', id' ≠ id → detailed_items st' !! id' = detailed_items st !! id').
Proof.
  intros Hrow Hskip Hraw Hopen.
  destruct (process_row_Ok _ _ _ Hrow Hskip) as (_ & Hslot & Hdet & _).
  rewrite Hraw in Hslot, Hdet.
  unfold next_detailed_item_id in Hslot. rewrite Hopen in Hslot.
  unfold store_detailed_item in Hdet. rewrite Hopen in Hdet. simpl in Hdet.
  split_and!.
  - done.
  - intros row2 st2 Hrow2 Hblank.
    rewrite (process_row_detailed_slot _ _ _ Hrow2), Hslot.
    unfold detailed_group. rewrite Hblank. by destruct (skip row2).
  - rewrite Hdet. destruct (nonempty _); [apply lookup_insert_eq | done].
  - intros id' Hne. rewrite Hdet. destruct (nonempty _); [| done].
    by apply lookup_insert_ne.
Qed.

Lemma reopened_group_registration_witness :
  ∃ st st' : State,
    process_csv [Example.group_a; Example.group_b] = Ok st ∧
    process_row st Example.group_a_again = Ok st' ∧
    current_detailed_item_id st' = Some "A".
Proof.
  destruct (process_csv_snoc_is_ok [Example.group_a; Example.group_b] Example.group_a_again)
    as (st & st' & Hst & Hst'); [vm_compute; reflexivity |].
  exists st, st'. split; [done |]. split; [done |].
  apply (reopened_group_registration st st' Example.group_a_again "A" Hst');
    vm_compute; reflexivity.
Defined.

(** ** Items and sectors *)

Section Names.
Context `{PyFloat}.

Lemma process_row_items (st st' : State) (row : Row) (k : string) :
  process_row st row = Ok st' →
  items st' !! k = from_option Some (items st !! k) (item_write k row).
Proof.
  intros Hrun. unfold item_write. destruct (skip row) eqn:Hskip.
  - rewrite process_row_skip in Hrun by done. by injection Hrun as <-.
  - destruct (process_row_Ok _ _ _ Hrun Hskip) as (-> & _).
    unfold store_item. case_bool_decide as Hk; simpl.
    + destruct (_ && _); simpl; [| done]. subst k. apply lookup_insert_eq.
    + destruct (_ && _); simpl; [| done]. by apply lookup_insert_ne.
Qed.

Lemma process_rows_items (rows : list Row) (st st' : State) (k : string) :
  process_rows st rows = Ok st' →
  items st' !! k = from_option Some (items st !! k) (last (omap (item_write k) rows)).
Proof.
  revert st. induction rows as [| row rows IH]; intros st Hrun.
  - by injection Hrun as <-.
  - apply process_rows_cons in Hrun as (st1 & Hrow & Hrun).
    rewrite (IH _ Hrun), last_omap_cons, (process_row_items _ _ _ _ Hrow).
    by destruct (last (omap (item_write k) rows)).
Qed.

Lemma process_rows_sectors (rows : list Row) (st st' : State) (k : string) :
  process_rows st rows = Ok st' →
  sectors st' !! k =
    from_option Some (sectors st !! k)
      (last (omap (write_to k) (sector_writes (current_sector_mapping_id st) rows))).
Proof.
  revert st. induction rows as [| row rows IH]; intros st Hrun.
  - by injection Hrun as <-.
  - apply process_rows_cons in Hrun as (st1 & Hrow & Hrun).
    rewrite (IH _ Hrun). simpl. destruct (skip row) eqn:Hskip.
    + rewrite process_row_skip in Hrow by done. by injection Hrow as <-.
    + destruct (process_row_Ok _ _ _ Hrow Hskip) as (_ & _ & _ & Hslot & Hsec & _).
      rewrite <- Hslot, Hsec. unfold store_sector.
      destruct (current_sector_mapping_id st1) as [i |]; [| done].
      destruct (nonempty i && nonempty _); [| done].
      rewrite last_omap_cons.
      destruct (last (omap (write_to k) _)); [done |].
      unfold write_to. simpl. case_bool_decide as Hk; simpl.
      * subst k. apply lookup_insert_eq.
      * by apply lookup_insert_ne.
Qed.

End Names.

(** C2 (counterexample).  Item I1 is named "Widget" and then "Gadget", sector
    S1 "Mining" and then "Defence": the collections end with the later
    names. *)
Lemma later_name_replaces_first :
  ∃ st : State,
    process_csv [Example.widget; Example.gadget] = Ok st ∧
    items st !! "I1" = Some "Gadget" ∧ sectors st !! "S1" = Some "Defence".
Proof.
  apply (process_csv_eval [Example.widget; Example.gadget] (λ st, _ ∧ _)).
  vm_compute. by split.
Qed.

(** C2 (amended).  Item and sector names are last-write-wins.  After a pass,
    Items maps an item id to the name on the last processed row that carries
    that id together with a non-blank name, and Sectors maps a sector id to
    the non-blank sector name of the last processed row whose resolved
    (carried-forward) sector id is that id; earlier names are replaced. *)
Theorem names_last_write_wins `{PyFloat} (rows : list Row) (st : State) (k : string) :
  process_csv rows = Ok st →
  items st !! k = last (omap (item_write k) rows) ∧
  sectors st !! k = last (omap (write_to k) (sector_writes None rows)).
Proof.
  intros Hrun. split.
  - rewrite (process_rows_items _ _ _ k Hrun). simpl. rewrite lookup_empty.
    by destruct (last _).
  - rewrite (process_rows_sectors _ _ _ k Hrun). simpl. rewrite lookup_empty.
    by destruct (last _).
Qed.

Lemma names_last_write_wins_witness :
  ∃ st : State,
    process_csv [Example.widget; Example.gadget] = Ok st ∧
    items st !! "I1" = Some "Gadget" ∧ sectors st !! "S1" = Some "Defence".
Proof.
  destruct (process_csv_is_ok [Example.widget; Example.gadget]) as [st Hst];
    [vm_compute; reflexivity |].
  exists st. split; [done |].
  destruct (names_last_write_wins _ st "I1" Hst) as [-> _].
  destruct (names_last_write_wins _ st "S1" Hst) as [_ ->].
  split; vm_compute; reflexivity.
Defined.

(** ** References from capabilities *)

Section References.
Context `{PyFloat}.

(** A capability of the final list was there at the start or was built
    from one of the processed rows. *)
Lemma process_rows_capabilities_from (rows : list Row) (st st' : State) (c : Capability.t) :
  process_rows st rows = Ok st' → c ∈ capabilities st' →
  c ∈ capabilities st ∨
  ∃ row d s, row ∈ rows ∧ skip row = false ∧ c = capability_of row d s.
Proof.
  revert st. induction rows as [| row rows IH]; intros st Hrun Hc.
  - injection Hrun as <-. by left.
  - apply process_rows_cons in Hrun as (st1 & Hrow & Hrun).
    destruct (IH _ Hrun Hc) as [Hc1 | (row' & d & s & Hin & Hskip & ->)].
    + destruct (skip row) eqn:Hskip.
      * rewrite process_row_skip in Hrow by done. injection Hrow as <-. by left.
      * rewrite (process_row_capabilities _ _ _ Hrow Hskip) in Hc1.
        destruct (nonempty _); [| by left].
        apply elem_of_app in Hc1 as [Hc1 | ->%list_elem_of_singleton]; [by left |].
        right. exists row. eexists _, _. split; [left | done].
    + right. exists row', d, s. split; [by right | done].
Qed.



Lemma process_row_capabilities_have_organisation (st : State) (row : Row) (st' : State) :
  True → capabilities_have_organisation st → process_row st row = Ok st' →
  capabilities_have_organisation st'.
Proof.
  intros _ Hinv Hrow. destruct (skip row) eqn:Hskip.
  - rewrite process_row_skip in Hrow by done. by injection Hrow as <-.
  - destruct (process_row_organisations _ _ _ Hrow Hskip) as (o & Horgs & _).
    intros c. rewrite (process_row_capabilities _ _ _ Hrow Hskip), Horgs.
    rewrite lookup_insert_is_Some'. destruct (nonempty _).
    + intros [Hc | ->%list_elem_of_singleton]%elem_of_app; [right; by apply Hinv | by left].
    + intros Hc. right. by apply Hinv.
Qed.

Lemma process_row_capabilities_have_item (st : State) (row : Row) (st' : State) :
  item_named row = true → capabilities_have_item st → process_row st row = Ok st' →
  capabilities_have_item st'.
Proof.
  intros Hnamed Hinv Hrow. destruct (skip row) eqn:Hskip.
  - rewrite process_row_skip in Hrow by done. by injection Hrow as <-.
  - destruct (process_row_Ok _ _ _ Hrow Hskip) as (Hitems & _).
    unfold item_named in Hnamed. rewrite Hskip in Hnamed. simpl in Hnamed.
    assert (Hmono : ∀ i, is_Some (items st !! i) → is_Some (items st' !! i)).
    { intros i Hi. rewrite Hitems. unfold store_item. destruct (_ && _); [| done].
      rewrite lookup_insert_is_Some'. by right. }
    intros c i. rewrite (process_row_capabilities _ _ _ Hrow Hskip).
    destruct (nonempty (field row Col.organisation_capability)); [| by eauto].
    intros [Hc | ->%list_elem_of_singleton]%elem_of_app; [by eauto |].
    unfold capability_of. simpl. intros [<- Hne]%or_none_Some.
    rewrite Hne in Hnamed. simpl in Hnamed.
    rewrite Hitems. unfold store_item. rewrite Hne, Hnamed. simpl.
    rewrite lookup_insert_eq. by eexists.
Qed.

Lemma if_else_none_Some (v : option string) (x : string) :
  if_else_none v = Some x → v = Some x.
Proof. unfold if_else_none. by destruct (truthy v). Qed.

Lemma process_row_capabilities_have_detailed_item (st : State) (row : Row) (st' : State) :
  detailed_named row = true → capabilities_have_detailed_item st →
  process_row st row = Ok st' → capabilities_have_detailed_item st'.
Proof.
  intros Hnamed [Hcaps Hslot] Hrow. destruct (skip row) eqn:Hskip.
  - rewrite process_row_skip in Hrow by done. by injection Hrow as <-.
  - destruct (process_row_Ok _ _ _ Hrow Hskip) as (_ & Hslot' & Hdet & _).
    unfold detailed_named in Hnamed. rewrite Hskip in Hnamed. simpl in Hnamed.
    assert (Hmono : ∀ d, is_Some (detailed_items st !! d) →
                         is_Some (detailed_items st' !! d)).
    { intros d Hd. rewrite Hdet. unfold store_detailed_item. destruct (_ && _); [| done].
      rewrite lookup_insert_is_Some'. by right. }
    assert (Hnew : ∀ d, current_detailed_item_id st' = Some d →
                        is_Some (detailed_items st' !! d)).
    { intros d. rewrite Hslot', Hdet. unfold next_detailed_item_id, store_detailed_item.
      destruct (opens_group (detailed_raw row)); simpl in *.
      - rewrite Hnamed. intros [= <-]. rewrite lookup_insert_eq. by eexists.
      - apply Hslot. }
    split; [| done].
    intros c d. rewrite (process_row_capabilities _ _ _ Hrow Hskip).
    destruct (nonempty (field row Col.organisation_capability)); [| by eauto].
    intros [Hc | ->%list_elem_of_singleton]%elem_of_app; [by eauto |].
    unfold capability_of. simpl. intros ?%if_else_none_Some. by apply Hnew.
Qed.

Lemma process_row_capabilities_have_sector (st : State) (row : Row) (st' : State) :
  sector_named row = true → capabilities_have_sector st →
  process_row st row = Ok st' → capabilities_have_sector st'.
Proof.
  intros Hnamed [Hcaps Hslot] Hrow. destruct (skip row) eqn:Hskip.
  - rewrite process_row_skip in Hrow by done. by injection Hrow as <-.
  - destruct (process_row_Ok _ _ _ Hrow Hskip) as (_ & _ & _ & Hslot' & Hsec & _).
    unfold sector_named in Hnamed. rewrite Hskip in Hnamed. simpl in Hnamed.
    assert (Hmono : ∀ s, is_Some (sectors st !! s) → is_Some (sectors st' !! s)).
    { intros s Hs. rewrite Hsec. unfold store_sector.
      destruct (current_sector_mapping_id st') as [i |]; [| done].
      destruct (_ && _); [| done]. rewrite lookup_insert_is_Some'. by right. }
    assert (Hnew : ∀ s, current_sector_mapping_id st' = Some s →
                        is_Some (sectors st' !! s)).
    { intros s Hs. rewrite Hsec, Hs. unfold store_sector.
      rewrite Hslot' in Hs. unfold next_sector_mapping_id in Hs.
      destruct (nonempty (field row Col.sector_mapping_id)) eqn:Hne; simpl in *.
      - injection Hs as <-. rewrite Hne, Hnamed. simpl.
        rewrite lookup_insert_eq. by eexists.
      - destruct (_ && _); [| by apply Hslot].
        rewrite lookup_insert_is_Some'. right. by apply Hslot. }
    split; [| done].
    intros c s. rewrite (process_row_capabilities _ _ _ Hrow Hskip).
    destruct (nonempty (field row Col.organisation_capability)); [| by eauto].
    intros [Hc | ->%list_elem_of_singleton]%elem_of_app; [by eauto |].
    unfold capability_of. simpl. intros ?%if_else_none_Some. by apply Hnew.
Qed.

(** What one iteration and a pass do to the keys of DetailedItems. *)
Lemma process_row_detailed_items_dom (st st' : State) (row : Row) (d : string) :
  process_row st row = Ok st' →
  is_Some (detailed_items st' !! d) ↔
  is_Some (detailed_items st !! d) ∨
  (detailed_group row = Some d ∧ nonempty (field row Col.detailed_item_name) = true).
Proof.
  intros Hrow. unfold detailed_group. destruct (skip row) eqn:Hskip.
  - rewrite process_row_skip in Hrow by done. injection Hrow as <-.
    split; [by left | by intros [? | [[=] _]]].
  - destruct (process_row_Ok _ _ _ Hrow Hskip) as (_ & _ & -> & _).
    unfold store_detailed_item.
    destruct (opens_group (detailed_raw row)) eqn:Hopen; simpl.
    + destruct (nonempty (field row Col.detailed_item_name)) eqn:Hname.
      * rewrite lookup_insert_is_Some'. split.
        -- intros [<- | ?]; [by right | by left].
        -- intros [? | [[= <-] _]]; [by right | by left].
      * split; [by left | by intros [? | [_ [=]]]].
    + split; [by left | by intros [? | [[=] _]]].
Qed.

Lemma process_rows_detailed_items_dom (rows : list Row) (st st' : State) (d : string) :
  process_rows st rows = Ok st' →
  is_Some (detailed_items st' !! d) ↔
  is_Some (detailed_items st !! d) ∨
  ∃ row, row ∈ rows ∧ detailed_group row = Some d ∧
         nonempty (field row Col.detailed_item_name) = true.
Proof.
  revert st. induction rows as [| row rows IH]; intros st Hrun.
  - injection Hrun as <-. split; [by left |].
    intros [? | (row & []%elem_of_nil & _)]; done.
  - apply process_rows_cons in Hrun as (st1 & Hrow & Hrun).
    rewrite (IH _ Hrun), (process_row_detailed_items_dom _ _ _ d Hrow). split.
    + intros [[? | [? ?]] | (row' & Hin & ? & ?)]; auto.
      * right. exists row. split; [left | done].
      * right. exists row'. split; [by right | done].
    + intros [? | (row' & Hin & ? & ?)]; auto.
      apply elem_of_cons in Hin as [-> | Hin]; [auto |]. right. eauto.
Qed.

Lemma last_omap_is_Some {A B} (g : A → option B) (l : list A) :
  is_Some (last (omap g l)) ↔ ∃ x, x ∈ l ∧ is_Some (g x).
Proof.
  split.
  - intros [y Hy]. apply last_Some_elem_of, list_elem_of_omap in Hy as (x & Hx & Hg).
    exists x. by rewrite Hg.
  - intros (x & Hx & [y Hy]). apply last_is_Some. intros Hnil.
    assert (Hin : y ∈ omap g l) by (apply list_elem_of_omap; eauto).
    rewrite Hnil in Hin. by apply elem_of_nil in Hin.
Qed.

Lemma item_write_is_Some (i : string) (row : Row) :
  nonempty i = true →
  is_Some (item_write i row) ↔
  skip row = false ∧ field row Col.item_id = i ∧ nonempty (field row Col.item_name) = true.
Proof.
  intros Hi. unfold item_write.
  destruct (skip row); [split; [by intros [? [=]] | by intros [[=] _]] |].
  case_bool_decide as Hk; simpl.
  - subst i. rewrite Hi. simpl. destruct (nonempty (field row Col.item_name)).
    + split; [done | by eexists].
    + split; [by intros [? [=]] | by intros (_ & _ & [=])].
  - split; [by intros [? [=]] | by intros (_ & ? & _)].
Qed.

Lemma write_to_is_Some (k : string) (ws : list (string * string)) :
  (∃ w, w ∈ ws ∧ is_Some (write_to k w)) ↔ ∃ name, (k, name) ∈ ws.
Proof.
  unfold write_to. split.
  - intros ([k' name] & Hin & Hw). simpl in Hw. case_bool_decide as Hk; [| by destruct Hw].
    subst k'. by exists name.
  - intros [name Hin]. exists (k, name). split; [done |]. simpl.
    by rewrite bool_decide_eq_true_2.
Qed.

End References.

(** C9 (counterexample).  A row with a capability label and an item id, a
    detailed-item id or a sector id, and without the name that goes with the
    id, appends a Capability that references the id, and the id is not a key
    of Items, of DetailedItems or of Sectors. *)
Lemma capability_ids_not_registered :
  (∃ st : State,
     process_csv [Example.unnamed_item] = Ok st ∧
     Capability.itemId <$> capabilities st = [Some "I9"] ∧
     items st !! "I9" = None) ∧
  (∃ st : State,
     process_csv [Example.unnamed_group] = Ok st ∧
     Capability.detailedItemId <$> capabilities st = [Some "D9"] ∧
     detailed_items st !! "D9" = None) ∧
  (∃ st : State,
     process_csv [Example.unnamed_sector] = Ok st ∧
     Capability.sectorMappingId <$> capabilities st = [Some "S9"] ∧
     sectors st !! "S9" = None).
Proof.
  split_and!.
  - apply (process_csv_eval [Example.unnamed_item] (λ st, _ ∧ _)).
    vm_compute. by split.
  - apply (process_csv_eval [Example.unnamed_group] (λ st, _ ∧ _)).
    vm_compute. by split.
  - apply (process_csv_eval [Example.unnamed_sector] (λ st, _ ∧ _)).
    vm_compute. by split.
Qed.

(** C9 (amended).  After a pass, every Capability was built from a processed
    row, and its organisationId is a key of Organisations.  A non-null itemId
    of a Capability is a key of Items exactly when some processed row carries
    that item id together with a non-blank item name; a non-null
    detailedItemId is a key of DetailedItems exactly when some processed row
    opens that group with a non-blank detailed-item name; a non-null
    sectorMappingId is a key of Sectors exactly when some processed row whose
    resolved sector id is that id carries a non-blank sector name. *)
Theorem capability_references `{PyFloat} (rows : list Row) (st : State) (c : Capability.t) :
  process_csv rows = Ok st → c ∈ capabilities st →
  (∃ row d s, row ∈ rows ∧ skip row = false ∧ c = capability_of row d s) ∧
  is_Some (organisations st !! Capability.organisationId c) ∧
  (∀ i, Capability.itemId c = Some i →
     (is_Some (items st !! i) ↔
      ∃ row, row ∈ rows ∧ skip row = false ∧ field row Col.item_id = i ∧
             nonempty (field row Col.item_name) = true)) ∧
  (∀ d, Capability.detailedItemId c = Some d →
     (is_Some (detailed_items st !! d) ↔
      ∃ row, row ∈ rows ∧ detailed_group row = Some d ∧
             nonempty (field row Col.detailed_item_name) = true)) ∧
  (∀ s, Capability.sectorMappingId c = Some s →
     (is_Some (sectors st !! s) ↔ ∃ name, (s, name) ∈ sector_writes None rows)).
Proof.
  intros Hrun Hc.
  destruct (process_rows_capabilities_from _ _ _ _ Hrun Hc)
    as [[]%elem_of_nil | (row0 & d0 & s0 & Hin0 & Hskip0 & Hc0)].
  split_and!.
  - by exists row0, d0, s0.
  - eapply (process_rows_invariant capabilities_have_organisation (λ _, True));
      [apply process_row_capabilities_have_organisation | | | exact Hrun | exact Hc].
    + by apply Forall_forall.
    + by intros c' ?%elem_of_nil.
  - intros i Hi.
    assert (Hne : nonempty i = true).
    { subst c. simpl in Hi. by apply or_none_Some in Hi as [_ ?]. }
    rewrite (process_rows_items _ _ _ i Hrun). simpl. rewrite lookup_empty.
    assert (Hlast : ∀ o : option string, is_Some (from_option Some None o) ↔ is_Some o)
      by (by intros [x |]).
    rewrite Hlast, last_omap_is_Some. split.
    + intros (row & Hin & Hw). exists row. split; [done |]. by apply item_write_is_Some.
    + intros (row & Hin & Hw). exists row. split; [done |]. by apply item_write_is_Some.
  - intros d _. rewrite (process_rows_detailed_items_dom _ _ _ d Hrun). simpl.
    rewrite lookup_empty. split; [intros [[? [=]] | ?]; done | by right].
  - intros s _. rewrite (process_rows_sectors _ _ _ s Hrun). simpl. rewrite lookup_empty.
    assert (Hlast : ∀ o : option string, is_Some (from_option Some None o) ↔ is_Some o)
      by (by intros [x |]).
    by rewrite Hlast, last_omap_is_Some, write_to_is_Some.
Qed.

Lemma capability_references_witness :
  ∃ st : State,
    process_csv [Example.group_a; Example.blank] = Ok st ∧
    ∀ c, c ∈ capabilities st →
      is_Some (organisations st !! Capability.organisationId c) ∧
      (Capability.itemId c = Some "I1" → is_Some (items st !! "I1")) ∧
      (Capability.detailedItemId c = Some "A" → is_Some (detailed_items st !! "A")) ∧
      (Capability.sectorMappingId c = Some "A" → is_Some (sectors st !! "A")).
Proof.
  destruct (process_csv_is_ok [Example.group_a; Example.blank]) as [st Hst];
    [vm_compute; reflexivity |].
  exists st. split; [done |]. intros c Hc.
  destruct (capability_references _ st c Hst Hc) as (_ & Horg & Hitem & Hdet & Hsec).
  split_and!; [done | | |].
  - intros Hi. apply (Hitem _ Hi). exists Example.group_a.
    split; [left |]. vm_compute. by split_and!.
  - intros Hd. apply (Hdet _ Hd). exists Example.group_a.
    split; [left |]. vm_compute. by split.
  - intros Hs. apply (Hsec _ Hs). exists "Mining". vm_compute. left.
Defined.



(** ** Merging the rows of an organisation *)

Section Merge.
Context `{PyFloat}.

Lemma merge_text (o c : Organisation.t) (f : text_field) :
  text_get f (merge o c) = or_ (text_get f o) (text_get f c).
Proof. by destruct f. Qed.

Lemma merge_coord (o c : Organisation.t) (x : coord_field) :
  coord_get x (merge o c) = fill_float (coord_get x o) (coord_get x c).
Proof. by destruct x. Qed.

Lemma contribution_text (row : Row) (f : text_field) :
  text_get f (contribution row) = or_none (field row (text_col f)).
Proof. by destruct f. Qed.

Lemma contribution_text_nonempty (row : Row) : text_nonempty (contribution row).
Proof. intros f v. rewrite contribution_text. by intros [_ ?]%or_none_Some. Qed.

Lemma or_nonempty (a b : option string) (v : string) :
  a = Some v → nonempty v = true → or_ a b = Some v.
Proof. intros -> Hv. unfold or_. simpl. by rewrite Hv. Qed.

Lemma merge_text_nonempty (o : Organisation.t) (row : Row) :
  text_nonempty o → text_nonempty (merge o (contribution row)).
Proof.
  intros Ho f v. rewrite merge_text. unfold or_.
  destruct (truthy (text_get f o)); [apply Ho | apply contribution_text_nonempty].
Qed.

Lemma merge_populated_kept (o c : Organisation.t) :
  text_nonempty o → populated_kept o (merge o c).
Proof.
  intros Ho. split_and!; [done | |].
  - intros f v Hv. rewrite merge_text. apply or_nonempty; [done | by eapply Ho].
  - intros x v Hv Htrue. rewrite merge_coord. unfold fill_float.
    rewrite Hv. simpl. by rewrite Htrue.
Qed.

Lemma populated_kept_refl (o : Organisation.t) : populated_kept o o.
Proof. by split_and!. Qed.

Lemma populated_kept_trans (o1 o2 o3 : Organisation.t) :
  populated_kept o1 o2 → populated_kept o2 o3 → populated_kept o1 o3.
Proof.
  intros (Hid & Ht & Hc) (Hid' & Ht' & Hc'). split_and!; [congruence | eauto..].
Qed.

Lemma process_row_monotonic (st st' : State) (row : Row) (k : string) (o : Organisation.t) :
  process_row st row = Ok st' → organisations st !! k = Some o → text_nonempty o →
  ∃ o', organisations st' !! k = Some o' ∧ populated_kept o o' ∧ text_nonempty o'.
Proof.
  intros Hrow Ho Hne. destruct (skip row) eqn:Hskip.
  - rewrite process_row_skip in Hrow by done. injection Hrow as <-.
    eauto using populated_kept_refl.
  - destruct (process_row_organisations _ _ _ Hrow Hskip) as (o1 & -> & Ho1).
    destruct (decide (organisation_key row = k)) as [Hk | Hk].
    + rewrite Hk, Ho in Ho1. subst o1. rewrite Hk, lookup_insert_eq.
      eexists. split_and!;
        [done | by apply merge_populated_kept | by apply merge_text_nonempty].
    + rewrite lookup_insert_ne by done. eauto using populated_kept_refl.
Qed.

Lemma process_rows_monotonic (rows : list Row) (st st' : State) (k : string)
    (o : Organisation.t) :
  process_rows st rows = Ok st' → organisations st !! k = Some o → text_nonempty o →
  ∃ o', organisations st' !! k = Some o' ∧ populated_kept o o' ∧ text_nonempty o'.
Proof.
  revert st o. induction rows as [| row rows IH]; intros st o Hrun Ho Hne.
  - injection Hrun as <-. eauto using populated_kept_refl.
  - apply process_rows_cons in Hrun as (st1 & Hrow & Hrun).
    destruct (process_row_monotonic _ _ _ _ _ Hrow Ho Hne) as (o1 & Ho1 & Hkept1 & Hne1).
    destruct (IH _ _ Hrun Ho1 Hne1) as (o' & Ho' & Hkept & Hne').
    eauto using populated_kept_trans.
Qed.

Lemma process_row_organisations_text_nonempty (st : State) (row : Row) (st' : State) :
  True → organisations_text_nonempty st → process_row st row = Ok st' →
  organisations_text_nonempty st'.
Proof.
  intros _ Hinv Hrow k o Ho. destruct (skip row) eqn:Hskip.
  - rewrite process_row_skip in Hrow by done. injection Hrow as <-. by eapply Hinv.
  - destruct (process_row_organisations _ _ _ Hrow Hskip) as (o1 & Horgs & Ho1).
    rewrite Horgs, lookup_insert in Ho. case_decide; [| by eapply Hinv].
    injection Ho as <-.
    destruct (organisations st !! organisation_key row) as [existing |] eqn:Hex; subst o1.
    + apply merge_text_nonempty. by eapply Hinv.
    + apply contribution_text_nonempty.
Qed.

Lemma process_csv_text_nonempty (rows : list Row) (st : State) :
  process_csv rows = Ok st → organisations_text_nonempty st.
Proof.
  intros Hrun.
  eapply (process_rows_invariant organisations_text_nonempty (λ _, True));
    [apply process_row_organisations_text_nonempty | | | exact Hrun].
  - by apply Forall_forall.
  - intros k o. simpl. by rewrite lookup_empty.
Qed.

End Merge.

(** C1 (counterexample).  The first row stores latitude 0 for ACME, a
    populated value; the next row of the same organisation carries latitude 5
    and replaces it. *)
Lemma zero_latitude_replaced :
  ∃ st st' : State,
    process_csv [Example.acme_lat0] = Ok st ∧
    process_row st Example.acme_lat5 = Ok st' ∧
    Organisation.latitude <$> organisations st !! "ACME" = Some (Some (Qmake 0 1)) ∧
    Organisation.latitude <$> organisations st' !! "ACME" = Some (Some (Qmake 5 1)).
Proof.
  apply (process_csv_snoc_eval [Example.acme_lat0] Example.acme_lat5 (λ st st', _ ∧ _)).
  vm_compute. by split.
Qed.

(** C1 (amended).  Once a text field of an organisation (name, street, city,
    state/province, postal code, formatted address) holds a value, or a
    coordinate holds a non-zero value, after some row, no later row changes
    it, and the key stays the same.  A text field that is absent is filled by
    the next row of the organisation when that row's cell is not blank; a
    coordinate that is absent or zero is replaced by the non-zero coordinate
    of the next row of the organisation. *)
Theorem organisation_merge_monotonic `{PyFloat} (pre post : list Row) (st st' : State)
    (k : string) (o : Organisation.t) :
  process_csv pre = Ok st → process_rows st post = Ok st' →
  organisations st !! k = Some o →
  ∃ o', organisations st' !! k = Some o' ∧
    Organisation.organisationId o' = Organisation.organisationId o ∧
    (∀ f v, text_get f o = Some v → text_get f o' = Some v) ∧
    (∀ c x, coord_get c o = Some x → float_truthy x = true → coord_get c o' = Some x) ∧
    (∀ row rest, post = row :: rest → skip row = false → organisation_key row = k →
       (∀ f, text_get f o = None → nonempty (field row (text_col f)) = true →
             text_get f o' = Some (field row (text_col f))) ∧
       (∀ c x, float_or_none_truthy (coord_get c o) = false →
               coord_get c (contribution row) = Some x → float_truthy x = true →
               coord_get c o' = Some x)).
Proof.
  intros Hpre Hpost Ho.
  pose proof (process_csv_text_nonempty _ _ Hpre _ _ Ho) as Hne.
  destruct (process_rows_monotonic _ _ _ _ _ Hpost Ho Hne) as (o' & Ho' & (Hid & Ht & Hc) & _).
  exists o'. split_and!; try done.
  intros row rest -> Hskip Hk.
  apply process_rows_cons in Hpost as (st1 & Hrow & Hrest).
  destruct (process_row_organisations _ _ _ Hrow Hskip) as (o1 & Horgs & Ho1).
  rewrite Hk, Ho in Ho1.
  assert (Hst1 : organisations st1 !! k = Some o1) by (by rewrite Horgs, Hk, lookup_insert_eq).
  assert (Hne1 : text_nonempty o1) by (subst o1; by apply merge_text_nonempty).
  destruct (process_rows_monotonic _ _ _ _ _ Hrest Hst1 Hne1) as (o'' & Ho'' & (_ & Ht1 & Hc1) & _).
  assert (o'' = o') as -> by congruence.
  split.
  - intros f Habsent Hcell. apply Ht1. subst o1.
    rewrite merge_text, Habsent, contribution_text. unfold or_. simpl.
    by apply or_none_nonempty.
  - intros c x Hfalsy Hx Htrue. apply Hc1; [| done]. subst o1.
    rewrite merge_coord. unfold fill_float. rewrite Hfalsy, Hx. simpl. by rewrite Htrue.
Qed.


(** ** The record of an organisation as a fold over its rows *)

Lemma first_of_assoc {A} (a b c : option A) :
  first_of (first_of a b) c = first_of a (first_of b c).
Proof. by destruct a. Qed.

Lemma first_of_None_r {A} (a : option A) : first_of a None = a.
Proof. by destruct a. Qed.

Lemma head_omap_cons {A B} (g : A → option B) (x : A) (l : list A) :
  head (omap g (x :: l)) = first_of (g x) (head (omap g l)).
Proof.
  change (omap g (x :: l)) with (match g x with Some y => y :: omap g l | None => omap g l end).
  by destruct (g x).
Qed.

Lemma head_Permutation_single {A} (l l' : list A) :
  l ≡ₚ l' → length l ≤ 1 → head l = head l'.
Proof.
  intros Hperm Hlen. destruct l as [| x [| y l]]; simpl in Hlen; [| | lia].
  - by apply Permutation_nil_l in Hperm as <-.
  - by apply Permutation_singleton_l in Hperm as <-.
Qed.

Lemma length_omap_filter {A B} (g : A → option B) (P : A → bool) (l : list A) :
  (∀ x, is_Some (g x) → P x = true) → length (omap g l) ≤ length (filter P l).
Proof.
  intros HP. induction l as [| x l IH]; [done |].
  change (omap g (x :: l)) with (match g x with Some y => y :: omap g l | None => omap g l end).
  rewrite filter_cons. destruct (g x) as [y |] eqn:Hg.
  - rewrite decide_True by (rewrite HP; [done | by rewrite Hg]). simpl. lia.
  - case_decide; simpl; lia.
Qed.

Section Fold.
Context `{PyFloat}.

Lemma contributes_true (k : string) (row : Row) :
  contributes k row = true ↔ skip row = false ∧ organisation_key row = k.
Proof.
  unfold contributes. rewrite andb_true_iff, negb_true_iff, bool_decide_eq_true. done.
Qed.

Lemma process_rows_organisations_fold (rows : list Row) (st st' : State) (k : string) :
  process_rows st rows = Ok st' →
  organisations st' !! k = foldl absorb (organisations st !! k) (filter (contributes k) rows).
Proof.
  revert st. induction rows as [| row rows IH]; intros st Hrun.
  - by injection Hrun as <-.
  - apply process_rows_cons in Hrun as (st1 & Hrow & Hrun). rewrite (IH _ Hrun).
    rewrite filter_cons. destruct (contributes k row) eqn:Hk.
    + rewrite decide_True by done. simpl. f_equal.
      apply contributes_true in Hk as [Hskip Hk].
      destruct (process_row_organisations _ _ _ Hrow Hskip) as (o & -> & ->).
      rewrite Hk. by rewrite lookup_insert_eq.
    + rewrite decide_False by (by intros []). f_equal.
      apply (process_row_organisations_other _ _ _ _ Hrow).
      intros Hskip Hkey. assert (contributes k row = true) by by apply contributes_true.
      congruence.
Qed.

Lemma or_first_of (a b : option string) :
  (∀ v, a = Some v → nonempty v = true) → or_ a b = first_of a b.
Proof. intros Ha. unfold or_. destruct a as [v |]; simpl; [| done]. by rewrite Ha. Qed.

Lemma fill_float_first_of (a b : option float) :
  (∀ x, a = Some x → float_truthy x = true) →
  (∀ x, b = Some x → float_truthy x = true) →
  fill_float a b = first_of a b.
Proof.
  intros Ha Hb. unfold fill_float. destruct a as [x |]; simpl.
  - by rewrite Ha.
  - destruct b as [y |]; simpl; [| done]. by rewrite Hb.
Qed.

Lemma merge_coord_truthy (o c : Organisation.t) :
  coord_truthy o → coord_truthy c → coord_truthy (merge o c).
Proof.
  intros Ho Hc x v. rewrite merge_coord, fill_float_first_of; [| apply Ho | apply Hc].
  destruct (coord_get x o) eqn:E; simpl; [intros [= <-]; by eapply Ho | apply Hc].
Qed.

Lemma foldl_absorb_Some (rows : list Row) (e : Organisation.t) :
  text_nonempty e → coord_truthy e →
  Forall (λ row, coord_truthy (contribution row)) rows →
  ∃ o, foldl absorb (Some e) rows = Some o ∧
       Organisation.organisationId o = Organisation.organisationId e ∧
       (∀ f, text_get f o =
             first_of (text_get f e) (head (omap (λ row, text_get f (contribution row)) rows))) ∧
       (∀ c, coord_get c o =
             first_of (coord_get c e) (head (omap (λ row, coord_get c (contribution row)) rows))).
Proof.
  revert e. induction rows as [| row rows IH]; intros e Hne Htruthy Hrows.
  - exists e. split_and!; try done; intros; symmetry; apply first_of_None_r.
  - apply Forall_cons in Hrows as [Hrow Hrows].
    change (foldl absorb (Some e) (row :: rows))
      with (foldl absorb (Some (merge e (contribution row))) rows).
    destruct (IH (merge e (contribution row))) as (o & -> & Hid & Ht & Hc);
      [by apply merge_text_nonempty | by apply merge_coord_truthy | done |].
    exists o. split_and!; [done | done | |].
    + intros f. rewrite Ht, merge_text, head_omap_cons, <- first_of_assoc.
      f_equal. apply or_first_of. apply Hne.
    + intros c. rewrite Hc, merge_coord, head_omap_cons, <- first_of_assoc.
      f_equal. apply fill_float_first_of; [apply Htruthy | apply Hrow].
Qed.

Lemma foldl_absorb_None (row : Row) (rows : list Row) :
  Forall (λ row, coord_truthy (contribution row)) (row :: rows) →
  ∃ o, foldl absorb None (row :: rows) = Some o ∧
       Organisation.organisationId o = organisation_key row ∧
       (∀ f, text_get f o = head (omap (λ row, text_get f (contribution row)) (row :: rows))) ∧
       (∀ c, coord_get c o = head (omap (λ row, coord_get c (contribution row)) (row :: rows))).
Proof.
  intros [Hrow Hrows]%Forall_cons.
  change (foldl absorb None (row :: rows))
    with (foldl absorb (Some (contribution row)) rows).
  destruct (foldl_absorb_Some rows (contribution row)) as (o & -> & Hid & Ht & Hc);
    [apply contribution_text_nonempty | done | done |].
  exists o. split_and!; [done | done | |].
  - intros f. by rewrite Ht, head_omap_cons.
  - intros c. by rewrite Hc, head_omap_cons.
Qed.

Lemma text_supplied (row : Row) (f : text_field) :
  is_Some (text_get f (contribution row)) → supplies (text_col f) row = true.
Proof. rewrite contribution_text. unfold supplies. by intros [v [<- ?]%or_none_Some]. Qed.

Lemma coord_supplied (row : Row) (c : coord_field) :
  is_Some (coord_get c (contribution row)) → supplies (coord_col c) row = true.
Proof.
  unfold supplies, field, contribution, coordinates, parse_coordinates, to_float.
  intros [x Hx]. destruct c; simpl in *;
    destruct (cell row Col.latitude) as [lat_str |]; simpl in *; try done;
    destruct (cell row Col.longitude) as [lon_str |]; simpl in *; try done;
    destruct (nonempty lat_str); simpl in *; try done;
    destruct (nonempty lon_str); simpl in *; try done;
    destruct (float_of_str lat_str); simpl in *; try done;
    destruct (float_of_str lon_str); simpl in *; done.
Qed.

(** Two orders of the rows of one organisation give the same record when
    no column has two sources and no coordinate is zero. *)
Lemma foldl_absorb_Permutation (rows rows' : list Row) (k : string) :
  rows ≡ₚ rows' →
  Forall (λ row, organisation_key row = k) rows →
  (∀ f, single_source (text_col f) rows) →
  (∀ c, single_source (coord_col c) rows) →
  Forall (λ row, coord_truthy (contribution row)) rows →
  foldl absorb None rows = foldl absorb None rows'.
Proof.
  intros Hperm Hkey Htext Hcoord Htruthy.
  assert (Hkey' : Forall (λ row, organisation_key row = k) rows') by by rewrite <- Hperm.
  assert (Htruthy' : Forall (λ row, coord_truthy (contribution row)) rows')
    by by rewrite <- Hperm.
  destruct rows as [| row rows].
  { by apply Permutation_nil_l in Hperm as <-. }
  destruct rows' as [| row' rows'].
  { by apply Permutation_nil_r in Hperm. }
  destruct (foldl_absorb_None _ _ Htruthy) as (o & -> & Hid & Ht & Hc).
  destruct (foldl_absorb_None _ _ Htruthy') as (o' & -> & Hid' & Ht' & Hc').
  f_equal. apply organisation_eq.
  - apply Forall_cons in Hkey as [Hk _]. apply Forall_cons in Hkey' as [Hk' _]. congruence.
  - intros f. rewrite Ht, Ht'. apply head_Permutation_single; [by rewrite Hperm |].
    etrans; [apply (length_omap_filter _ (supplies (text_col f))) | apply Htext].
    intros r. apply text_supplied.
  - intros c. rewrite Hc, Hc'. apply head_Permutation_single; [by rewrite Hperm |].
    etrans; [apply (length_omap_filter _ (supplies (coord_col c))) | apply Hcoord].
    intros r. apply coord_supplied.
Qed.

End Fold.

Lemma organisation_merge_monotonic_witness :
  ∃ (st st' : State) (o' : Organisation.t),
    process_csv [Example.acme_named] = Ok st ∧
    process_rows st [Example.acme_street; Example.acme_lat5] = Ok st' ∧
    organisations st !! "ACME" = Some (contribution Example.acme_named) ∧
    organisations st' !! "ACME" = Some o' ∧
    Organisation.organisationName o' = Some "Acme Pty Ltd" ∧
    Organisation.billingStreet o' = Some "1 Main St".
Proof.
  destruct (process_csv_is_ok [Example.acme_named; Example.acme_street; Example.acme_lat5])
    as [st' Hst']; [vm_compute; reflexivity |].
  unfold process_csv in Hst'.
  change [Example.acme_named; Example.acme_street; Example.acme_lat5]
    with ([Example.acme_named] ++ [Example.acme_street; Example.acme_lat5]) in Hst'.
  apply process_rows_app in Hst' as (st & Hst & Hst').
  assert (Ho : organisations st !! "ACME" = Some (contribution Example.acme_named)).
  { rewrite (process_rows_organisations_fold _ _ _ "ACME" Hst). vm_compute; reflexivity. }
  destruct (organisation_merge_monotonic _ _ st st' "ACME" _ Hst Hst' Ho)
    as (o' & Ho' & _ & Ht & _ & Hfill).
  exists st, st', o'.
  split; [exact Hst |]. split; [exact Hst' |]. split; [exact Ho |]. split; [exact Ho' |].
  split.
  - apply (Ht Name). vm_compute; reflexivity.
  - destruct (Hfill Example.acme_street [Example.acme_lat5] eq_refl) as [Hfill_text _];
      [vm_compute; reflexivity | vm_compute; reflexivity |].
    apply (Hfill_text Street); vm_compute; reflexivity.
Defined.

(** C7 (counterexample).  Two rows of ACME, one with latitude 0 and one with
    no coordinate: every field has at most one source, yet the record has
    latitude 0 when the row with the latitude is processed first and no
    latitude when it is processed second. *)
Lemma zero_latitude_order_dependent :
  [Example.acme_lat0; Example.acme_plain] ≡ₚ [Example.acme_plain; Example.acme_lat0] ∧
  (∀ f, single_source (text_col f) [Example.acme_lat0; Example.acme_plain]) ∧
  (∀ c, single_source (coord_col c) [Example.acme_lat0; Example.acme_plain]) ∧
  (∃ st : State,
     process_csv [Example.acme_lat0; Example.acme_plain] = Ok st ∧
     Organisation.latitude <$> organisations st !! "ACME" = Some (Some (Qmake 0 1))) ∧
  (∃ st : State,
     process_csv [Example.acme_plain; Example.acme_lat0] = Ok st ∧
     Organisation.latitude <$> organisations st !! "ACME" = Some None).
Proof.
  split_and!.
  - apply perm_swap.
  - intros []; vm_compute; lia.
  - intros []; vm_compute; lia.
  - apply (process_csv_eval [Example.acme_lat0; Example.acme_plain]). vm_compute; reflexivity.
  - apply (process_csv_eval [Example.acme_plain; Example.acme_lat0]). vm_compute; reflexivity.
Qed.

(** C7 (amended).  Take the rows of a pass whose normalized organisation id
    is [k].  When each fillable field is supplied by at most one of them and
    none of them contributes a zero coordinate, the record of [k] is the same
    for every processing order of the rows of the pass. *)
Theorem organisation_merge_order_independent `{PyFloat} (rows rows' : list Row)
    (st st' : State) (k : string) :
  rows ≡ₚ rows' →
  (∀ f, single_source (text_col f) (filter (contributes k) rows)) →
  (∀ c, single_source (coord_col c) (filter (contributes k) rows)) →
  Forall (λ row, coord_truthy (contribution row)) (filter (contributes k) rows) →
  process_csv rows = Ok st → process_csv rows' = Ok st' →
  organisations st !! k = organisations st' !! k.
Proof.
  intros Hperm Htext Hcoord Htruthy Hst Hst'.
  rewrite (process_rows_organisations_fold _ _ _ k Hst),
    (process_rows_organisations_fold _ _ _ k Hst').
  simpl. rewrite lookup_empty.
  apply (foldl_absorb_Permutation _ _ k); [by rewrite Hperm | | done..].
  apply Forall_forall. intros row [Hk _]%list_elem_of_filter.
  apply Is_true_true in Hk. by apply contributes_true in Hk as [_ ?].
Qed.

Lemma organisation_merge_order_independent_witness :
  ∃ st st' : State,
    process_csv [Example.acme_named; Example.acme_street] = Ok st ∧
    process_csv [Example.acme_street; Example.acme_named] = Ok st' ∧
    organisations st !! "ACME" = organisations st' !! "ACME".
Proof.
  destruct (process_csv_is_ok [Example.acme_named; Example.acme_street]) as [st Hst];
    [vm_compute; reflexivity |].
  destruct (process_csv_is_ok [Example.acme_street; Example.acme_named]) as [st' Hst'];
    [vm_compute; reflexivity |].
  exists st, st'. split; [done |]. split; [done |].
  apply (organisation_merge_order_independent
           [Example.acme_named; Example.acme_street]
           [Example.acme_street; Example.acme_named] st st' "ACME" (perm_swap _ _ _));
    [| | | done | done].
  - intros []; vm_compute; lia.
  - intros []; vm_compute; lia.
  - apply Forall_forall. intros row [_ Hin]%list_elem_of_filter.
    repeat (apply elem_of_cons in Hin as [-> | Hin];
            [intros [] x; vm_compute; intros [= <-]; reflexivity |]).
    apply elem_of_nil in Hin. destruct Hin.
Defined.

(** * Further properties of the pass *)

Section MorePass.
Context `{PyFloat}.

Lemma parse_validation_date_total (s : string) : ∃ v, parse_validation_date s = Ok v.
Proof.
  unfold parse_validation_date. destruct (nonempty s); [| by eexists].
  destruct (contains_char "/" s); [| by eexists].
  destruct (Datetime.strptime s) as [t | e] eqn:E; simpl; [by eexists |].
  apply strptime_Raise in E as ->. by eexists.
Qed.

Lemma full_width_get (row : Row) (col : string) :
  full_width row → ∃ s, get row col (Some "") = Some s.
Proof.
  intros Hrow. unfold get. pose proof (Hrow col) as Hcol.
  destruct (row !! col) as [[s |] |]; [by eexists | done | by eexists].
Qed.

Lemma full_width_cell (row : Row) (col : string) :
  full_width row → ∃ s, cell row col = Ok s.
Proof. intros [s Hs]%(full_width_get _ col). unfold cell. rewrite Hs. by eexists. Qed.

Lemma full_width_cell_or_none (row : Row) (col : string) :
  full_width row → ∃ v, cell_or_none row col = Ok v.
Proof.
  intros [s Hs]%(full_width_cell _ col). unfold cell_or_none. rewrite Hs. by eexists.
Qed.

Lemma full_width_fill (row : Row) (col : string) (existing : option string) :
  full_width row → ∃ v, fill existing row col = Ok v.
Proof.
  intros Hrow. unfold fill. destruct (truthy existing); [by eexists |].
  by apply full_width_cell_or_none.
Qed.

Lemma full_width_store_organisation (row : Row) (orgs : gmap string Organisation.t)
    (k : string) (lat lon : option float) :
  full_width row → ∃ orgs', store_organisation orgs k row lat lon = Ok orgs'.
Proof.
  intros Hrow. unfold store_organisation, new_organisation, update_organisation.
  destruct (orgs !! k) as [existing |].
  - destruct (full_width_fill row Col.organisation_name
                (Organisation.organisationName existing) Hrow) as [? ->].
    destruct (full_width_fill row Col.billing_street
                (Organisation.billingStreet existing) Hrow) as [? ->].
    destruct (full_width_fill row Col.billing_city
                (Organisation.billingCity existing) Hrow) as [? ->].
    destruct (full_width_fill row Col.billing_state
                (Organisation.billingStateProvince existing) Hrow) as [? ->].
    destruct (full_width_fill row Col.billing_zip
                (Organisation.billingZipPostalCode existing) Hrow) as [? ->].
    destruct (full_width_fill row Col.formatted_address
                (Organisation.formattedAddress existing) Hrow) as [? ->].
    by eexists.
  - destruct (full_width_cell_or_none row Col.organisation_name Hrow) as [? ->].
    destruct (full_width_cell_or_none row Col.billing_street Hrow) as [? ->].
    destruct (full_width_cell_or_none row Col.billing_city Hrow) as [? ->].
    destruct (full_width_cell_or_none row Col.billing_state Hrow) as [? ->].
    destruct (full_width_cell_or_none row Col.billing_zip Hrow) as [? ->].
    destruct (full_width_cell_or_none row Col.formatted_address Hrow) as [? ->].
    by eexists.
Qed.

Lemma full_width_store_capability (row : Row) (caps : list Capability.t) (k i : string)
    (d v s : option string) :
  full_width row → ∃ caps', store_capability caps row k i d v s = Ok caps'.
Proof.
  intros Hrow. unfold store_capability.
  destruct (full_width_cell row Col.organisation_capability Hrow) as [label ->]. simpl.
  destruct (nonempty label); [| by eexists].
  destruct (full_width_cell_or_none row Col.capability_type Hrow) as [? ->]. by eexists.
Qed.

Lemma full_width_process_row (st : State) (row : Row) :
  full_width row → ∃ st', process_row st row = Ok st'.
Proof.
  intros Hrow. unfold process_row. destruct (skip row) eqn:Hskip; [by eexists |].
  destruct (skip_false_cell row Hskip) as (org & Horg & Hne).
  destruct (full_width_cell row Col.item_id Hrow) as [? ->].
  destruct (full_width_cell row Col.item_name Hrow) as [? ->].
  destruct (full_width_get row Col.detailed_item_id_bom Hrow) as [a ->].
  destruct (full_width_get row Col.detailed_item_id Hrow) as [b ->].
  assert (∃ raw, str_strip (or_ (Some a) (Some b)) = Ok raw) as [raw ->].
  { unfold or_. destruct (truthy (Some a)); by eexists. }
  destruct (full_width_cell row Col.detailed_item_name Hrow) as [? ->].
  destruct (full_width_cell row Col.sector_mapping_id Hrow) as [? ->].
  destruct (full_width_cell row Col.sector_name Hrow) as [? ->].
  rewrite Horg. simpl. rewrite Hne, nonempty_upper, Hne.
  destruct (full_width_cell row Col.validation_date Hrow) as [date_str ->]. simpl.
  destruct (parse_validation_date_total date_str) as [vd ->]. simpl.
  destruct (full_width_get row Col.latitude Hrow) as [lat_cell Hlat].
  destruct (full_width_get row Col.longitude Hrow) as [lon_cell Hlon].
  destruct (parse_coordinates_total row _ _ Hlat Hlon) as [[lat lon] ->]. simpl.
  destruct (full_width_store_organisation row (organisations st) (upper org) lat lon Hrow)
    as [orgs ->]. simpl.
  edestruct (full_width_store_capability row (capabilities st)) as [caps ->]; [done |].
  by eexists.
Qed.

End MorePass.

Lemma process_rows_full_width `{PyFloat} (st : State) (rows : list Row) :
  Forall full_width rows → ∃ st', process_rows st rows = Ok st'.
Proof.
  revert st. induction rows as [| row rows IH]; intros st Hrows; [by eexists |].
  apply Forall_cons in Hrows as [Hrow Hrows].
  destruct (full_width_process_row st row Hrow) as [st1 Hst1].
  destruct (IH st1 Hrows) as [st' Hst']. exists st'. simpl. by rewrite Hst1.
Qed.

(** The [for] statement in terms of the pass over the rows it is given. *)
Lemma for_rows_process_rows `{PyFloat} {E} (st : State) (rows : list Row)
    (failure : option E) :
  for_rows st rows failure =
    match process_rows st rows with
    | Ok st' => match failure with
                | None => Completed st'
                | Some e => ReaderRaised e
                end
    | Raise e => BodyRaised e
    end.
Proof.
  revert st. induction rows as [| row rows IH]; intros st; [done |].
  change (process_rows st (row :: rows))
    with (st' ← process_row st row; process_rows st' rows).
  change (for_rows st (row :: rows) failure)
    with (match process_row st row with
          | Ok st' => for_rows st' rows failure
          | Raise e => BodyRaised e
          end).
  destruct (process_row st row) as [st1 | e]; [apply IH | done].
Qed.

(** X1.  On rows none of which is shorter than the header (every cell a
    string) the loop body raises nothing, whatever the cells hold and from
    any state: when the reader yields its rows and raises nothing, the pass
    completes; when the reader raises, the pass ends with the reader's
    exception, after every row it had yielded was processed. *)
Theorem pass_completes_on_full_width_rows `{PyFloat} {E} (st : State) (reader : Reader E) :
  Forall full_width (yielded reader) →
  ∃ st', process_rows st (yielded reader) = Ok st' ∧
         read_csv st reader = match failure reader with
                              | None => Completed st'
                              | Some e => ReaderRaised e
                              end.
Proof.
  intros Hrows. destruct (process_rows_full_width st _ Hrows) as [st' Hst'].
  exists st'. split; [exact Hst' |].
  unfold read_csv. by rewrite for_rows_process_rows, Hst'.
Qed.

Lemma example_row_full_width (cells : list (string * string)) :
  full_width (Example.row cells).
Proof.
  intros col. unfold Example.row. intros Hcol.
  apply lookup_union_Some_raw in Hcol as [Hcol | [_ Hcol]];
    apply elem_of_list_to_map_2, list_elem_of_fmap in Hcol as (x & Hx & _);
    [by destruct x | done].
Qed.

Lemma pass_completes_on_full_width_rows_witness :
  (∃ st' : State,
     read_csv init {| yielded := [Example.group_a; Example.bad_latitude];
                      failure := @None string |} = Completed st') ∧
  read_csv init {| yielded := [Example.group_a; Example.bad_latitude];
                   failure := Some "_csv.Error" |} = ReaderRaised "_csv.Error".
Proof.
  split.
  - destruct (pass_completes_on_full_width_rows init
                {| yielded := [Example.group_a; Example.bad_latitude];
                   failure := @None string |}) as (st' & _ & Hread).
    + repeat constructor; apply example_row_full_width.
    + by exists st'.
  - destruct (pass_completes_on_full_width_rows init
                {| yielded := [Example.group_a; Example.bad_latitude];
                   failure := Some "_csv.Error" |}) as (st' & _ & Hread).
    + repeat constructor; apply example_row_full_width.
    + exact Hread.
Defined.

Lemma bind_Raise {A B} (m : res A) (k : A → res B) (e : exn) :
  (x ← m; k x) = Raise e → m = Raise e ∨ ∃ a, m = Ok a ∧ k a = Raise e.
Proof. destruct m as [a | e']; simpl; intros Hr; [right; by exists a | left; by injection Hr as ->]. Qed.

Section Raises.
Context `{PyFloat}.

Lemma str_strip_Raise (v : option string) (e : exn) :
  str_strip v = Raise e → e = AttributeError.
Proof. destruct v; simpl; congruence. Qed.

Lemma cell_or_none_Raise (row : Row) (col : string) (e : exn) :
  cell_or_none row col = Raise e → e = AttributeError.
Proof.
  unfold cell_or_none. intros [Hr | (s & _ & Hr)]%bind_Raise; [| done].
  by eapply str_strip_Raise.
Qed.

Lemma fill_Raise (existing : option string) (row : Row) (col : string) (e : exn) :
  fill existing row col = Raise e → e = AttributeError.
Proof. unfold fill. destruct (truthy existing); [done | apply cell_or_none_Raise]. Qed.

Lemma parse_coordinates_Raise (row : Row) (e : exn) :
  parse_coordinates row = Raise e → e = AttributeError.
Proof.
  unfold parse_coordinates.
  intros [Hr | (lat_str & _ & Hr)]%bind_Raise; [by eapply str_strip_Raise |].
  apply bind_Raise in Hr as [Hr | (lon_str & _ & Hr)]; [by eapply str_strip_Raise |].
  unfold to_float in Hr.
  destruct (nonempty lat_str); [destruct (float_of_str lat_str) |]; simpl in Hr; try done;
    (destruct (nonempty lon_str); [destruct (float_of_str lon_str) |]); simpl in Hr; done.
Qed.

Lemma store_organisation_Raise (orgs : gmap string Organisation.t) (k : string) (row : Row)
    (lat lon : option float) (e : exn) :
  store_organisation orgs k row lat lon = Raise e → e = AttributeError.
Proof.
  unfold store_organisation.
  destruct (orgs !! k) as [existing |]; intros [Hr | (o & _ & Hr)]%bind_Raise; try done.
  - unfold update_organisation in Hr.
    repeat (apply bind_Raise in Hr as [Hr | (? & _ & Hr)]; [by eapply fill_Raise |]).
    done.
  - unfold new_organisation in Hr.
    repeat (apply bind_Raise in Hr as [Hr | (? & _ & Hr)]; [by eapply cell_or_none_Raise |]).
    done.
Qed.

Lemma store_capability_Raise (caps : list Capability.t) (row : Row) (k i : string)
    (d v s : option string) (e : exn) :
  store_capability caps row k i d v s = Raise e → e = AttributeError.
Proof.
  unfold store_capability.
  intros [Hr | (label & _ & Hr)]%bind_Raise; [by eapply str_strip_Raise |].
  destruct (nonempty label); [| done].
  apply bind_Raise in Hr as [Hr | (? & _ & Hr)]; [by eapply cell_or_none_Raise | done].
Qed.

Lemma process_row_Raise (st : State) (row : Row) (e : exn) :
  process_row st row = Raise e → e = AttributeError.
Proof.
  unfold process_row. destruct (skip row); [done |]. intros Hr.
  do 7 (apply bind_Raise in Hr as [Hr | (? & _ & Hr)]; [by eapply str_strip_Raise |]).
  match type of Hr with (if ?b then _ else _) = _ => destruct b end; [| done].
  apply bind_Raise in Hr as [Hr | (? & _ & Hr)]; [by eapply str_strip_Raise |].
  apply bind_Raise in Hr as [Hr | (? & _ & Hr)].
  { destruct (parse_validation_date_total x6) as [v Hv]. congruence. }
  apply bind_Raise in Hr as [Hr | ([lat lon] & _ & Hr)]; [by eapply parse_coordinates_Raise |].
  apply bind_Raise in Hr as [Hr | (? & _ & Hr)]; [by eapply store_organisation_Raise |].
  apply bind_Raise in Hr as [Hr | (? & _ & Hr)]; [by eapply store_capability_Raise | done].
Qed.

End Raises.

Lemma process_rows_Raise `{PyFloat} (st : State) (rows : list Row) (e : exn) :
  process_rows st rows = Raise e →
  e = AttributeError ∧ ∃ row, row ∈ rows ∧ skip row = false ∧ ¬ full_width row.
Proof.
  revert st. induction rows as [| row rows IH]; intros st Hr; [done |].
  simpl in Hr. apply bind_Raise in Hr as [Hr | (st1 & _ & Hr)].
  - split; [by eapply process_row_Raise |]. exists row. split_and!; [left | |].
    + destruct (skip row) eqn:Hskip; [| done]. by rewrite process_row_skip in Hr.
    + intros [st' Hst']%(full_width_process_row st). congruence.
  - destruct (IH _ Hr) as [-> (row' & Hin & Hskip & Hshort)].
    split; [done |]. exists row'. split; [by right | done].
Qed.

(** X2.  A pass ends in one of three ways.  It completes: the reader then
    raised nothing.  Or the loop body raises: the exception is then the
    [AttributeError] of a method call on a [None] cell and comes from a
    processed row that is shorter than the header; the [ValueError] of a date
    or of a coordinate never leaves the body.  Or the reader raises: every
    row it had yielded was then processed without an exception. *)
Theorem pass_aborts_only_on_short_row `{PyFloat} {E} (st : State) (reader : Reader E) :
  (∀ st', read_csv st reader = Completed st' →
          failure reader = None ∧ process_rows st (yielded reader) = Ok st') ∧
  (∀ e, read_csv st reader = BodyRaised e →
        e = AttributeError ∧
        ∃ row, row ∈ yielded reader ∧ skip row = false ∧ ¬ full_width row) ∧
  (∀ e, read_csv st reader = ReaderRaised e →
        failure reader = Some e ∧ ∃ st', process_rows st (yielded reader) = Ok st').
Proof.
  unfold read_csv. rewrite for_rows_process_rows.
  destruct (process_rows st (yielded reader)) as [st1 | e1] eqn:Hrun.
  - destruct (failure reader) as [e0 |]; split_and!; try done.
    + intros e [= <-]. split; [done | by eexists].
    + by intros st' [= <-].
  - split_and!; try done. intros e [= <-]. by apply (process_rows_Raise st).
Qed.

Lemma pass_aborts_only_on_short_row_witness :
  ∃ row, row ∈ [Example.acme_named; short_row] ∧ skip row = false ∧ ¬ full_width row.
Proof.
  destruct (pass_aborts_only_on_short_row init
              {| yielded := [Example.acme_named; short_row];
                 failure := Some "_csv.Error" |}) as (_ & Hbody & _).
  apply (Hbody AttributeError). vm_compute; reflexivity.
Defined.

Section Reading.
Context `{PyFloat}.

Lemma cell_Ok_get (row : Row) (col s : string) :
  cell row col = Ok s → ∃ v, get row col (Some "") = Some v.
Proof. unfold cell. destruct (get row col (Some "")); [by eexists | done]. Qed.

Lemma process_row_Ok_reads (st st' : State) (row : Row) (col : string) :
  process_row st row = Ok st' → skip row = false → col ∈ always_read →
  ∃ v, get row col (Some "") = Some v.
Proof.
  intros Hrun Hskip Hcol. unfold process_row in Hrun. rewrite Hskip in Hrun.
  destruct (skip_false_cell row Hskip) as (org & Horg & Hne).
  apply bind_Ok in Hrun as (item_id & Hitem_id%cell_Ok_get & Hrun).
  apply bind_Ok in Hrun as (item_name & Hitem_name%cell_Ok_get & Hrun).
  apply bind_Ok in Hrun as (raw & _ & Hrun).
  apply bind_Ok in Hrun as (dname & Hdname%cell_Ok_get & Hrun).
  apply bind_Ok in Hrun as (sraw & Hsraw%cell_Ok_get & Hrun).
  apply bind_Ok in Hrun as (sname & Hsname%cell_Ok_get & Hrun).
  apply bind_Ok in Hrun as (org' & Horg' & Hrun).
  rewrite Horg in Horg'. injection Horg' as <-.
  rewrite Hne, nonempty_upper, Hne in Hrun.
  apply bind_Ok in Hrun as (date_str & Hdate%cell_Ok_get & Hrun).
  apply bind_Ok in Hrun as (vd & _ & Hrun).
  apply bind_Ok in Hrun as ([lat lon] & Hcoord & Hrun).
  apply bind_Ok in Hrun as (orgs & _ & Hrun).
  apply bind_Ok in Hrun as (caps & Hcaps & Hrun).
  unfold parse_coordinates in Hcoord.
  apply bind_Ok in Hcoord as (lat_str & Hlat%cell_Ok_get & Hcoord).
  apply bind_Ok in Hcoord as (lon_str & Hlon%cell_Ok_get & _).
  unfold store_capability in Hcaps.
  apply bind_Ok in Hcaps as (label & Hlabel%cell_Ok_get & _).
  unfold always_read in Hcol.
  repeat (apply elem_of_cons in Hcol as [-> | Hcol]; [done |]).
  by apply elem_of_nil in Hcol.
Qed.

Lemma skip_false_key_nonempty (row : Row) :
  skip row = false → nonempty (organisation_key row) = true.
Proof.
  intros (s & Hs & Hne)%skip_false_cell. unfold organisation_key.
  by rewrite nonempty_upper, (cell_field _ _ _ Hs).
Qed.

End Reading.

(** X3.  A processed row in which a column the loop always reads (item id
    and name, detailed-item name, sector id and name, validation date,
    latitude, longitude, capability label) has a [None] cell aborts the pass
    with [AttributeError], whatever the state. *)
Theorem missing_cell_aborts `{PyFloat} (st : State) (row : Row) (col : string) :
  skip row = false → col ∈ always_read → row !! col = Some None →
  process_row st row = Raise AttributeError.
Proof.
  intros Hskip Hcol Hnone.
  destruct (process_row st row) as [st' | e] eqn:Hrun.
  - destruct (process_row_Ok_reads _ _ _ _ Hrun Hskip Hcol) as [v Hv].
    unfold get in Hv. by rewrite Hnone in Hv.
  - by rewrite (process_row_Raise _ _ _ Hrun).
Qed.

Lemma missing_cell_aborts_witness :
  process_row init short_row = Raise AttributeError.
Proof.
  apply (missing_cell_aborts init short_row Col.item_name);
    [vm_compute; reflexivity | | vm_compute; reflexivity].
  right; left.
Defined.

(** X4.  Rows with a blank organisation id are no-ops: a pass over the rows
    gives what the pass over the processed rows alone gives, the same final
    state or the same exception. *)
Theorem skipped_rows_are_no_ops `{PyFloat} (st : State) (rows : list Row) :
  process_rows st rows = process_rows st (filter (λ row, skip row = false) rows).
Proof.
  revert st. induction rows as [| row rows IH]; intros st; [done |].
  rewrite filter_cons. destruct (skip row) eqn:Hskip.
  - rewrite decide_False by done. simpl. rewrite process_row_skip by done. apply IH.
  - rewrite decide_True by done. simpl.
    destruct (process_row st row) as [st1 |]; simpl; [apply IH | done].
Qed.

Section Growth.
Context `{PyFloat}.

Lemma process_row_grows (st st' : State) (row : Row) :
  process_row st row = Ok st' →
  dom (items st) ⊆ dom (items st') ∧
  dom (detailed_items st) ⊆ dom (detailed_items st') ∧
  dom (sectors st) ⊆ dom (sectors st') ∧
  dom (organisations st) ⊆ dom (organisations st') ∧
  capabilities st `prefix_of` capabilities st'.
Proof.
  intros Hrun. destruct (skip row) eqn:Hskip.
  { rewrite process_row_skip in Hrun by done. by injection Hrun as <-. }
  pose proof (process_row_capabilities _ _ _ Hrun Hskip) as Hcaps.
  destruct (process_row_organisations _ _ _ Hrun Hskip) as (o & Horgs & _).
  destruct (process_row_Ok _ _ _ Hrun Hskip) as (Hitems & _ & Hdet & _ & Hsec & _).
  split_and!.
  - rewrite Hitems. unfold store_item. destruct (_ && _); [| done].
    rewrite dom_insert_L. set_solver.
  - rewrite Hdet. unfold store_detailed_item. destruct (_ && _); [| done].
    rewrite dom_insert_L. set_solver.
  - rewrite Hsec. unfold store_sector.
    destruct (current_sector_mapping_id st') as [i |]; [| done].
    destruct (_ && _); [| done]. rewrite dom_insert_L. set_solver.
  - rewrite Horgs, dom_insert_L. set_solver.
  - rewrite Hcaps. destruct (nonempty _); [by eexists | done].
Qed.

End Growth.

(** X5.  The pass only adds: from any state, the keys of Items,
    DetailedItems, Sectors and Organisations before the rows are keys after
    them, and the Capabilities before are a prefix of the Capabilities
    after. *)
Theorem collections_only_grow `{PyFloat} (st st' : State) (rows : list Row) :
  process_rows st rows = Ok st' →
  dom (items st) ⊆ dom (items st') ∧
  dom (detailed_items st) ⊆ dom (detailed_items st') ∧
  dom (sectors st) ⊆ dom (sectors st') ∧
  dom (organisations st) ⊆ dom (organisations st') ∧
  capabilities st `prefix_of` capabilities st'.
Proof.
  revert st. induction rows as [| row rows IH]; intros st Hrun.
  - by injection Hrun as <-.
  - apply process_rows_cons in Hrun as (st1 & Hrow & Hrun).
    destruct (process_row_grows _ _ _ Hrow) as (Hi & Hd & Hs & Ho & Hc).
    destruct (IH _ Hrun) as (Hi' & Hd' & Hs' & Ho' & Hc').
    split_and!; try (etrans; eassumption).
Qed.

Lemma collections_only_grow_witness :
  ∃ st st' : State,
    process_csv [Example.group_a] = Ok st ∧
    process_rows st [Example.blank; Example.group_b] = Ok st' ∧
    dom (detailed_items st) ⊆ dom (detailed_items st') ∧
    capabilities st `prefix_of` capabilities st'.
Proof.
  destruct (process_csv_is_ok [Example.group_a; Example.blank; Example.group_b])
    as [st' Hst']; [vm_compute; reflexivity |].
  unfold process_csv in Hst'.
  change [Example.group_a; Example.blank; Example.group_b]
    with ([Example.group_a] ++ [Example.blank; Example.group_b]) in Hst'.
  apply process_rows_app in Hst' as (st & Hst & Hst').
  exists st, st'. split; [exact Hst |]. split; [exact Hst' |].
  destruct (collections_only_grow st st' _ Hst') as (_ & Hd & _ & _ & Hc).
  split; [exact Hd | exact Hc].
Defined.

Section CapabilityOrder.
Context `{PyFloat}.

Lemma process_rows_own_fields (rows : list Row) (st st' : State) :
  process_rows st rows = Ok st' →
  own_fields <$> capabilities st' =
    (own_fields <$> capabilities st) ++ (row_fields <$> filter labelled rows).
Proof.
  revert st. induction rows as [| row rows IH]; intros st Hrun.
  - injection Hrun as <-. by rewrite app_nil_r.
  - apply process_rows_cons in Hrun as (st1 & Hrow & Hrun). rewrite (IH _ Hrun).
    rewrite filter_cons.
    assert (Hl : labelled row
                 = negb (skip row) && nonempty (field row Col.organisation_capability))
      by done.
    destruct (skip row) eqn:Hskip; simpl in Hl.
    + rewrite process_row_skip in Hrow by done. injection Hrow as <-.
      by rewrite decide_False by (rewrite Hl; by intros []).
    + rewrite (process_row_capabilities _ _ _ Hrow Hskip).
      destruct (nonempty (field row Col.organisation_capability)).
      * rewrite decide_True by (by rewrite Hl). rewrite fmap_app, <- app_assoc. done.
      * by rewrite decide_False by (rewrite Hl; by intros []).
Qed.

End CapabilityOrder.

(** X6.  The pass appends exactly one Capability for each processed row with
    a non-blank capability label, in row order and without merging: label,
    organisation id, item id (the row's own cell, blank as null), capability
    type and validation date of the i-th Capability are those of the i-th
    such row. *)
Theorem capabilities_follow_rows `{PyFloat} (rows : list Row) (st : State) :
  process_csv rows = Ok st →
  own_fields <$> capabilities st = row_fields <$> filter labelled rows ∧
  length (capabilities st) = length (filter labelled rows).
Proof.
  intros Hrun. pose proof (process_rows_own_fields _ _ _ Hrun) as Hfields.
  simpl in Hfields. split; [done |].
  apply (f_equal length) in Hfields. by rewrite !length_fmap in Hfields.
Qed.

Lemma capabilities_follow_rows_witness :
  ∃ st : State,
    process_csv [Example.group_a; Example.acme_named; Example.blank] = Ok st ∧
    length (capabilities st) = 2.
Proof.
  destruct (process_csv_is_ok [Example.group_a; Example.acme_named; Example.blank])
    as [st Hst]; [vm_compute; reflexivity |].
  exists st. split; [exact Hst |].
  destruct (capabilities_follow_rows _ st Hst) as [_ ->]. vm_compute; reflexivity.
Defined.

Section Nonblank.
Context `{PyFloat}.

Lemma or_none_not_blank (s : string) : not_blank (or_none s).
Proof. unfold not_blank, or_none. by destruct s. Qed.

Lemma if_else_none_not_blank (v : option string) : not_blank (if_else_none v).
Proof. unfold not_blank, if_else_none. by destruct v as [[] |]. Qed.

Lemma next_detailed_not_blank (current : option string) (raw : string) :
  not_blank current → current ≠ Some Subtotal →
  not_blank (next_detailed_item_id current raw) ∧
  next_detailed_item_id current raw ≠ Some Subtotal.
Proof.
  intros Hc Hs. unfold next_detailed_item_id, opens_group.
  destruct raw as [| a raw]; simpl; [done |].
  case_bool_decide; simpl; [done |]. split; [done | congruence].
Qed.

Lemma next_sector_not_blank (current : option string) (raw : string) :
  not_blank current → not_blank (next_sector_mapping_id current raw).
Proof. intros Hc. unfold next_sector_mapping_id. by destruct raw. Qed.

Lemma process_row_collections_nonblank (st : State) (row : Row) (st' : State) :
  True → collections_nonblank st → process_row st row = Ok st' → collections_nonblank st'.
Proof.
  intros _ (Hi & Hd & Hs & Ho & Hcd & Hcs & Hcm) Hrun. destruct (skip row) eqn:Hskip.
  { rewrite process_row_skip in Hrun by done. injection Hrun as <-. by split_and!. }
  destruct (process_row_organisations _ _ _ Hrun Hskip) as (o & Horgs & _).
  destruct (process_row_Ok _ _ _ Hrun Hskip)
    as (Hitems & Hslot & Hdet & Hsslot & Hsec & _).
  destruct (next_detailed_not_blank _ (detailed_raw row) Hcd Hcs) as [Hcd' Hcs'].
  pose proof (next_sector_not_blank _ (field row Col.sector_mapping_id) Hcm) as Hcm'.
  rewrite <- Hslot in Hcd', Hcs'. rewrite <- Hsslot in Hcm'.
  split_and!; try done.
  - intros k n. rewrite Hitems. unfold store_item.
    destruct (nonempty (field row Col.item_id)) eqn:E1; simpl; [| apply Hi].
    destruct (nonempty (field row Col.item_name)) eqn:E2; simpl; [| apply Hi].
    rewrite lookup_insert. case_decide; [| apply Hi].
    intros [= <-]. subst k. by split; apply nonempty_true.
  - intros k d. rewrite Hdet. unfold store_detailed_item, opens_group.
    destruct (nonempty (detailed_raw row)) eqn:E1; simpl; [| apply Hd].
    case_bool_decide as E2; simpl; [apply Hd |].
    destruct (nonempty (field row Col.detailed_item_name)) eqn:E3; simpl; [| apply Hd].
    rewrite lookup_insert. case_decide; [| apply Hd].
    intros [= <-]. subst k. simpl.
    split_and!; [by apply nonempty_true | done | by apply nonempty_true
                | apply or_none_not_blank].
  - intros k n. rewrite Hsec. unfold store_sector.
    destruct (current_sector_mapping_id st') as [i |]; [| apply Hs].
    destruct (nonempty i) eqn:E1; simpl; [| apply Hs].
    destruct (nonempty (field row Col.sector_name)) eqn:E2; simpl; [| apply Hs].
    rewrite lookup_insert. case_decide; [| apply Hs].
    intros [= <-]. subst k. by split; apply nonempty_true.
  - intros k o'. rewrite Horgs, lookup_insert. case_decide; [| apply Ho].
    intros _. subst k. apply nonempty_true. by apply skip_false_key_nonempty.
Qed.

End Nonblank.

(** X7.  After a pass no collection holds a blank key or a blank name: the
    keys and names of Items and Sectors, the keys and names of DetailedItems
    and the keys of Organisations are non-empty strings, the item reference
    of a DetailedItem is null rather than empty, and the sentinel is never a
    key of DetailedItems nor the value of the detailed-item slot. *)
Theorem collections_hold_no_blank `{PyFloat} (rows : list Row) (st : State) :
  process_csv rows = Ok st → collections_nonblank st.
Proof.
  intros Hrun.
  eapply (process_rows_invariant collections_nonblank (λ _, True));
    [apply process_row_collections_nonblank | | | exact Hrun].
  - by apply Forall_forall.
  - unfold collections_nonblank. simpl.
    split_and!; try done; intros k x; by rewrite lookup_empty.
Qed.

Lemma collections_hold_no_blank_witness :
  ∃ st : State,
    process_csv [Example.subtotal; Example.group_a] = Ok st ∧
    detailed_items st !! Subtotal = None.
Proof.
  destruct (process_csv_is_ok [Example.subtotal; Example.group_a]) as [st Hst];
    [vm_compute; reflexivity |].
  exists st. split; [exact Hst |].
  destruct (collections_hold_no_blank _ st Hst) as (_ & Hd & _).
  destruct (detailed_items st !! Subtotal) as [d |] eqn:E; [| reflexivity].
  destruct (Hd _ _ E) as (_ & Hs & _). by destruct Hs.
Defined.

Lemma year_str_cons (y : nat) : ∃ a r, Datetime.year_str y = String a r.
Proof.
  unfold Datetime.year_str.
  destruct (y <? 10); [by eexists _, _ |].
  destruct (y <? 100); [by eexists _, _ |].
  destruct (y <? 1000); by eexists _, _.
Qed.

Lemma strftime_nonempty (t : Datetime.date) : Datetime.strftime t ≠ "".
Proof.
  unfold Datetime.strftime. destruct (year_str_cons (Datetime.year t)) as (a & r & ->).
  by rewrite append_cons.
Qed.

Lemma validation_date_not_blank `{PyFloat} (row : Row) : not_blank (validation_date row).
Proof.
  unfold not_blank, validation_date, parse_validation_date.
  destruct (field row Col.validation_date) as [| a s] eqn:E; [done |].
  cbv beta iota delta [nonempty].
  destruct (contains_char "/" (String a s)); [| done].
  destruct (Datetime.strptime (String a s)) as [t | e] eqn:Et.
  - change (Some (Datetime.strftime t) ≠ Some "").
    intros [= Hs]. by apply strftime_nonempty in Hs.
  - apply strptime_Raise in Et as ->. done.
Qed.

Section CapabilityFields.
Context `{PyFloat}.

Lemma process_row_capabilities_nonblank (st : State) (row : Row) (st' : State) :
  True → capabilities_nonblank st → process_row st row = Ok st' → capabilities_nonblank st'.
Proof.
  intros _ Hinv Hrun. destruct (skip row) eqn:Hskip.
  { rewrite process_row_skip in Hrun by done. by injection Hrun as <-. }
  intros c. rewrite (process_row_capabilities _ _ _ Hrun Hskip).
  destruct (nonempty (field row Col.organisation_capability)) eqn:Hlabel; [| apply Hinv].
  intros [Hc | ->%list_elem_of_singleton]%elem_of_app; [by apply Hinv |].
  unfold capability_of. simpl. split_and!.
  - by apply nonempty_true.
  - apply nonempty_true. by apply skip_false_key_nonempty.
  - apply or_none_not_blank.
  - apply if_else_none_not_blank.
  - apply or_none_not_blank.
  - apply if_else_none_not_blank.
  - apply validation_date_not_blank.
Qed.

End CapabilityFields.

(** X8.  Every Capability of a pass has a non-empty label and a non-empty
    organisation id, and none of its optional fields (item id, detailed-item
    id, capability type, sector id, validation date) is the empty string: a
    blank cell is stored as null. *)
Theorem capability_fields_never_blank `{PyFloat} (rows : list Row) (st : State) :
  process_csv rows = Ok st → capabilities_nonblank st.
Proof.
  intros Hrun.
  eapply (process_rows_invariant capabilities_nonblank (λ _, True));
    [apply process_row_capabilities_nonblank | | | exact Hrun].
  - by apply Forall_forall.
  - by intros c ?%elem_of_nil.
Qed.

Lemma capability_fields_never_blank_witness :
  ∃ st : State,
    process_csv [Example.blank] = Ok st ∧
    ∀ c, c ∈ capabilities st → Capability.itemId c ≠ Some "".
Proof.
  destruct (process_csv_is_ok [Example.blank]) as [st Hst]; [vm_compute; reflexivity |].
  exists st. split; [exact Hst |]. intros c Hc.
  by destruct (capability_fields_never_blank _ st Hst c Hc) as (_ & _ & Hi & _).
Defined.

(** ** More on validation dates *)

Lemma month_day_shape_written (m d : nat) :
  month_day_shape ("-" +:+ Datetime.pad2 m +:+ "-" +:+ Datetime.pad2 d) = true.
Proof.
  change ("-" +:+ Datetime.pad2 m +:+ "-" +:+ Datetime.pad2 d)
    with (String "-" (String (Datetime.digit_char (m / 10)) (String (Datetime.digit_char m)
         (String "-" (String (Datetime.digit_char (d / 10)) (String (Datetime.digit_char d)
          EmptyString)))))).
  cbv beta iota delta [month_day_shape]. rewrite !is_digit_digit_char.
  by rewrite !bool_decide_eq_true_2.
Qed.

Lemma year_then_here (n : nat) (v : string) : month_day_shape v = true → year_then n v = true.
Proof. intros Hv. destruct n; simpl; by rewrite Hv. Qed.

Lemma year_then_digit (n : nat) (c : ascii) (r : string) :
  Datetime.is_digit c = true → year_then n r = true → year_then (S n) (String c r) = true.
Proof.
  intros Hc Hr.
  change (year_then (S n) (String c r))
    with (month_day_shape (String c r) || (Datetime.is_digit c && year_then n r)).
  rewrite Hc, Hr. apply orb_true_r.
Qed.

Lemma strftime_date_shape (t : Datetime.date) : date_shape (Datetime.strftime t) = true.
Proof.
  destruct t as [y m d]. unfold Datetime.strftime.
  cbn [Datetime.year Datetime.month Datetime.day].
  pose proof (month_day_shape_written m d) as Hmd.
  set (rest := "-" +:+ Datetime.pad2 m +:+ "-" +:+ Datetime.pad2 d) in *.
  unfold Datetime.year_str, Datetime.pad4, Datetime.pad2.
  destruct (y <? 10); [| destruct (y <? 100); [| destruct (y <? 1000)]];
    rewrite ?append_cons, ?append_nil; unfold date_shape;
    rewrite is_digit_digit_char; apply andb_true_iff; (split; [done |]);
    repeat (first [ by apply year_then_here
                  | apply year_then_digit; [apply is_digit_digit_char |] ]).
Qed.

Lemma strftime_iso_shape (t : Datetime.date) :
  1000 ≤ Datetime.year t → iso_shape (Datetime.strftime t) = true.
Proof.
  destruct t as [y m d]. cbn [Datetime.year]. intros Hy. unfold Datetime.strftime.
  cbn [Datetime.year Datetime.month Datetime.day]. rewrite (year_str_pad4 y Hy).
  change (Datetime.pad4 y +:+ "-" +:+ Datetime.pad2 m +:+ "-" +:+ Datetime.pad2 d)
    with (String (Datetime.digit_char (y / 100 / 10)) (String (Datetime.digit_char (y / 100))
         (String (Datetime.digit_char (y mod 100 / 10)) (String (Datetime.digit_char (y mod 100))
         (String "-" (String (Datetime.digit_char (m / 10)) (String (Datetime.digit_char m)
         (String "-" (String (Datetime.digit_char (d / 10)) (String (Datetime.digit_char d)
          EmptyString)))))))))).
  cbv beta iota delta [iso_shape]. rewrite !is_digit_digit_char.
  by rewrite !bool_decide_eq_true_2.
Qed.

(** X9.  Whatever string with a slash the validation-date cell holds, the
    stored date is null or is made of the digits of a year, one to four of
    them, a dash, two digits, a dash and two digits; when the year read is
    1000 or later it has the ISO shape of ten characters, with four digits
    for the year. *)
Theorem slash_date_is_null_or_year_month_day (s : string) (v : option string) :
  contains_char "/" s = true → parse_validation_date s = Ok v →
  match v with
  | Some written =>
      date_shape written = true ∧
      (∀ t, Datetime.strptime s = Ok t → 1000 ≤ Datetime.year t →
            iso_shape written = true)
  | None => True
  end.
Proof.
  intros Hslash. unfold parse_validation_date. rewrite Hslash.
  destruct (nonempty s); [| by intros [= <-]].
  destruct (Datetime.strptime s) as [t | e]; simpl.
  - intros [= <-]. split; [apply strftime_date_shape |].
    intros t' [= <-]. apply strftime_iso_shape.
  - destruct (bool_decide (e = ValueError)); [by intros [= <-] | done].
Qed.

Lemma slash_date_is_null_or_year_month_day_witness :
  date_shape "2024-03-05" = true ∧ date_shape "999-01-01" = true.
Proof.
  split.
  - apply (slash_date_is_null_or_year_month_day "5/3/2024" (Some "2024-03-05"));
      vm_compute; reflexivity.
  - apply (slash_date_is_null_or_year_month_day "01/01/0999" (Some "999-01-01"));
      vm_compute; reflexivity.
Defined.

Lemma re_d_unpad (d : nat) (r : string) :
  1 ≤ d ≤ 31 →
  ∃ l, Datetime.re_d (unpad d +:+ String "/" r) = (d, String "/" r) :: l ∧
       Forall (λ p, Datetime.lit "/" p.2 = []) l.
Proof.
  intros Hd. assert (Hd' : d ∈ seq 1 31) by (apply elem_of_seq; lia). clear Hd.
  simpl in Hd'.
  repeat (apply elem_of_cons in Hd' as [-> | Hd']);
    [.. | apply elem_of_nil in Hd'; destruct Hd'];
    (eexists; split; [vm_compute; reflexivity | repeat constructor]).
Qed.

Lemma re_m_unpad (m : nat) (r : string) :
  1 ≤ m ≤ 12 →
  ∃ l, Datetime.re_m (unpad m +:+ String "/" r) = (m, String "/" r) :: l ∧
       Forall (λ p, Datetime.lit "/" p.2 = []) l.
Proof.
  intros Hm. assert (Hm' : m ∈ seq 1 12) by (apply elem_of_seq; lia). clear Hm.
  simpl in Hm'.
  repeat (apply elem_of_cons in Hm' as [-> | Hm']);
    [.. | apply elem_of_nil in Hm'; destruct Hm'];
    (eexists; split; [vm_compute; reflexivity | repeat constructor]).
Qed.

Lemma re_format_written (y m d : nat) (ds ms : string) :
  Datetime.valid y m d = true →
  ds = Datetime.pad2 d ∨ ds = unpad d → ms = Datetime.pad2 m ∨ ms = unpad m →
  Datetime.re_format (ds +:+ String "/" (ms +:+ String "/" (Datetime.pad4 y)))
  = [(d, m, y, "")].
Proof.
  intros (Hy & Hm & Hd)%valid_bounds Hds Hms. unfold Datetime.re_format.
  assert (∃ l, Datetime.re_d (ds +:+ String "/" (ms +:+ String "/" (Datetime.pad4 y)))
               = (d, String "/" (ms +:+ String "/" (Datetime.pad4 y))) :: l
               ∧ Forall (λ p, Datetime.lit "/" p.2 = []) l) as (l & -> & Hl).
  { destruct Hds as [-> | ->]; [by apply re_d_pad2 | by apply re_d_unpad]. }
  rewrite bind_first.
  2: { eapply Forall_impl; [exact Hl |]. intros [d' r'] Hr. simpl in *. by rewrite Hr. }
  change (Datetime.lit "/" (String "/" ?r)) with [r]. rewrite bind_singleton.
  assert (∃ l, Datetime.re_m (ms +:+ String "/" (Datetime.pad4 y))
               = (m, String "/" (Datetime.pad4 y)) :: l
               ∧ Forall (λ p, Datetime.lit "/" p.2 = []) l) as (l' & -> & Hl').
  { destruct Hms as [-> | ->]; [by apply re_m_pad2 | by apply re_m_unpad]. }
  rewrite bind_first.
  2: { eapply Forall_impl; [exact Hl' |]. intros [m' r'] Hr. simpl in *. by rewrite Hr. }
  change (Datetime.lit "/" (String "/" ?r)) with [r]. rewrite bind_singleton.
  rewrite re_Y_pad4 by done. by rewrite bind_singleton.
Qed.

(** X10.  Day and month are accepted with or without a leading zero: for
    every valid calendar date of the years 1000 to 9999, each of the four
    spellings d/m/yyyy, dd/m/yyyy, d/mm/yyyy and dd/mm/yyyy normalizes to the
    same zero-padded ISO string. *)
Theorem leading_zeros_are_optional (y m d : nat) (ds ms : string) :
  Datetime.valid y m d = true → 1000 ≤ y →
  ds = Datetime.pad2 d ∨ ds = unpad d → ms = Datetime.pad2 m ∨ ms = unpad m →
  parse_validation_date (ds +:+ "/" +:+ ms +:+ "/" +:+ Datetime.pad4 y)
  = Ok (Some (Datetime.pad4 y +:+ "-" +:+ Datetime.pad2 m +:+ "-" +:+ Datetime.pad2 d)).
Proof.
  intros Hvalid Hy Hds Hms.
  assert (Hparse : Datetime.strptime (ds +:+ "/" +:+ ms +:+ "/" +:+ Datetime.pad4 y)
                   = Ok {| Datetime.year := y; Datetime.month := m; Datetime.day := d |}).
  { unfold Datetime.strptime.
    change (ds +:+ "/" +:+ ms +:+ "/" +:+ Datetime.pad4 y)
      with (ds +:+ String "/" (ms +:+ String "/" (Datetime.pad4 y))).
    rewrite (re_format_written y m d) by done.
    cbv beta iota delta [nonempty]. by rewrite Hvalid. }
  unfold parse_validation_date.
  rewrite (strptime_Ok_slash _ _ Hparse), Hparse.
  assert (nonempty (ds +:+ "/" +:+ ms +:+ "/" +:+ Datetime.pad4 y) = true) as ->.
  { destruct Hds as [-> | ->]; [done |]. unfold unpad. by destruct (d <? 10). }
  change (Ok (Some (Datetime.year_str y +:+ "-" +:+ Datetime.pad2 m +:+ "-" +:+ Datetime.pad2 d))
          = Ok (Some (Datetime.pad4 y +:+ "-" +:+ Datetime.pad2 m +:+ "-" +:+ Datetime.pad2 d))).
  by rewrite (year_str_pad4 y Hy).
Qed.

Lemma leading_zeros_are_optional_witness :
  parse_validation_date "5/3/2024" = Ok (Some "2024-03-05").
Proof.
  apply (leading_zeros_are_optional 2024 3 5 "5" "3");
    [vm_compute; reflexivity | lia | right; vm_compute; reflexivity
    | right; vm_compute; reflexivity].
Defined.

(** * The geocoding script *)

Lemma append_cons_nonempty (s1 s2 : string) (a : ascii) : s1 +:+ String a s2 ≠ "".
Proof. by destruct s1. Qed.

Lemma join_empty_iff (a : ascii) (sep : string) (parts : list string) :
  Geocode.join (String a sep) parts = "" ↔ parts = [] ∨ parts = [""].
Proof.
  destruct parts as [| x [| y parts]].
  - split; [by left | done].
  - simpl. split; [intros ->; by right | by intros [? | [= ->]]].
  - change (Geocode.join (String a sep) (x :: y :: parts))
      with (x +:+ String a (sep +:+ Geocode.join (String a sep) (y :: parts))).
    split; [by intros ?%append_cons_nonempty | by intros [? | ?]].
Qed.

Lemma present_strip (x : string) : Geocode.present x = true → strip x ≠ "".
Proof.
  unfold Geocode.present. intros [[_ Hx]%andb_true_iff _]%andb_true_iff.
  by apply nonempty_true.
Qed.

(** X11.  [format_address] gives the empty string exactly when the city, the
    state and the postcode are all left out (blank or ['#N/A']) and the street
    is left out too or consists of nothing but commas once stripped. *)
Theorem format_address_empty_iff (street city state postcode : string) :
  Geocode.format_address street city state postcode = "" ↔
  Geocode.present city = false ∧ Geocode.present state = false ∧
  Geocode.present postcode = false ∧
  (Geocode.present street = false ∨ Geocode.rstrip_char "," (strip street) = "").
Proof.
  unfold Geocode.format_address. rewrite join_empty_iff.
  destruct (Geocode.present street) eqn:Hs, (Geocode.present city) eqn:Hc,
    (Geocode.present state) eqn:Ht, (Geocode.present postcode) eqn:Hp; simpl;
    try apply present_strip in Hc; try apply present_strip in Ht;
    try apply present_strip in Hp;
    (split; [intros [[=] | [=]] | intros (? & ? & ? & [? | ?])]); try done;
    try (split_and!; try done; by right); try (by right; f_equal);
    try (split_and!; try done; by left); try by left.
Qed.

Section GeocodeAddress.
Variables (W C : Type).
Variables (nominatim photon : string → W → option (C * C) * W).

Lemma geocode_address_cases (street city state postcode : string) (w : W) :
  let address := Geocode.format_address street city state postcode in
  let r := (Geocode.geocode_address nominatim photon street city state postcode w).1 in
  let w' := (Geocode.geocode_address nominatim photon street city state postcode w).2 in
  (r = {| Geocode.formatted_address := ""; Geocode.latitude := None;
          Geocode.longitude := None; Geocode.geocoding_service := None;
          Geocode.status := "empty_address" |} ∧ w' = w) ∨
  (address ≠ "" ∧
   ((∃ lat lon service,
       r = {| Geocode.formatted_address := address; Geocode.latitude := Some lat;
              Geocode.longitude := Some lon; Geocode.geocoding_service := Some service;
              Geocode.status := "success" |} ∧
       (service = "nominatim" ∨ service = "photon")) ∨
    r = {| Geocode.formatted_address := address; Geocode.latitude := None;
           Geocode.longitude := None; Geocode.geocoding_service := None;
           Geocode.status := "failed" |})).
Proof.
  intros address r w'. subst r w'. unfold Geocode.geocode_address. fold address.
  destruct (nonempty address) eqn:Hne; simpl; [| by left].
  case_bool_decide; [by left |]. right. split; [by apply nonempty_true |].
  destruct (nominatim address w) as [[[lat lon] |] w1]; simpl.
  { left. exists lat, lon, "nominatim". split; [done | by left]. }
  destruct (photon address w1) as [[[lat lon] |] w2]; simpl.
  { left. exists lat, lon, "photon". split; [done | by right]. }
  by right.
Qed.

Lemma geocode_address_status (street city state postcode : string) (w : W) :
  let r := (Geocode.geocode_address nominatim photon street city state postcode w).1 in
  Geocode.status r = "empty_address" ∨ Geocode.status r = "success"
  ∨ Geocode.status r = "failed".
Proof.
  intros r. subst r.
  destruct (geocode_address_cases street city state postcode w)
    as [[-> _] | [_ [(lat & lon & service & -> & _) | ->]]]; simpl; auto.
Qed.

End GeocodeAddress.


Lemma has_status_row {C} (row : list string) (a b c d : Geocode.cell C) (s s' : string) :
  Geocode.has_status s' ((Geocode.Str <$> row) ++ [a; b; c; d; Geocode.Str s])
  = bool_decide (s = s').
Proof.
  unfold Geocode.has_status.
  change [a; b; c; d; Geocode.Str s] with ([a; b; c; d] ++ [Geocode.Str s]).
  by rewrite app_assoc, last_snoc.
Qed.

Lemma rows_out_flush {A} (written : list (list A)) (batch : list A) (x : A) :
  concat (written ++ [batch ++ [x]]) ++ [] = (concat written ++ batch) ++ [x].
Proof. rewrite app_nil_r, concat_app. simpl. rewrite app_nil_r. apply app_assoc. Qed.

Section GeocodePass.
Variables (W C : Type).
Variables (nominatim photon : string → W → option (C * C) * W).

(** What one iteration appends, and what it does to the counters and to the
    world. *)
Lemma step_spec (row : list string) (p : Geocode.progress W C) :
  ∃ new_row,
    Geocode.rows_out (Geocode.step nominatim photon row p) = Geocode.rows_out p ++ [new_row] ∧
    Geocode.extends row new_row ∧
    Geocode.processed_count (Geocode.step nominatim photon row p)
      = Geocode.processed_count p + (if Geocode.has_address row then 1 else 0) ∧
    Geocode.has_status "skipped" new_row = negb (Geocode.has_address row) ∧
    Geocode.success_count (Geocode.step nominatim photon row p)
      = Geocode.success_count p + (if Geocode.has_status "success" new_row then 1 else 0) ∧
    (Geocode.has_status "success" new_row = true → Geocode.has_address row = true) ∧
    (Geocode.has_address row = false →
       new_row = Geocode.skipped_row row ∧
       Geocode.world (Geocode.step nominatim photon row p) = Geocode.world p).
Proof.
  unfold Geocode.step. destruct (Geocode.has_address row) eqn:Haddr.
  - pose proof (geocode_address_status W C nominatim photon
                  (Geocode.component row 10) (Geocode.component row 11)
                  (Geocode.component row 12) (Geocode.component row 13) (Geocode.world p))
      as Hstatus.
    destruct (Geocode.geocode_address nominatim photon _ _ _ _ (Geocode.world p))
      as [r w'] eqn:Hgeo. simpl in Hstatus.
    exists (Geocode.geocoded_row row r).
    assert (Hskipped : Geocode.has_status "skipped" (Geocode.geocoded_row row r) = false).
    { unfold Geocode.geocoded_row. rewrite has_status_row. apply bool_decide_eq_false.
      destruct Hstatus as [-> | [-> | ->]]; done. }
    assert (Hsuccess : Geocode.has_status "success" (Geocode.geocoded_row row r)
                       = bool_decide (Geocode.status r = "success")).
    { unfold Geocode.geocoded_row. by rewrite has_status_row. }
    rewrite Hskipped, Hsuccess.
    destruct (Geocode.batch_size <=? _); unfold Geocode.rows_out; simpl;
      (split_and!; [| by eexists | lia | done | by case_bool_decide; lia | done | done]).
    + apply rows_out_flush.
    + apply app_assoc.
  - exists (Geocode.skipped_row row).
    assert (Hskipped : Geocode.has_status "skipped" (@Geocode.skipped_row C row) = true).
    { unfold Geocode.skipped_row. by rewrite has_status_row. }
    assert (Hsuccess : Geocode.has_status "success" (@Geocode.skipped_row C row) = false).
    { unfold Geocode.skipped_row. by rewrite has_status_row. }
    rewrite Hskipped, Hsuccess.
    destruct (Geocode.batch_size <=? _); unfold Geocode.rows_out; simpl;
      (split_and!; [| by eexists | lia | done | lia | done | done]).
    + apply rows_out_flush.
    + apply app_assoc.
Qed.

(** The loop consumes a prefix of the rows, all of them when there is no
    limit, and appends one output row for each. *)
Lemma loop_spec (max_rows : option Z) (rows : list (list string)) (p : Geocode.progress W C) :
  ∃ consumed rest new_rows,
    rows = consumed ++ rest ∧
    Geocode.rows_out (Geocode.loop nominatim photon max_rows rows p)
      = Geocode.rows_out p ++ new_rows ∧
    Forall2 Geocode.extends consumed new_rows ∧
    (Geocode.unlimited max_rows → rest = []) ∧
    Geocode.processed_count (Geocode.loop nominatim photon max_rows rows p)
      = Geocode.processed_count p + length (filter Geocode.has_address consumed) ∧
    length (filter Geocode.has_address consumed)
      = length (filter (λ r, negb (Geocode.has_status "skipped" r)) new_rows) ∧
    Geocode.success_count (Geocode.loop nominatim photon max_rows rows p)
      = Geocode.success_count p + length (filter (Geocode.has_status "success") new_rows) ∧
    (Forall (λ row, Geocode.has_address row = false) rows →
       new_rows = Geocode.skipped_row <$> consumed ∧
       Geocode.world (Geocode.loop nominatim photon max_rows rows p) = Geocode.world p).
Proof.
  revert p. induction rows as [| row rows IH]; intros p.
  { exists [], [], []. simpl. rewrite app_nil_r. split_and!; try done; lia. }
  simpl. destruct (Geocode.limit_reached max_rows (Geocode.processed_count p)) eqn:Hlimit.
  { exists [], (row :: rows), []. simpl. rewrite app_nil_r.
    split_and!; try done; try lia.
    intros [-> | ->]; simpl in Hlimit; done. }
  destruct (step_spec row p) as (new_row & Hout & Hext & Hproc & Hskipped & Hsucc & Himp & Hnone).
  destruct (IH (Geocode.step nominatim photon row p))
    as (consumed & rest & new_rows & -> & Hout' & Hext' & Hrest & Hproc' & Hcount & Hsucc' & Hnone').
  exists (row :: consumed), rest, (new_row :: new_rows).
  split_and!.
  - done.
  - by rewrite Hout', Hout, <- app_assoc.
  - by constructor.
  - done.
  - rewrite Hproc', Hproc, filter_cons. destruct (Geocode.has_address row); simpl; lia.
  - rewrite !filter_cons, Hskipped.
    destruct (Geocode.has_address row); simpl; by rewrite Hcount.
  - rewrite Hsucc', Hsucc, filter_cons.
    destruct (Geocode.has_status "success" new_row); simpl; lia.
  - intros [Hrow Hrows]%Forall_cons. destruct (Hnone Hrow) as [-> Hw].
    destruct (Hnone' Hrows) as [-> Hw']. split; [done | congruence].
Qed.

Lemma process_csv_rows_out (headers : list string) (rows : list (list string))
    (start_row : Z) (max_rows : option Z) (w : W) (o : Geocode.output W C) :
  Geocode.process_csv nominatim photon (headers :: rows) start_row max_rows w = Some o →
  ∃ p, p = Geocode.loop nominatim photon max_rows (drop (Z.to_nat start_row) rows)
             {| Geocode.world := w; Geocode.batch_results := []; Geocode.processed_count := 0;
                Geocode.success_count := 0; Geocode.written := [] |} ∧
       concat (Geocode.batches o) = Geocode.rows_out p ∧
       Geocode.processed o = Geocode.processed_count p ∧
       Geocode.succeeded o = Geocode.success_count p ∧
       Geocode.final_world o = Geocode.world p ∧
       Geocode.header_row o = Geocode.new_headers headers.
Proof.
  unfold Geocode.process_csv. intros [= <-]. eexists. split; [done |]. simpl.
  split_and!; try done. unfold Geocode.rows_out.
  destruct (Geocode.batch_results _) as [| x l]; [by rewrite app_nil_r |].
  by rewrite concat_app; simpl; rewrite app_nil_r.
Qed.

End GeocodePass.

Lemma length_filter_impl {A} (P Q : A → bool) (l : list A) :
  (∀ x, P x = true → Q x = true) → length (filter P l) ≤ length (filter Q l).
Proof.
  intros HPQ. induction l as [| x l IH]; [done |].
  rewrite !filter_cons. destruct (P x) eqn:HP.
  - rewrite (HPQ _ HP). simpl. lia.
  - destruct (Q x); simpl; lia.
Qed.

Lemma has_status_unique {C} (s s' : string) (r : list (Geocode.cell C)) :
  Geocode.has_status s r = true → Geocode.has_status s' r = true → s = s'.
Proof.
  unfold Geocode.has_status. destruct (last r) as [[x | | c] |]; try done.
  intros <-%bool_decide_eq_true <-%bool_decide_eq_true. done.
Qed.

(** X13.  The geocoding pass copies its input: the header line gets five
    more names, and the rows written, batch after batch, are the input rows
    after the first [start_row], in order, each followed by five more cells;
    no input cell is changed.  Without a limit (none given, or zero) every
    such row is written. *)
Theorem geocoding_extends_rows (W C : Type)
    (nominatim photon : string → W → option (C * C) * W)
    (headers : list string) (rows : list (list string)) (start_row : Z)
    (max_rows : option Z) (w : W) (o : Geocode.output W C) :
  Geocode.process_csv nominatim photon (headers :: rows) start_row max_rows w = Some o →
  Geocode.header_row o
    = headers ++ ["Formatted_Address"; "Latitude"; "Longitude"; "Geocoding_Service";
                  "Geocoding_Status"] ∧
  ∃ consumed rest,
    drop (Z.to_nat start_row) rows = consumed ++ rest ∧
    Forall2 Geocode.extends consumed (concat (Geocode.batches o)) ∧
    (Geocode.unlimited max_rows → rest = []).
Proof.
  intros (p & -> & Hout & _ & _ & _ & Hheader)%process_csv_rows_out. split; [done |].
  destruct (loop_spec W C nominatim photon max_rows (drop (Z.to_nat start_row) rows)
              {| Geocode.world := w; Geocode.batch_results := [];
                 Geocode.processed_count := 0; Geocode.success_count := 0;
                 Geocode.written := [] |})
    as (consumed & rest & new_rows & Hrows & Hout' & Hext & Hrest & _).
  exists consumed, rest. rewrite Hout, Hout'. by split_and!.
Qed.

Lemma geocoding_extends_rows_witness :
  ∃ o, Geocode.process_csv Geocode.Example.nominatim Geocode.Example.photon
         Geocode.Example.lines 0 None [] = Some o ∧
       length (concat (Geocode.batches o)) = 6.
Proof.
  eexists. split; [reflexivity |].
  edestruct (geocoding_extends_rows (list string) Z Geocode.Example.nominatim
               Geocode.Example.photon) as (_ & consumed & rest & Hrows & Hext & Hrest);
    [reflexivity |].
  rewrite <- (Forall2_length _ _ _ Hext).
  rewrite (Hrest (or_introl eq_refl)), app_nil_r in Hrows. by rewrite <- Hrows.
Defined.

(** X14.  The two counters agree with what is written: the number of
    addresses processed is the number of output rows whose status is not
    skipped, the number of successes is the number of output rows whose
    status is success, and there are no more successes than processed
    addresses. *)
Theorem geocoding_counters (W C : Type)
    (nominatim photon : string → W → option (C * C) * W)
    (headers : list string) (rows : list (list string)) (start_row : Z)
    (max_rows : option Z) (w : W) (o : Geocode.output W C) :
  Geocode.process_csv nominatim photon (headers :: rows) start_row max_rows w = Some o →
  Geocode.processed o
    = length (filter (λ r, negb (Geocode.has_status "skipped" r)) (concat (Geocode.batches o))) ∧
  Geocode.succeeded o
    = length (filter (Geocode.has_status "success") (concat (Geocode.batches o))) ∧
  Geocode.succeeded o ≤ Geocode.processed o.
Proof.
  intros (p & -> & Hout & Hproc & Hsucc & _)%process_csv_rows_out.
  destruct (loop_spec W C nominatim photon max_rows (drop (Z.to_nat start_row) rows)
              {| Geocode.world := w; Geocode.batch_results := [];
                 Geocode.processed_count := 0; Geocode.success_count := 0;
                 Geocode.written := [] |})
    as (consumed & rest & new_rows & _ & Hout' & _ & _ & Hproc' & Hcount & Hsucc' & _).
  rewrite Hout, Hout', Hproc, Hsucc, Hproc', Hsucc', Hcount. simpl.
  split_and!; [done | done |].
  apply length_filter_impl. intros r Hr. apply negb_true_iff.
  destruct (Geocode.has_status "skipped" r) eqn:Hs; [| done].
  by pose proof (has_status_unique _ _ _ Hr Hs).
Qed.

Lemma geocoding_counters_witness :
  ∃ o, Geocode.process_csv Geocode.Example.nominatim Geocode.Example.photon
         Geocode.Example.lines 0 None [] = Some o ∧
       Geocode.succeeded o ≤ Geocode.processed o.
Proof.
  eexists. split; [reflexivity |].
  eapply (geocoding_counters (list string) Z Geocode.Example.nominatim
            Geocode.Example.photon). reflexivity.
Defined.

Section GeocodeBatches.
Variables (W C : Type).
Variables (nominatim photon : string → W → option (C * C) * W).

Lemma step_batches (row : list string) (p : Geocode.progress W C) :
  Forall (λ b, length b = Geocode.batch_size) (Geocode.written p) →
  length (Geocode.batch_results p) < Geocode.batch_size →
  Forall (λ b, length b = Geocode.batch_size)
    (Geocode.written (Geocode.step nominatim photon row p)) ∧
  length (Geocode.batch_results (Geocode.step nominatim photon row p)) < Geocode.batch_size.
Proof.
  intros Hwritten Hbatch. unfold Geocode.step.
  destruct (Geocode.has_address row);
    [destruct (Geocode.geocode_address nominatim photon _ _ _ _ _) as [r w'] |];
    (destruct (Geocode.batch_size <=? _) eqn:Hfull; simpl;
     [apply Nat.leb_le in Hfull | apply Nat.leb_gt in Hfull];
     rewrite length_app in Hfull; simpl in Hfull;
     (split; [| unfold Geocode.batch_size in *; simpl; try rewrite length_app; simpl; lia]);
     [apply Forall_app; split; [done |]; apply Forall_singleton; rewrite length_app; simpl;
      unfold Geocode.batch_size in *; lia | done]).
Qed.

Lemma loop_batches (max_rows : option Z) (rows : list (list string))
    (p : Geocode.progress W C) :
  Forall (λ b, length b = Geocode.batch_size) (Geocode.written p) →
  length (Geocode.batch_results p) < Geocode.batch_size →
  Forall (λ b, length b = Geocode.batch_size)
    (Geocode.written (Geocode.loop nominatim photon max_rows rows p)) ∧
  length (Geocode.batch_results (Geocode.loop nominatim photon max_rows rows p))
    < Geocode.batch_size.
Proof.
  revert p. induction rows as [| row rows IH]; intros p Hwritten Hbatch; [done |].
  simpl. destruct (Geocode.limit_reached _ _); [done |].
  destruct (step_batches row p Hwritten Hbatch) as [Hwritten' Hbatch']. by apply IH.
Qed.

Lemma loop_limit (n : Z) (rows : list (list string)) (p : Geocode.progress W C) :
  (0 < n)%Z → Geocode.processed_count p ≤ Z.to_nat n →
  Geocode.processed_count (Geocode.loop nominatim photon (Some n) rows p) ≤ Z.to_nat n.
Proof.
  intros Hn. revert p. induction rows as [| row rows IH]; intros p Hp; [done |].
  simpl. destruct (_ && _) eqn:Hlimit; [done |].
  apply IH. destruct (step_spec W C nominatim photon row p) as (_ & _ & _ & -> & _).
  apply andb_false_iff in Hlimit as [Hz | Hle].
  - apply negb_false_iff, Z.eqb_eq in Hz. lia.
  - apply Z.leb_gt in Hle. destruct (Geocode.has_address row); lia.
Qed.

End GeocodeBatches.

(** X15.  Rows are written in batches of ten: every batch written but the
    last holds exactly ten rows, and the last holds between one and ten; no
    empty batch is written. *)
Theorem geocoding_batches_of_ten (W C : Type)
    (nominatim photon : string → W → option (C * C) * W)
    (headers : list string) (rows : list (list string)) (start_row : Z)
    (max_rows : option Z) (w : W) (o : Geocode.output W C) (i : nat)
    (b : list (list (Geocode.cell C))) :
  Geocode.process_csv nominatim photon (headers :: rows) start_row max_rows w = Some o →
  Geocode.batches o !! i = Some b →
  1 ≤ length b ≤ 10 ∧ (S i < length (Geocode.batches o) → length b = 10).
Proof.
  unfold Geocode.process_csv. intros [= <-]. simpl.
  destruct (loop_batches W C nominatim photon max_rows (drop (Z.to_nat start_row) rows)
              {| Geocode.world := w; Geocode.batch_results := [];
                 Geocode.processed_count := 0; Geocode.success_count := 0;
                 Geocode.written := [] |}) as [Hwritten Hbatch];
    [done | unfold Geocode.batch_size; simpl; lia |].
  unfold Geocode.batch_size in *.
  destruct (Geocode.batch_results _) as [| x l] eqn:Hlast.
  - intros Hb. rewrite Forall_lookup in Hwritten. rewrite (Hwritten _ _ Hb). lia.
  - intros Hb. apply lookup_app_Some in Hb as [Hb | [Hi Hb]].
    + rewrite Forall_lookup in Hwritten. rewrite (Hwritten _ _ Hb). lia.
    + apply list_lookup_singleton_Some in Hb as [Hi' <-].
      rewrite length_app. simpl in *. lia.
Qed.

Lemma geocoding_batches_of_ten_witness :
  ∃ o b, Geocode.process_csv Geocode.Example.nominatim Geocode.Example.photon
           (["h"] :: replicate 23 ["a"]) 0 None [] = Some o ∧
         Geocode.batches o !! 1 = Some b ∧ length b = 10.
Proof.
  eexists _, _. split; [reflexivity |]. split; [reflexivity |].
  eapply (geocoding_batches_of_ten (list string) Z Geocode.Example.nominatim
            Geocode.Example.photon ["h"] (replicate 23 ["a"]) 0 None [] _ 1);
    [reflexivity | reflexivity | vm_compute; lia].
Defined.

(** X16.  With a positive limit, no more addresses than the limit are sent
    to the services. *)
Theorem geocoding_respects_limit (W C : Type)
    (nominatim photon : string → W → option (C * C) * W)
    (headers : list string) (rows : list (list string)) (start_row n : Z)
    (w : W) (o : Geocode.output W C) :
  (0 < n)%Z →
  Geocode.process_csv nominatim photon (headers :: rows) start_row (Some n) w = Some o →
  Geocode.processed o ≤ Z.to_nat n.
Proof.
  intros Hn. unfold Geocode.process_csv. intros [= <-]. simpl.
  apply loop_limit; [done | simpl; lia].
Qed.

Lemma geocoding_respects_limit_witness :
  ∃ o, Geocode.process_csv Geocode.Example.nominatim Geocode.Example.photon
         Geocode.Example.lines 0 (Some 2%Z) [] = Some o ∧
       Geocode.processed o ≤ 2.
Proof.
  eexists. split; [reflexivity |].
  apply (geocoding_respects_limit (list string) Z Geocode.Example.nominatim
           Geocode.Example.photon (hd [] Geocode.Example.lines) (tl Geocode.Example.lines)
           0 2 []); [lia | reflexivity].
Defined.

(** X17.  The edges of the two options.  A limit of zero is no limit at all,
    and a negative [start_row] skips nothing.  A negative limit, or a
    [start_row] at or past the last row, leaves the output file with its
    header line only: nothing is written after it and no service is
    asked. *)
Theorem geocoding_option_edges (W C : Type)
    (nominatim photon : string → W → option (C * C) * W)
    (lines : list (list string)) (start_row : Z) (max_rows : option Z) (w : W) :
  Geocode.process_csv nominatim photon lines start_row (Some 0%Z) w
    = Geocode.process_csv nominatim photon lines start_row None w ∧
  ((start_row < 0)%Z →
     Geocode.process_csv nominatim photon lines start_row max_rows w
     = Geocode.process_csv nominatim photon lines 0 max_rows w) ∧
  (∀ headers rows o,
     lines = headers :: rows →
     (∃ n, max_rows = Some n ∧ (n < 0)%Z) ∨ length rows ≤ Z.to_nat start_row →
     Geocode.process_csv nominatim photon lines start_row max_rows w = Some o →
     Geocode.batches o = [] ∧ Geocode.processed o = 0 ∧ Geocode.final_world o = w).
Proof.
  split_and!.
  - assert (Hloop : ∀ rows p, Geocode.loop nominatim photon (Some 0%Z) rows p
                              = Geocode.loop nominatim photon None rows p).
    { induction rows as [| row rows IH]; intros p; [done |]. simpl. apply IH. }
    destruct lines as [| headers rows]; [done |]. unfold Geocode.process_csv.
    by rewrite Hloop.
  - intros Hstart. destruct lines as [| headers rows]; [done |].
    unfold Geocode.process_csv. by rewrite Z2Nat.nonpos by lia.
  - intros headers rows o -> Hedge. unfold Geocode.process_csv. intros [= <-].
    destruct Hedge as [(n & -> & Hn) | Hstart].
    + assert (Hloop : ∀ rows' p, Geocode.loop nominatim photon (Some n) rows' p = p).
      { intros [| row rest] p; [done |]. unfold Geocode.loop, Geocode.limit_reached.
        assert (negb (n =? 0)%Z && (n <=? Z.of_nat (Geocode.processed_count p))%Z = true)
          as ->; [| done].
        apply andb_true_iff.
        split; [apply negb_true_iff, Z.eqb_neq | apply Z.leb_le]; lia. }
      by rewrite Hloop.
    + by rewrite drop_ge.
Qed.

Lemma geocoding_option_edges_witness :
  ∃ o, Geocode.process_csv Geocode.Example.nominatim Geocode.Example.photon
         Geocode.Example.lines 0 (Some (-1)%Z) [] = Some o ∧
       Geocode.batches o = [] ∧ Geocode.final_world o = [].
Proof.
  eexists. split; [reflexivity |].
  edestruct (geocoding_option_edges (list string) Z Geocode.Example.nominatim
               Geocode.Example.photon Geocode.Example.lines 0 (Some (-1)%Z) [])
    as (_ & _ & Hedge).
  edestruct (Hedge (hd [] Geocode.Example.lines) (tl Geocode.Example.lines))
    as (Hb & _ & Hw);
    [reflexivity | left; exists (-1)%Z; split; [reflexivity | lia] | reflexivity |].
  split; [exact Hb | exact Hw].
Defined.

(** X18.  Rows without a usable address cost no request: when no row of the
    input has one (short row, street empty or ['#N/A'], or a first cell that
    starts with ['Subtotal']), the world is left as it was, no address is
    counted, and every row written is its input row followed by four empty
    cells and the status skipped. *)
Theorem rows_without_address_are_skipped (W C : Type)
    (nominatim photon : string → W → option (C * C) * W)
    (headers : list string) (rows : list (list string)) (start_row : Z)
    (max_rows : option Z) (w : W) (o : Geocode.output W C) :
  Forall (λ row, Geocode.has_address row = false) rows →
  Geocode.process_csv nominatim photon (headers :: rows) start_row max_rows w = Some o →
  Geocode.final_world o = w ∧ Geocode.processed o = 0 ∧ Geocode.succeeded o = 0 ∧
  ∃ consumed, consumed `prefix_of` drop (Z.to_nat start_row) rows ∧
              concat (Geocode.batches o) = Geocode.skipped_row <$> consumed.
Proof.
  intros Hrows (p & -> & Hout & Hproc & Hsucc & Hworld & _)%process_csv_rows_out.
  destruct (loop_spec W C nominatim photon max_rows (drop (Z.to_nat start_row) rows)
              {| Geocode.world := w; Geocode.batch_results := [];
                 Geocode.processed_count := 0; Geocode.success_count := 0;
                 Geocode.written := [] |})
    as (consumed & rest & new_rows & Hsplit & Hout' & _ & _ & Hproc' & Hcount & Hsucc' & Hnone).
  destruct Hnone as [-> Hw]; [by apply Forall_drop |].
  assert (Hconsumed : Forall (λ row, Geocode.has_address row = false) consumed).
  { apply (Forall_drop _ (Z.to_nat start_row)) in Hrows. rewrite Hsplit in Hrows.
    by apply Forall_app in Hrows as [? _]. }
  assert (Hnil : filter Geocode.has_address consumed = []).
  { clear -Hconsumed. induction Hconsumed as [| row l Hrow _ IH]; [done |].
    rewrite filter_cons, Hrow. simpl. exact IH. }
  rewrite Hworld, Hw, Hproc, Hproc', Hnil, Hsucc, Hsucc', Hout, Hout'. simpl.
  split_and!; try done.
  - assert (Hs : ∀ row, Geocode.has_status "success" (@Geocode.skipped_row C row) = false).
    { intros row. unfold Geocode.skipped_row. by rewrite (has_status_row (C := C)). }
    clear -Hs. induction consumed as [| row l IH]; [done |].
    rewrite fmap_cons, filter_cons, Hs. simpl. exact IH.
  - exists consumed. split; [by exists rest | done].
Qed.

Lemma rows_without_address_are_skipped_witness :
  ∃ o, Geocode.process_csv Geocode.Example.nominatim Geocode.Example.photon
         [["h"]; ["short"; "row"]; Geocode.Example.line "Subtotal" "3 Low St" "" "" ""]
         0 None [] = Some o ∧
       Geocode.final_world o = [].
Proof.
  eexists. split; [reflexivity |].
  eapply (rows_without_address_are_skipped (list string) Z Geocode.Example.nominatim
            Geocode.Example.photon); [| reflexivity].
  repeat constructor.
Defined.

(** * The SQL export *)

Lemma replace_quote_nil : Sql.replace_quote "" = "".
Proof. reflexivity. Qed.

Lemma replace_quote_quote (r : string) :
  Sql.replace_quote (String Sql.quote r)
  = String Sql.quote (String Sql.quote (Sql.replace_quote r)).
Proof. reflexivity. Qed.

Lemma replace_quote_other (c : ascii) (r : string) :
  c ≠ Sql.quote → Sql.replace_quote (String c r) = String c (Sql.replace_quote r).
Proof.
  intros Hc. change (Sql.replace_quote (String c r))
    with (if decide (c = Sql.quote)
          then String Sql.quote (String Sql.quote (Sql.replace_quote r))
          else String c (Sql.replace_quote r)).
  by rewrite decide_False.
Qed.

Lemma starts_with_quote_false (t : string) :
  Sql.starts_with_quote (String Sql.quote t) = false → False.
Proof. done. Qed.

Lemma replace_quote_cancel (s1 s2 t1 t2 : string) :
  Sql.starts_with_quote t1 = false → Sql.starts_with_quote t2 = false →
  Sql.replace_quote s1 +:+ String Sql.quote t1 = Sql.replace_quote s2 +:+ String Sql.quote t2 →
  s1 = s2 ∧ t1 = t2.
Proof.
  intros Ht1 Ht2. revert s2.
  induction s1 as [| c1 r1 IH]; intros [| c2 r2].
  - rewrite replace_quote_nil, !append_nil. by intros [= ->].
  - rewrite replace_quote_nil, append_nil.
    destruct (decide (c2 = Sql.quote)) as [-> | Hc2].
    + rewrite replace_quote_quote, !append_cons. intros [= ->].
      by apply starts_with_quote_false in Ht1.
    + rewrite replace_quote_other, append_cons by done. by intros [= <-].
  - rewrite replace_quote_nil, append_nil.
    destruct (decide (c1 = Sql.quote)) as [-> | Hc1].
    + rewrite replace_quote_quote, !append_cons. intros [= <-].
      by apply starts_with_quote_false in Ht2.
    + rewrite replace_quote_other, append_cons by done. by intros [= ->].
  - destruct (decide (c1 = Sql.quote)) as [-> | Hc1],
      (decide (c2 = Sql.quote)) as [-> | Hc2].
    + rewrite !replace_quote_quote, !append_cons. intros [= E].
      by destruct (IH _ E) as [-> ->].
    + rewrite replace_quote_quote, replace_quote_other, !append_cons by done.
      by intros [= <-].
    + rewrite replace_quote_quote, replace_quote_other, !append_cons by done.
      by intros [= ->].
    + rewrite !replace_quote_other, !append_cons by done. intros [= -> E].
      by destruct (IH _ E) as [-> ->].
Qed.

Section SqlFormat.
Context `{PyFloat}.
Variable str_of_float : float → string.

Lemma format_value_null : Sql.format_value str_of_float (Sql.text None) = "NULL".
Proof. reflexivity. Qed.

Lemma format_value_blank : Sql.format_value str_of_float (Sql.text (Some "")) = "NULL".
Proof. reflexivity. Qed.

Lemma format_value_quoted (a : ascii) (s : string) :
  Sql.format_value str_of_float (Sql.text (Some (String a s)))
  = String Sql.quote (Sql.replace_quote (String a s) +:+ String Sql.quote "").
Proof. reflexivity. Qed.

Lemma format_value_null_if_blank (v : option string) :
  Sql.format_value str_of_float (Sql.text (Sql.null_if_blank v))
  = Sql.format_value str_of_float (Sql.text v).
Proof. by destruct v as [[] |]. Qed.

Lemma format_value_cancel (v1 v2 : option string) (t1 t2 : string) :
  Sql.starts_with_quote t1 = false → Sql.starts_with_quote t2 = false →
  Sql.format_value str_of_float (Sql.text v1) +:+ t1
  = Sql.format_value str_of_float (Sql.text v2) +:+ t2 →
  Sql.null_if_blank v1 = Sql.null_if_blank v2 ∧ t1 = t2.
Proof.
  intros Ht1 Ht2.
  destruct v1 as [[| a1 s1] |], v2 as [[| a2 s2] |];
    rewrite ?format_value_null, ?format_value_blank, ?format_value_quoted, ?append_cons,
      ?append_nil;
    try (by intros [= ->]); try (by intros [=]).
  rewrite !string_app_assoc, !append_cons, !append_nil. intros [= E].
  destruct (replace_quote_cancel (String a1 s1) (String a2 s2) _ _ Ht1 Ht2 E) as [Hs ->].
  by rewrite Hs.
Qed.

Lemma join_two (sep p q : string) (rest : list string) :
  Geocode.join sep (p :: q :: rest) = p +:+ sep +:+ Geocode.join sep (q :: rest).
Proof. reflexivity. Qed.

Lemma join_cancel (vs1 vs2 : list (option string)) (t1 t2 : string) :
  length vs1 = length vs2 →
  Sql.starts_with_quote t1 = false → Sql.starts_with_quote t2 = false →
  Geocode.join ", " (Sql.format_value str_of_float <$> (Sql.text <$> vs1)) +:+ t1
  = Geocode.join ", " (Sql.format_value str_of_float <$> (Sql.text <$> vs2)) +:+ t2 →
  Sql.null_if_blank <$> vs1 = Sql.null_if_blank <$> vs2 ∧ t1 = t2.
Proof.
  intros Hlen Ht1 Ht2. revert vs2 Hlen.
  induction vs1 as [| v1 vs1 IH]; intros [| v2 vs2] Hlen; try done.
  destruct vs1 as [| w1 vs1], vs2 as [| w2 vs2]; try done.
  - rewrite !fmap_cons, !fmap_nil.
    change (Geocode.join ", " [?p]) with p. intros E.
    by destruct (format_value_cancel _ _ _ _ Ht1 Ht2 E) as [-> ->].
  - rewrite !fmap_cons, !join_two, !string_app_assoc, !append_cons, !append_nil.
    intros E. apply format_value_cancel in E as [Hv [= E]]; [| done | done].
    destruct (IH (w2 :: vs2) (f_equal Nat.pred Hlen) E) as [Hvs ->].
    split; [| done].
    change (Sql.null_if_blank v1 :: (Sql.null_if_blank <$> w1 :: vs1)
            = Sql.null_if_blank v2 :: (Sql.null_if_blank <$> w2 :: vs2)).
    by rewrite Hv, Hvs.
Qed.

Lemma capability_values_fields (cap : Capability.t) :
  Sql.capability_values cap = Sql.text <$> Sql.capability_fields cap.
Proof. reflexivity. Qed.

Lemma capability_insert_fields (c1 c2 : Capability.t) :
  Sql.capability_insert str_of_float c1 = Sql.capability_insert str_of_float c2 →
  Sql.null_if_blank <$> Sql.capability_fields c1
  = Sql.null_if_blank <$> Sql.capability_fields c2.
Proof.
  unfold Sql.capability_insert. rewrite !capability_values_fields.
  intros E%String.app_inj. by apply join_cancel in E as [? _].
Qed.

Lemma null_if_blank_id (v : option string) : not_blank v → Sql.null_if_blank v = v.
Proof. unfold not_blank. by destruct v as [[] |]. Qed.

End SqlFormat.

(** X19.  [format_value] tells two text values apart exactly when the
    database should: two fields that each hold a string or null are written
    alike if and only if they are equal once the empty string is read as
    null.  So quotes inside a string never make two different strings look
    the same, and the four-letter string NULL is not written as a null. *)
Theorem format_value_separates_text `{PyFloat} (str_of_float : float → string)
    (v1 v2 : option string) :
  Sql.format_value str_of_float (Sql.text v1) = Sql.format_value str_of_float (Sql.text v2)
  ↔ Sql.null_if_blank v1 = Sql.null_if_blank v2.
Proof.
  split.
  - intros E.
    assert (E' : Sql.format_value str_of_float (Sql.text v1) +:+ ""
                 = Sql.format_value str_of_float (Sql.text v2) +:+ "") by by rewrite E.
    by apply format_value_cancel in E' as [? _].
  - intros E. by rewrite <- (format_value_null_if_blank _ v1), E, format_value_null_if_blank.
Qed.

(** X20.  The statement written for a Capability determines its seven
    fields, up to the empty string being read as null: two Capabilities get
    the same INSERT statement if and only if their fields agree in that
    sense.  No comma, parenthesis or quote inside a field can shift the
    boundary between two values of the statement. *)
Theorem capability_statement_determines_fields `{PyFloat} (str_of_float : float → string)
    (c1 c2 : Capability.t) :
  Sql.capability_insert str_of_float c1 = Sql.capability_insert str_of_float c2
  ↔ Sql.null_if_blank <$> Sql.capability_fields c1
    = Sql.null_if_blank <$> Sql.capability_fields c2.
Proof.
  split; [apply capability_insert_fields |].
  unfold Sql.capability_insert. rewrite !capability_values_fields.
  intros E. do 2 f_equal.
  assert (Hn : ∀ vs : list (option string),
               Sql.format_value str_of_float <$> (Sql.text <$> vs)
                     = Sql.format_value str_of_float <$>
                         (Sql.text <$> (Sql.null_if_blank <$> vs))).
  { intros vs. rewrite <- !list_fmap_compose. apply list_fmap_ext.
    intros i v _. simpl. by rewrite format_value_null_if_blank. }
  by rewrite (Hn (Sql.capability_fields c1)), E, <- Hn.
Qed.

(** X21.  After a pass, two different Capability records never get the same
    INSERT statement: the pass stores no empty string in a Capability, so the
    statement determines the record. *)
Theorem pass_capabilities_have_distinct_statements `{PyFloat}
    (str_of_float : float → string) (rows : list Row) (st : State) (c1 c2 : Capability.t) :
  process_csv rows = Ok st →
  c1 ∈ capabilities st → c2 ∈ capabilities st → c1 ≠ c2 →
  Sql.capability_insert str_of_float c1 ≠ Sql.capability_insert str_of_float c2.
Proof.
  intros Hrun Hc1 Hc2 Hne E%capability_insert_fields. apply Hne.
  assert (Hinv : capabilities_nonblank st).
  { eapply (process_rows_invariant capabilities_nonblank (λ _, True));
      [apply process_row_capabilities_nonblank | | | exact Hrun].
    - by apply Forall_forall.
    - by intros c ?%elem_of_nil. }
  destruct (Hinv _ Hc1) as (Hl1 & Ho1 & Hi1 & Hd1 & Ht1 & Hs1 & Hv1).
  destruct (Hinv _ Hc2) as (Hl2 & Ho2 & Hi2 & Hd2 & Ht2 & Hs2 & Hv2).
  destruct c1 as [l1 o1 i1 d1 t1 v1 s1], c2 as [l2 o2 i2 d2 t2 v2 s2].
  simpl in Hl1, Ho1, Hi1, Hd1, Ht1, Hs1, Hv1, Hl2, Ho2, Hi2, Hd2, Ht2, Hs2, Hv2.
  change ([Sql.null_if_blank (Some l1); Sql.null_if_blank (Some o1); Sql.null_if_blank i1;
           Sql.null_if_blank d1; Sql.null_if_blank t1; Sql.null_if_blank v1;
           Sql.null_if_blank s1]
          = [Sql.null_if_blank (Some l2); Sql.null_if_blank (Some o2); Sql.null_if_blank i2;
             Sql.null_if_blank d2; Sql.null_if_blank t2; Sql.null_if_blank v2;
             Sql.null_if_blank s2]) in E.
  rewrite !null_if_blank_id in E by first [done | unfold not_blank; congruence].
  by injection E as -> -> -> -> -> -> ->.
Qed.

Lemma pass_capabilities_have_distinct_statements_witness :
  ∃ st : State,
    process_csv [Example.group_a; Example.group_b] = Ok st ∧
    capabilities st = [Sql.Example.supplier_a; Sql.Example.supplier_b] ∧
    Sql.capability_insert (λ _, "") Sql.Example.supplier_a
    ≠ Sql.capability_insert (λ _, "") Sql.Example.supplier_b.
Proof.
  destruct (process_csv_eval [Example.group_a; Example.group_b]
              (λ st, capabilities st = [Sql.Example.supplier_a; Sql.Example.supplier_b]))
    as (st & Hst & Hc); [vm_compute; reflexivity |].
  exists st. split; [exact Hst |]. split; [exact Hc |].
  apply (pass_capabilities_have_distinct_statements (λ _, "") _ st _ _ Hst).
  - rewrite Hc. apply elem_of_cons. left. reflexivity.
  - rewrite Hc. apply elem_of_cons. right. apply elem_of_cons. left. reflexivity.
  - discriminate.
Defined.
